(** * hugepage_mmap_wrapper: a shallow embedding and its properties

    The program is an interposition library (docker/llama-cpu/
    hugepage_mmap_wrapper.cpp): it shadows [mmap] and [munmap], and replaces a
    whole-file mapping of a hugetlbfs file by an anonymous region filled with
    the file's bytes.

    The embedding has three layers.
    - The operating system the library talks to ([os]): the descriptor table,
      memory, the table of live regions, and a script of kernel decisions that
      resolves everything the kernel is free to decide (the address of a new
      region, whether a call fails, how many bytes a read delivers).
    - The process-wide state of the library ([state]): the two cached handles,
      the linked list of allocation records, and two observation channels: the
      trace of calls made to the outside with their results, and the
      diagnostics written to stderr.
    - The library's functions, written in a state monad with the ways a C
      function can fail to return ([outcome]).

    The operating system follows POSIX: mmap refuses a length of 0, read
    delivers at most what it is asked for and at most what is left in the
    file, lseek answers the new offset, every call can fail. Left out of the
    model: the text of the diagnostics (errno strings, dlerror, the pid, the
    sizes in GB), and a failing malloc. *)

From Stdlib Require Import ZArith List Lia Bool String.
Import ListNotations.
Local Open Scope Z_scope.

(** ** Machine integers and system constants *)

(** [size_t] is unsigned 64-bit, [ssize_t] and [off_t] are signed 64-bit. *)
Definition to_size_t (z : Z) : Z := z mod 2 ^ 64.
Definition to_ssize_t (z : Z) : Z := (z + 2 ^ 63) mod 2 ^ 64 - 2 ^ 63.
Definition OFF_MAX : Z := 2 ^ 63 - 1.

(** Line 25 of the source; the others are the values of the Linux headers. *)
Definition HUGETLBFS_MAGIC : Z := 0x958458f6.
Definition PROT_READ : Z := 1.
Definition PROT_WRITE : Z := 2.
Definition MAP_PRIVATE : Z := 0x02.
Definition MAP_ANONYMOUS : Z := 0x20.
Definition MAP_HUGETLB : Z := 0x40000.
Definition SEEK_SET : Z := 0.
(** [(void* )-1] *)
Definition MAP_FAILED : Z := 2 ^ 64 - 1.
(** [nullptr] *)
Definition nullptr : Z := 0.

Arguments OFF_MAX : simpl never.
Arguments HUGETLBFS_MAGIC : simpl never.
Arguments PROT_WRITE : simpl never.
Arguments SEEK_SET : simpl never.
Arguments MAP_FAILED : simpl never.
Arguments nullptr : simpl never.

(** ** The operating system *)

Record file := mkFile {
  f_type : option Z;      (* what fstatfs reports; None: the query fails *)
  st_ok : bool;           (* whether fstat succeeds *)
  data : list Byte.byte;  (* the file's bytes *)
  pos : Z                 (* the read cursor of the descriptor *)
}.

Record region := mkRegion { base : Z; len : Z; protection : Z }.

Record os := mkOs {
  dl_next : string -> Z;      (* dlsym(RTLD_NEXT, name); 0 when absent *)
  fdtab : list (Z * file);    (* open descriptors *)
  mem : Z -> Byte.byte;       (* memory, by address *)
  maps : list region;         (* live regions *)
  answers : list Z            (* kernel decisions, consumed in call order *)
}.

Definition set_fdtab (t : list (Z * file)) (w : os) : os :=
  mkOs (dl_next w) t (mem w) (maps w) (answers w).
Definition set_mem (m : Z -> Byte.byte) (w : os) : os :=
  mkOs (dl_next w) (fdtab w) m (maps w) (answers w).
Definition set_maps (r : list region) (w : os) : os :=
  mkOs (dl_next w) (fdtab w) (mem w) r (answers w).
Definition set_answers (a : list Z) (w : os) : os :=
  mkOs (dl_next w) (fdtab w) (mem w) (maps w) a.

Fixpoint lookup_fd (fd : Z) (t : list (Z * file)) : option file :=
  match t with
  | [] => None
  | (k, f) :: rest => if k =? fd then Some f else lookup_fd fd rest
  end.

Fixpoint update_fd (fd : Z) (f' : file) (t : list (Z * file)) : list (Z * file) :=
  match t with
  | [] => []
  | (k, f) :: rest =>
      if k =? fd then (k, f') :: rest else (k, f) :: update_fd fd f' rest
  end.

(** The next kernel decision; an exhausted script answers -1. *)
Definition next_answer (w : os) : Z * os :=
  match answers w with
  | [] => (-1, w)
  | c :: rest => (c, set_answers rest w)
  end.

Definition file_size (f : file) : Z := Z.of_nat (List.length (data f)).

(** fstatfs: the filesystem type of the descriptor, when the query succeeds. *)
Definition os_fstatfs (fd : Z) (w : os) : option Z :=
  match lookup_fd fd (fdtab w) with
  | Some f => f_type f
  | None => None
  end.

(** fstat: st_size, when the query succeeds (a size that does not fit off_t
    is EOVERFLOW). *)
Definition os_fstat (fd : Z) (w : os) : option Z :=
  match lookup_fd fd (fdtab w) with
  | Some f => if st_ok f && (file_size f <=? OFF_MAX) then Some (file_size f) else None
  | None => None
  end.

(** mmap: the kernel either refuses (MAP_FAILED) or picks an address; a
    request of length 0 is always refused (POSIX: EINVAL). *)
Definition os_mmap (length prot : Z) (w : os) : Z * os :=
  let (c, w1) := next_answer w in
  if (0 <? length) && (0 <? c) && (c <? MAP_FAILED)
  then (c, set_maps (mkRegion c length prot :: maps w1) w1)
  else (MAP_FAILED, w1).

Definition os_munmap (addr : Z) (w : os) : Z * os :=
  let (c, w1) := next_answer w in
  if c =? 0
  then (0, set_maps (filter (fun r => negb (base r =? addr)) (maps w1)) w1)
  else (-1, w1).

Definition reprotect (addr prot : Z) (r : region) : region :=
  if base r =? addr then mkRegion (base r) (len r) prot else r.

Definition os_mprotect (addr prot : Z) (w : os) : Z * os :=
  let (c, w1) := next_answer w in
  if c =? 0
  then (0, set_maps (map (reprotect addr prot) (maps w1)) w1)
  else (-1, w1).

(** lseek: the resulting offset, or -1. *)
Definition os_lseek (fd offset whence : Z) (w : os) : Z * os :=
  let (c, w1) := next_answer w in
  match lookup_fd fd (fdtab w1) with
  | Some f =>
      if (c =? 0) && (whence =? SEEK_SET) && (0 <=? offset)
      then (offset,
            set_fdtab (update_fd fd (mkFile (f_type f) (st_ok f) (data f) offset)
                                 (fdtab w1)) w1)
      else (-1, w1)
  | None => (-1, w1)
  end.

Definition store_bytes (m : Z -> Byte.byte) (buf : Z) (bs : list Byte.byte)
  : Z -> Byte.byte :=
  fun a => if (buf <=? a) && (a <? buf + Z.of_nat (List.length bs))
           then nth (Z.to_nat (a - buf)) bs Byte.x00
           else m a.

Definition load_bytes (m : Z -> Byte.byte) (buf : Z) (n : nat) : list Byte.byte :=
  map (fun i => m (buf + Z.of_nat i)) (seq 0 n).

(** read: -1 on error; otherwise the kernel delivers at most [count] bytes,
    at most what is left after the cursor, and at most what it decides to
    (a short read); the bytes go to [buf] and the cursor advances. *)
Definition os_read (fd buf count : Z) (w : os) : Z * os :=
  let (c, w1) := next_answer w in
  match lookup_fd fd (fdtab w1) with
  | Some f =>
      if c <? 0 then (-1, w1)
      else
        let avail := Z.max 0 (file_size f - pos f) in
        let n := Z.min c (Z.min count avail) in
        let bs := firstn (Z.to_nat n) (skipn (Z.to_nat (pos f)) (data f)) in
        (n, set_mem (store_bytes (mem w1) buf bs)
              (set_fdtab (update_fd fd (mkFile (f_type f) (st_ok f) (data f)
                                               (pos f + n))
                                    (fdtab w1)) w1))
  | None => (-1, w1)
  end.

(** ** The library's state *)

(** struct HugePageAllocation; the [next] pointer is the tail of the list. *)
Record HugePageAllocation := mkAlloc { alloc_addr : Z; alloc_size : Z }.

(** A call made to the outside. *)
Inductive call :=
| Dlsym (name : string)
| Fstatfs (fd : Z)
| Fstat (fd : Z)
| Mmap (addr length prot flags fd offset : Z)
| Munmap (addr length : Z)
| Lseek (fd offset whence : Z)
| Read (fd buf count : Z)
| Mprotect (addr length prot : Z).

(** A call together with the value it returned. *)
Record event := Ev { ev_call : call; ev_ret : Z }.

(** The lines written to stderr (their numbers, not their formatting). *)
Inductive diag :=
| ErrNoRealMmap
| ErrNoRealMunmap
| WarnStat (fd : Z)
| InfoIntercept (length : Z)
| WarnHugetlbFailed
| ErrAnonFailed
| InfoAllocated (length : Z)
| ErrSeek
| ErrRead (total_read : Z)
| ErrEOF (total_read : Z)
| InfoProgress (total_read length : Z)
| InfoLoaded (total_read : Z)
| WarnMprotect
| InfoUnmap (tracked_size : Z)
| InfoLibraryLoaded.

Record state := mkState {
  real_mmap : Z;                            (* cached handle, 0 = nullptr *)
  real_munmap : Z;
  allocations : list HugePageAllocation;    (* head of the record list *)
  heap_records : nat;                       (* records malloc'ed and not freed *)
  world : os;
  trace : list event;
  stderr : list diag
}.

Definition set_real_mmap (p : Z) (st : state) : state :=
  mkState p (real_munmap st) (allocations st) (heap_records st) (world st)
          (trace st) (stderr st).
Definition set_real_munmap (p : Z) (st : state) : state :=
  mkState (real_mmap st) p (allocations st) (heap_records st) (world st)
          (trace st) (stderr st).
Definition set_allocations (l : list HugePageAllocation) (st : state) : state :=
  mkState (real_mmap st) (real_munmap st) l (heap_records st) (world st)
          (trace st) (stderr st).
Definition set_heap_records (n : nat) (st : state) : state :=
  mkState (real_mmap st) (real_munmap st) (allocations st) n (world st)
          (trace st) (stderr st).
Definition set_world (w : os) (st : state) : state :=
  mkState (real_mmap st) (real_munmap st) (allocations st) (heap_records st) w
          (trace st) (stderr st).
Definition set_trace (t : list event) (st : state) : state :=
  mkState (real_mmap st) (real_munmap st) (allocations st) (heap_records st)
          (world st) t (stderr st).
Definition set_stderr (d : list diag) (st : state) : state :=
  mkState (real_mmap st) (real_munmap st) (allocations st) (heap_records st)
          (world st) (trace st) d.

(** ** The monad of the library's functions *)

Inductive outcome (A : Type) :=
| Returned (a : A)       (* the function returns *)
| Exited (code : Z)      (* exit(code) *)
| Crashed                (* a call through a null handle *)
| OutOfFuel.             (* the model's loop bound was too small *)
Arguments Returned {A} a.
Arguments Exited {A} code.
Arguments Crashed {A}.
Arguments OutOfFuel {A}.

Definition M (A : Type) : Type := state -> outcome A * state.

Definition ret {A} (a : A) : M A := fun st => (Returned a, st).

Definition bind {A B} (m : M A) (k : A -> M B) : M B :=
  fun st =>
    match m st with
    | (Returned a, st') => k a st'
    | (Exited c, st') => (Exited c, st')
    | (Crashed, st') => (Crashed, st')
    | (OutOfFuel, st') => (OutOfFuel, st')
    end.

Notation "x <- m ;; k" := (bind m (fun x => k))
  (at level 61, m at next level, right associativity).
Notation "m ;;; k" := (bind m (fun _ => k))
  (at level 61, right associativity).

Definition exit {A} (code : Z) : M A := fun st => (Exited code, st).
Definition gets {A} (f : state -> A) : M A := fun st => (Returned (f st), st).
Definition modify (f : state -> state) : M unit := fun st => (Returned tt, f st).

Definition fprintf_stderr (d : diag) : M unit :=
  modify (fun st => set_stderr (stderr st ++ [d]) st).

(** A call to the outside: the world moves, the call and its result are
    recorded. *)
Definition syscall (c : call) (f : os -> Z * os) : M Z :=
  fun st =>
    let (r, w) := f (world st) in
    (Returned r, set_trace (trace st ++ [Ev c r]) (set_world w st)).

(** A query that leaves the world as it is. *)
Definition query {A} (c : call) (f : os -> option A) : M (option A) :=
  fun st =>
    let r := f (world st) in
    (Returned r,
     set_trace (trace st ++ [Ev c (match r with Some _ => 0 | None => -1 end)]) st).

Definition dlsym (name : string) : M Z :=
  fun st =>
    let p := dl_next (world st) name in
    (Returned p, set_trace (trace st ++ [Ev (Dlsym name) p]) st).

(** A call through a cached handle. *)
Definition through (handle : state -> Z) {A} (m : M A) : M A :=
  fun st => if handle st =? nullptr then (Crashed, st) else m st.

Definition call_real_mmap (addr length prot flags fd offset : Z) : M Z :=
  through real_mmap
    (syscall (Mmap addr length prot flags fd offset) (os_mmap length prot)).

Definition call_real_munmap (addr length : Z) : M Z :=
  through real_munmap (syscall (Munmap addr length) (os_munmap addr)).

Definition lseek (fd offset whence : Z) : M Z :=
  syscall (Lseek fd offset whence) (os_lseek fd offset whence).

Definition read (fd buf count : Z) : M Z :=
  syscall (Read fd buf count) (os_read fd buf count).

Definition mprotect (addr length prot : Z) : M Z :=
  syscall (Mprotect addr length prot) (os_mprotect addr prot).

(** ** The library *)

(** init_functions, lines 45-60. *)
Definition init_functions : M unit :=
  rm <- gets real_mmap ;;
  (if rm =? nullptr then
     p <- dlsym "mmap" ;;
     modify (set_real_mmap p) ;;;
     if p =? nullptr then fprintf_stderr ErrNoRealMmap ;;; exit 1 else ret tt
   else ret tt) ;;;
  ru <- gets real_munmap ;;
  if ru =? nullptr then
    p <- dlsym "munmap" ;;
    modify (set_real_munmap p) ;;;
    if p =? nullptr then fprintf_stderr ErrNoRealMunmap ;;; exit 1 else ret tt
  else ret tt.

(** is_hugetlbfs_fd, lines 63-69. *)
Definition is_hugetlbfs_fd (fd : Z) : M bool :=
  fs_info <- query (Fstatfs fd) (os_fstatfs fd) ;;
  match fs_info with
  | Some ty => ret (ty =? HUGETLBFS_MAGIC)
  | None => ret false
  end.

(** track_allocation, lines 72-78 (malloc is taken to succeed). *)
Definition track_allocation (addr size : Z) : M unit :=
  modify (fun st =>
    set_heap_records (S (heap_records st))
      (set_allocations (mkAlloc addr size :: allocations st) st)).

(** The loop of untrack_allocation, lines 85-94, on the list from [curr] on:
    the size returned and the list with the record unlinked, or None when the
    end is reached. *)
Fixpoint unlink (addr : Z) (curr : list HugePageAllocation)
  : option (Z * list HugePageAllocation) :=
  match curr with
  | [] => None
  | a :: next =>
      if alloc_addr a =? addr then Some (alloc_size a, next)
      else match unlink addr next with
           | Some (size, rest) => Some (size, a :: rest)
           | None => None
           end
  end.

(** untrack_allocation, lines 81-96. *)
Definition untrack_allocation (addr : Z) : M Z :=
  fun st =>
    match unlink addr (allocations st) with
    | Some (size, rest) =>
        (Returned size,
         set_heap_records (pred (heap_records st)) (set_allocations rest st))
    | None => (Returned 0, st)
    end.

(** The chunk size of line 151. *)
Definition chunk_size : Z := 64 * 1024 * 1024.
Arguments chunk_size : simpl never.

(** The copy loop, lines 152-175. The loop runs while
    [total_read < (ssize_t)length]; [fuel] bounds its iterations. The result is
    [None] when the body returned MAP_FAILED (after the region was unmapped)
    and [Some total_read] when the loop ended. [total_read] is an ssize_t;
    its increment is written with the wrap-around, which the reads of this
    operating system never reach. *)
Fixpoint copy_loop (fuel : nat) (fd dest length total_read : Z) : M (option Z) :=
  if total_read <? to_ssize_t length then
    match fuel with
    | O => fun st => (OutOfFuel, st)
    | S fuel' =>
        let to_read :=
          if to_size_t (length - total_read) <? chunk_size
          then to_size_t (length - total_read) else chunk_size in
        bytes_read <- read fd (dest + total_read) to_read ;;
        if bytes_read <=? 0 then
          (if bytes_read <? 0 then fprintf_stderr (ErrRead total_read)
           else fprintf_stderr (ErrEOF total_read)) ;;;
          call_real_munmap dest length ;;;
          ret None
        else
          let total_read := to_ssize_t (total_read + bytes_read) in
          (if Z.rem total_read (1024 * 1024 * 1024) =? 0
           then fprintf_stderr (InfoProgress total_read length)
           else ret tt) ;;;
          copy_loop fuel' fd dest length total_read
    end
  else ret (Some total_read).

(** mmap, lines 139-191: what is done once the anonymous region [huge_mem]
    exists. *)
Definition populate (fd huge_mem length prot : Z) : M Z :=
  r <- lseek fd 0 SEEK_SET ;;
  if negb (r =? 0) then
    fprintf_stderr ErrSeek ;;;
    call_real_munmap huge_mem length ;;;
    ret MAP_FAILED
  else
    copied <- copy_loop (Z.to_nat (to_ssize_t length)) fd huge_mem length 0 ;;
    match copied with
    | None => ret MAP_FAILED
    | Some total_read =>
        fprintf_stderr (InfoLoaded total_read) ;;;
        (if Z.land prot PROT_WRITE =? 0 then
           r <- mprotect huge_mem length prot ;;
           if negb (r =? 0) then fprintf_stderr WarnMprotect else ret tt
         else ret tt) ;;;
        track_allocation huge_mem length ;;;
        ret huge_mem
    end.

Definition anon_prot : Z := Z.lor PROT_READ PROT_WRITE.
Definition anon_flags : Z := Z.lor MAP_PRIVATE MAP_ANONYMOUS.
Definition huge_flags : Z := Z.lor (Z.lor MAP_PRIVATE MAP_ANONYMOUS) MAP_HUGETLB.
Arguments anon_prot : simpl never.
Arguments anon_flags : simpl never.
Arguments huge_flags : simpl never.

(** mmap, lines 113-191: the branch taken for a whole-file mapping. *)
Definition synthesize (fd length prot : Z) : M Z :=
  fprintf_stderr (InfoIntercept length) ;;;
  huge_mem <- call_real_mmap nullptr length anon_prot huge_flags (-1) 0 ;;
  if huge_mem =? MAP_FAILED then
    fprintf_stderr WarnHugetlbFailed ;;;
    huge_mem <- call_real_mmap nullptr length anon_prot anon_flags (-1) 0 ;;
    if huge_mem =? MAP_FAILED then
      fprintf_stderr ErrAnonFailed ;;;
      ret MAP_FAILED
    else populate fd huge_mem length prot
  else
    fprintf_stderr (InfoAllocated length) ;;;
    populate fd huge_mem length prot.

(** mmap, lines 99-197. *)
Definition mmap (addr length prot flags fd offset : Z) : M Z :=
  init_functions ;;;
  hit <- (if 0 <=? fd then is_hugetlbfs_fd fd else ret false) ;;
  if hit then
    st <- query (Fstat fd) (os_fstat fd) ;;
    match st with
    | None =>
        fprintf_stderr (WarnStat fd) ;;;
        call_real_mmap addr length prot flags fd offset
    | Some st_size =>
        if (offset =? 0) && (length =? to_size_t st_size)
        then synthesize fd length prot
        else call_real_mmap addr length prot flags fd offset
    end
  else call_real_mmap addr length prot flags fd offset.

(** munmap, lines 200-214. *)
Definition munmap (addr length : Z) : M Z :=
  init_functions ;;;
  tracked_size <- untrack_allocation addr ;;
  if 0 <? tracked_size then
    fprintf_stderr (InfoUnmap tracked_size) ;;;
    call_real_munmap addr tracked_size
  else call_real_munmap addr length.

(** init, lines 217-221. *)
Definition init : M unit :=
  fprintf_stderr InfoLibraryLoaded ;;;
  init_functions.

(** The loop of cleanup, lines 227-231: every record is freed, none is
    unmapped. *)
Fixpoint drain (curr : list HugePageAllocation) (heap : nat)
  : list HugePageAllocation * nat :=
  match curr with
  | [] => ([], heap)
  | _ :: next => drain next (pred heap)
  end.

(** cleanup, lines 224-232. *)
Definition cleanup : M unit :=
  modify (fun st =>
    let (l, h) := drain (allocations st) (heap_records st) in
    set_heap_records h (set_allocations l st)).

(** ** A small world to run the library in *)

Definition abcd : list Byte.byte := [Byte.x61; Byte.x62; Byte.x63; Byte.x64].

Definition hugetlbfs_file (bytes : list Byte.byte) : file :=
  mkFile (Some HUGETLBFS_MAGIC) true bytes 0.

Definition ext4_file (bytes : list Byte.byte) : file :=
  mkFile (Some 0xEF53) true bytes 0.

Definition libc (name : string) : Z :=
  if String.eqb name "mmap" then 0x7f0000001000
  else if String.eqb name "munmap" then 0x7f0000002000
  else 0.

(** Descriptor 3 is a hugetlbfs file holding "abcd", descriptor 4 an ext4 file
    with the same bytes; the kernel follows [script]. *)
Definition demo_os (script : list Z) : os :=
  mkOs libc [(3, hugetlbfs_file abcd); (4, ext4_file abcd)]
       (fun _ => Byte.xff) [] script.

Definition fresh (w : os) : state := mkState nullptr nullptr [] 0 w [] [].

(** The state after the library's constructor ran. *)
Definition loaded (w : os) : state := snd (init (fresh w)).

(** ** Observers used in the statements *)

(** What is_hugetlbfs_fd answers in world [w]. *)
Definition hugetlbfs_member (w : os) (fd : Z) : bool :=
  match os_fstatfs fd w with
  | Some ty => ty =? HUGETLBFS_MAGIC
  | None => false
  end.

(** The conditions of lines 103, 106 and 112 together. *)
Definition activates (w : os) (fd length offset : Z) : bool :=
  (0 <=? fd) && hugetlbfs_member w fd &&
  match os_fstat fd w with
  | Some st_size => (offset =? 0) && (length =? to_size_t st_size)
  | None => false
  end.

(** Both handles are resolved. *)
Definition bound (st : state) : Prop :=
  real_mmap st <> nullptr /\ real_munmap st <> nullptr.

(** A seek that did not land on 0, or a read that delivered nothing. *)
Definition failed_step (e : event) : bool :=
  match ev_call e with
  | Lseek _ _ _ => negb (ev_ret e =? 0)
  | Read _ _ _ => ev_ret e <=? 0
  | _ => false
  end.

(** A dlsym of [name]. *)
Definition is_lookup (name : string) (e : event) : bool :=
  match ev_call e with
  | Dlsym n => String.eqb n name
  | _ => false
  end.

(** Unfolds the resolver down to the state it works on. *)
Ltac run_init :=
  unfold init_functions, bind, gets, ret, dlsym, modify, fprintf_stderr, exit.

(** What a call leaves of the library's own data. *)
Definition same_library (s s' : state) : Prop :=
  real_mmap s' = real_mmap s /\ real_munmap s' = real_munmap s /\
  allocations s' = allocations s /\ heap_records s' = heap_records s.

(** A read on [fd] that delivered something. *)
Definition good_read (fd : Z) (e : event) : bool :=
  match ev_call e with
  | Read fd' _ _ => (fd' =? fd) && (0 <? ev_ret e)
  | _ => false
  end.

(** The two ways a run of [populate] on [s] can end in [s'] with result [out]
    after the calls [evs]: the region is filled (by a seek to 0 and reads that
    all deliver something), given the requested protection when that excludes
    writing, recorded, and its address returned; or a seek or a read failed,
    the region was unmapped as the last call, nothing was recorded and
    MAP_FAILED is returned. *)
Definition populated (fd huge_mem length prot : Z) (s : state) (out : Z)
           (s' : state) (evs : list event) : Prop :=
  (out = huge_mem /\
   allocations s' = mkAlloc huge_mem length :: allocations s /\
   heap_records s' = S (heap_records s) /\
   exists reads tail,
     evs = Ev (Lseek fd 0 SEEK_SET) 0 :: reads ++ tail /\
     forallb (good_read fd) reads = true /\
     ((Z.land prot PROT_WRITE <> 0 /\ tail = [] /\
       maps (world s') = maps (world s))
      \/
      (Z.land prot PROT_WRITE = 0 /\
       exists r, tail = [Ev (Mprotect huge_mem length prot) r] /\
                 (r = 0 -> maps (world s')
                           = map (reprotect huge_mem prot) (maps (world s))))))
  \/
  (out = MAP_FAILED /\
   allocations s' = allocations s /\
   heap_records s' = heap_records s /\
   exists r,
     ((exists x, x <> 0 /\
                 evs = [Ev (Lseek fd 0 SEEK_SET) x; Ev (Munmap huge_mem length) r])
      \/
      (exists reads buf count n,
          n <= 0 /\
          forallb (good_read fd) reads = true /\
          evs = Ev (Lseek fd 0 SEEK_SET) 0
                :: reads ++ [Ev (Read fd buf count) n; Ev (Munmap huge_mem length) r]))
     /\
     (r = 0 -> Forall (fun g => base g <> huge_mem) (maps (world s')))).

(** The two requests of lines 117-120 and 125-128. *)
Definition huge_request (length : Z) : call :=
  Mmap nullptr length anon_prot huge_flags (-1) 0.
Definition anon_request (length : Z) : call :=
  Mmap nullptr length anon_prot anon_flags (-1) 0.

(** How lines 117-133 obtain the region in world [w]: the huge-page request
    is granted, or it is refused and the plain request decides. [huge_mem] is
    the outcome, [w'] the world afterwards, [evs] the calls made. *)
Definition allocation (length : Z) (w : os) (huge_mem : Z) (w' : os)
           (evs : list event) : Prop :=
  (os_mmap length anon_prot w = (huge_mem, w') /\
   huge_mem <> MAP_FAILED /\
   evs = [Ev (huge_request length) huge_mem])
  \/
  (exists w1,
      os_mmap length anon_prot w = (MAP_FAILED, w1) /\
      os_mmap length anon_prot w1 = (huge_mem, w') /\
      evs = [Ev (huge_request length) MAP_FAILED; Ev (anon_request length) huge_mem]).

(** The two queries, both answered, that precede an activation. *)
Definition queries_made (fd : Z) : list event :=
  [Ev (Fstatfs fd) 0; Ev (Fstat fd) 0].

(** The queries of lines 103 and 106 about [fd]. *)
Definition is_query (fd : Z) (e : event) : bool :=
  match ev_call e with
  | Fstatfs fd' => fd' =? fd
  | Fstat fd' => fd' =? fd
  | _ => false
  end.

(** A call of the real mmap. *)
Definition is_map (e : event) : bool :=
  match ev_call e with
  | Mmap _ _ _ _ _ _ => true
  | _ => false
  end.

(** ** The states the library can be in *)

(** The registry invariant: a record has a positive size, and there is one
    heap node per record. *)
Definition registry_ok (st : state) : Prop :=
  Forall (fun a => 0 < alloc_size a) (allocations st) /\
  heap_records st = List.length (allocations st).

(** A request of the application. *)
Inductive request :=
| ReqMmap (addr length prot flags fd offset : Z)
| ReqMunmap (addr length : Z).

Definition serve (r : request) : M Z :=
  match r with
  | ReqMmap addr length prot flags fd offset => mmap addr length prot flags fd offset
  | ReqMunmap addr length => munmap addr length
  end.

(** The states of a process that loaded the library: it starts with no handle
    and no record; the constructor, the entry points and the destructor run;
    in between the rest of the process changes the world at will. *)
Inductive reachable : state -> Prop :=
| reachable_fresh : forall w, reachable (mkState nullptr nullptr [] 0 w [] [])
| reachable_init : forall st, reachable st -> reachable (snd (init st))
| reachable_serve : forall st r, reachable st -> reachable (snd (serve r st))
| reachable_cleanup : forall st, reachable st -> reachable (snd (cleanup st))
| reachable_world : forall st w, reachable st -> reachable (set_world w st).

(** ** Two threads in the registry *)

(** track_allocation touches the shared list head twice: line 76 reads it
    into the new record's [next], line 77 writes the new record's address
    into it. Nothing in the source makes the two accesses one step, so
    another thread can run between them. The model keeps, for a thread that
    runs track_allocation, where it stands. *)
Module Interleaving.

Inductive thread :=
| Ready (addr size : Z)                                   (* before line 76 *)
| Linked (addr size : Z) (next : list HugePageAllocation)  (* before line 77 *)
| Finished.

Definition step (head : list HugePageAllocation) (t : thread)
  : list HugePageAllocation * thread :=
  match t with
  | Ready addr size => (head, Linked addr size head)
  | Linked addr size next => (mkAlloc addr size :: next, Finished)
  | Finished => (head, Finished)
  end.

Inductive tid := T1 | T2.

Record config := mkConfig {
  head : list HugePageAllocation;
  first : thread;
  second : thread
}.

Definition schedule (c : config) (t : tid) : config :=
  match t with
  | T1 => let (h, th) := step (head c) (first c) in mkConfig h th (second c)
  | T2 => let (h, th) := step (head c) (second c) in mkConfig h (first c) th
  end.

Definition run (order : list tid) (c : config) : config :=
  fold_left schedule order c.

(** Two threads, each about to record a region. *)
Definition start (h : list HugePageAllocation) (a1 s1 a2 s2 : Z) : config :=
  mkConfig h (Ready a1 s1) (Ready a2 s2).

End Interleaving.

(** Two threads record the regions 0x5000 and 0x9000 in an empty registry;
    each reads the head before the other writes it. *)
Definition racy_insertions : Interleaving.config :=
  Interleaving.run [Interleaving.T1; Interleaving.T2;
                    Interleaving.T1; Interleaving.T2]
                   (Interleaving.start [] 0x5000 4096 0x9000 8192).

(** The kernel grants 0x5000, the seek lands, the reads deliver 1, 2 and 1
    bytes, mprotect succeeds. *)
Definition run_short_reads : state := fresh (demo_os [0x5000; 0; 1; 2; 5; 0]).

(** A region was recorded for descriptor 3; the caller then unmaps it with a
    wrong length, and unmaps an address the registry does not know. *)
Definition after_mapping : state :=
  snd (serve (ReqMmap 0 4 PROT_READ MAP_PRIVATE 3 0)
             (snd (init (fresh (demo_os [0x5000; 0; 4; 0; 0]))))).

(** The kernel grants 0x5000, the seek lands, one byte is read, then the file
    ends early. *)
Definition run_early_eof : state := fresh (demo_os [0x5000; 0; 1; 0; 0]).

(** The kernel refuses both requests. *)
Definition run_no_memory : state := fresh (demo_os [-1; -1]).

(** The copy completes and the kernel refuses the protection change. *)
Definition run_mprotect_refused : state := fresh (demo_os [0x5000; 0; 4; -1]).

(** A process where neither symbol can be found. *)
Definition no_libc : os := mkOs (fun _ => nullptr) [] (fun _ => Byte.x00) [] [].

(** The state after the resolver ran once. *)
Definition resolved : state := snd (init_functions (fresh (demo_os []))).

(** ** The three registry operations, access by access *)

(** The registry as it lies in memory: the variable [allocations] and the
    records malloc handed out, each with its [next] pointer. A thread that
    runs one of the three operations is followed through its accesses to
    the shared list; nothing in the source makes two of them one step. A
    step takes the lines named beside it, a loop one iteration at a time.
    malloc hands out a fresh address each time, and a freed record stays
    freed. *)
Module Threads.

(** A record in memory; [c_next] is null ([None]) or the address of a record. *)
Record cell := mkCell { c_addr : Z; c_size : Z; c_next : option nat }.

Record shared := mkShared {
  top : option nat;              (* the variable allocations *)
  cells : nat -> option cell;    (* the records, by address; None once freed *)
  brk : nat                      (* the address malloc hands out next *)
}.

Definition put (n : nat) (v : option cell) (cs : nat -> option cell)
  : nat -> option cell :=
  fun m => if Nat.eqb m n then v else cs m.

Inductive operation :=
| Insert (addr size : Z)   (* track_allocation(addr, size) *)
| Remove (addr : Z)        (* untrack_allocation(addr) *)
| Drain.                   (* cleanup() *)

(** Where [prev] of untrack_allocation points: at [allocations], or at the
    [next] field of a record. *)
Inductive place := AtTop | AtNext (n : nat).

Inductive thread :=
| Idle (op : operation)                               (* not started *)
| Filled (n : nat)                                    (* track_allocation before line 77 *)
| Walking (addr : Z) (prev : place) (curr : option nat)  (* untrack_allocation at line 85 *)
| Draining                                            (* cleanup at line 227 *)
| Finished (result : Z)                               (* returned (0 for void) *)
| Faulted.                                            (* touched a freed record *)

(** One iteration of the loop of cleanup, lines 227-231. *)
Definition drain_step (sh : shared) : shared * thread :=
  match top sh with
  | None => (sh, Finished 0)
  | Some c =>
      match cells sh c with
      | None => (sh, Faulted)
      | Some nd => (mkShared (c_next nd) (put c None (cells sh)) (brk sh), Draining)
      end
  end.

Definition step (sh : shared) (t : thread) : shared * thread :=
  match t with
  | Idle (Insert addr size) =>                       (* lines 73-76 *)
      (mkShared (top sh)
                (put (brk sh) (Some (mkCell addr size (top sh))) (cells sh))
                (S (brk sh)),
       Filled (brk sh))
  | Filled n =>                                      (* line 77 *)
      (mkShared (Some n) (cells sh) (brk sh), Finished 0)
  | Idle (Remove addr) =>                            (* lines 82-83 *)
      (sh, Walking addr AtTop (top sh))
  | Walking addr prev None =>                        (* line 95 *)
      (sh, Finished 0)
  | Walking addr prev (Some c) =>                    (* lines 85-94 *)
      match cells sh c with
      | None => (sh, Faulted)
      | Some nd =>
          if c_addr nd =? addr then
            match prev with
            | AtTop =>
                (mkShared (c_next nd) (put c None (cells sh)) (brk sh),
                 Finished (c_size nd))
            | AtNext p =>
                match cells sh p with
                | None => (sh, Faulted)
                | Some pn =>
                    (mkShared (top sh)
                              (put c None
                                   (put p (Some (mkCell (c_addr pn) (c_size pn)
                                                        (c_next nd)))
                                        (cells sh)))
                              (brk sh),
                     Finished (c_size nd))
                end
            end
          else (sh, Walking addr (AtNext c) (c_next nd))
      end
  | Idle Drain => drain_step sh
  | Draining => drain_step sh
  | Finished r => (sh, Finished r)
  | Faulted => (sh, Faulted)
  end.

(** A thread running [k] steps with no other thread in between. *)
Fixpoint alone (k : nat) (sh : shared) (t : thread) : shared * thread :=
  match k with
  | O => (sh, t)
  | S k' => let (sh', t') := step sh t in alone k' sh' t'
  end.

Record system := mkSystem { memory : shared; threads : list thread }.

Fixpoint set_nth (i : nat) (t : thread) (l : list thread) : list thread :=
  match l, i with
  | [], _ => []
  | _ :: l', O => t :: l'
  | x :: l', S i' => x :: set_nth i' t l'
  end.

(** Thread [i] makes its next step. *)
Definition schedule (sys : system) (i : nat) : system :=
  match nth_error (threads sys) i with
  | Some t => let (sh, t') := step (memory sys) t in
              mkSystem sh (set_nth i t' (threads sys))
  | None => sys
  end.

Definition run (order : list nat) (sys : system) : system :=
  fold_left schedule order sys.

(** The schedule in which the threads of [turns] run one after the other,
    [k] steps each, none starting before the one before it is through. *)
Definition one_at_a_time (turns : list nat) (k : nat) : list nat :=
  flat_map (fun i => repeat i k) turns.

(** The list a chain of records stands for: from pointer [p], through the
    records at [ids], to pointer [q]. *)
Fixpoint segment (cs : nat -> option cell) (p : option nat) (ids : list nat)
         (l : list HugePageAllocation) (q : option nat) : Prop :=
  match ids, l with
  | [], [] => p = q
  | n :: ids', r :: l' =>
      p = Some n /\
      exists nx, cs n = Some (mkCell (alloc_addr r) (alloc_size r) nx) /\
                 segment cs nx ids' l' q
  | _, _ => False
  end.

(** The memory holds the list [l]: a chain of distinct live records from
    [allocations] to null. *)
Definition represents (sh : shared) (l : list HugePageAllocation) : Prop :=
  exists ids,
    segment (cells sh) (top sh) ids l None /\
    NoDup ids /\
    Forall (fun n => (n < brk sh)%nat) ids.

(** What an operation does to the list and what it returns, by the
    library's sequential functions. *)
Definition effect (op : operation) (l : list HugePageAllocation)
  : list HugePageAllocation * Z :=
  match op with
  | Insert addr size => (mkAlloc addr size :: l, 0)
  | Remove addr =>
      match unlink addr l with
      | Some (size, rest) => (rest, size)
      | None => (l, 0)
      end
  | Drain => (fst (drain l 0), 0)
  end.

(** Operations done in turn: the final list and what each returned. *)
Fixpoint sequential (ops : list operation) (l : list HugePageAllocation)
  : list HugePageAllocation * list Z :=
  match ops with
  | [] => (l, [])
  | op :: ops' =>
      let (l1, r) := effect op l in
      let (lf, rs) := sequential ops' l1 in
      (lf, r :: rs)
  end.

(** The operation thread [i] is about to start. *)
Definition op_of (sys : system) (i : nat) : operation :=
  match nth_error (threads sys) i with
  | Some (Idle op) => op
  | _ => Drain
  end.

(** The address [a] is none of the operation's business. *)
Definition elsewhere (a : Z) (op : operation) : Prop :=
  match op with
  | Insert addr _ => addr <> a
  | Remove addr => addr <> a
  | Drain => False
  end.

(** Where [prev] points once the walk has passed the records at [ids]. *)
Definition place_after (ids : list nat) : place :=
  match rev ids with
  | [] => AtTop
  | p :: _ => AtNext p
  end.

(** The library's own function for an operation; void comes back as 0. *)
Definition perform (op : operation) : M Z :=
  match op with
  | Insert addr size => track_allocation addr size ;;; ret 0
  | Remove addr => untrack_allocation addr
  | Drain => cleanup ;;; ret 0
  end.

(** One thread calling the functions one after the other. *)
Fixpoint perform_all (ops : list operation) : M (list Z) :=
  match ops with
  | [] => ret []
  | op :: ops' =>
      r <- perform op ;;
      rs <- perform_all ops' ;;
      ret (r :: rs)
  end.

(** The records of the list that carry the address [a], in order. *)
Definition records_at (a : Z) (l : list HugePageAllocation)
  : list HugePageAllocation :=
  filter (fun r => alloc_addr r =? a) l.

End Threads.

(** The registry of [after_mapping] in memory, one record for the four bytes
    at 0x5000, and four threads about to call into it. *)
Definition registry_demo : Threads.system :=
  Threads.mkSystem
    (Threads.mkShared (Some 0%nat)
                      (Threads.put 0%nat (Some (Threads.mkCell 0x5000 4 None))
                                   (fun _ => None))
                      1%nat)
    [Threads.Idle (Threads.Insert 0x9000 8192);
     Threads.Idle (Threads.Remove 0x5000);
     Threads.Idle Threads.Drain;
     Threads.Idle (Threads.Insert 0x7000 4096)].

(** ** Definitions for the further properties *)

(** A read request that stays inside the region [dest, dest + length) and
    asks for at most one chunk; other calls pass. *)
Definition request_ok (dest length : Z) (e : event) : bool :=
  match ev_call e with
  | Read _ buf count =>
      (dest <=? buf) && (buf + count <=? dest + length)
      && (0 <? count) && (count <=? chunk_size)
  | _ => true
  end.

(** From [s] to [s'] the handles are kept, memory outside the region is
    kept, and the calls made are [request_ok]. *)
Definition contained (dest length : Z) (s s' : state) : Prop :=
  real_mmap s' = real_mmap s /\
  real_munmap s' = real_munmap s /\
  (forall x, ~ (dest <= x < dest + length) -> mem (world s') x = mem (world s) x) /\
  exists evs, trace s' = trace s ++ evs /\
              forallb (request_ok dest length) evs = true.

(** The address lines 117-133 end up with in world [w] (MAP_FAILED when both
    requests are refused). *)
Definition granted_region (length : Z) (w : os) : Z :=
  let (r1, w1) := os_mmap length anon_prot w in
  if r1 =? MAP_FAILED then fst (os_mmap length anon_prot w1) else r1.

(** A registry holding a record of size 0, in a process whose handles are
    bound. *)
Definition zero_size_record : state :=
  set_allocations [mkAlloc 0x5000 0] (loaded (demo_os [0])).

(** Descriptor 5 is on hugetlbfs and its size cannot be queried. *)
Definition unstattable_os : os :=
  mkOs libc [(5, mkFile (Some HUGETLBFS_MAGIC) false abcd 0)]
       (fun _ => Byte.xff) [] [0x5000].

(** A symbol the library still needs cannot be found. *)
Definition unresolvable (st : state) : Prop :=
  (real_mmap st = nullptr /\ dl_next (world st) "mmap" = nullptr) \/
  (real_munmap st = nullptr /\ dl_next (world st) "munmap" = nullptr).

(** The configurations two inserting threads can go through, from a list
    [h], whatever the order of their steps. *)
Definition race_states (h : list HugePageAllocation) (a1 s1 a2 s2 : Z)
  : list Interleaving.config :=
  let r1 := mkAlloc a1 s1 in
  let r2 := mkAlloc a2 s2 in
  [ Interleaving.mkConfig h (Interleaving.Ready a1 s1) (Interleaving.Ready a2 s2);
    Interleaving.mkConfig h (Interleaving.Linked a1 s1 h) (Interleaving.Ready a2 s2);
    Interleaving.mkConfig h (Interleaving.Ready a1 s1) (Interleaving.Linked a2 s2 h);
    Interleaving.mkConfig h (Interleaving.Linked a1 s1 h) (Interleaving.Linked a2 s2 h);
    Interleaving.mkConfig (r1 :: h) Interleaving.Finished (Interleaving.Ready a2 s2);
    Interleaving.mkConfig (r1 :: h) Interleaving.Finished
                          (Interleaving.Linked a2 s2 (r1 :: h));
    Interleaving.mkConfig (r1 :: h) Interleaving.Finished (Interleaving.Linked a2 s2 h);
    Interleaving.mkConfig (r2 :: h) (Interleaving.Ready a1 s1) Interleaving.Finished;
    Interleaving.mkConfig (r2 :: h) (Interleaving.Linked a1 s1 (r2 :: h))
                          Interleaving.Finished;
    Interleaving.mkConfig (r2 :: h) (Interleaving.Linked a1 s1 h) Interleaving.Finished;
    Interleaving.mkConfig (r2 :: r1 :: h) Interleaving.Finished Interleaving.Finished;
    Interleaving.mkConfig (r1 :: r2 :: h) Interleaving.Finished Interleaving.Finished;
    Interleaving.mkConfig (r1 :: h) Interleaving.Finished Interleaving.Finished;
    Interleaving.mkConfig (r2 :: h) Interleaving.Finished Interleaving.Finished ].

(** Descriptor 6 is an empty file on hugetlbfs. *)
Definition empty_file_os : os :=
  mkOs libc [(6, hugetlbfs_file [])] (fun _ => Byte.xff) [] [0x5000; 0x6000].

(** * Properties *)

(** ** The symbol resolver *)

Lemma init_functions_bound_noop :
  forall st, bound st -> init_functions st = (Returned tt, st).
Proof.
  intros st [Hm Hu].
  unfold init_functions, bind, gets, ret.
  apply Z.eqb_neq in Hm. apply Z.eqb_neq in Hu.
  rewrite Hm. cbn. rewrite Hu. reflexivity.
Qed.

(** What a returning call of the resolver leaves behind. *)
Lemma init_functions_returns :
  forall st st0,
    init_functions st = (Returned tt, st0) ->
    bound st0 /\
    world st0 = world st /\
    allocations st0 = allocations st /\
    heap_records st0 = heap_records st /\
    stderr st0 = stderr st /\
    exists evs, trace st0 = trace st ++ evs /\
                forallb (fun e => is_lookup "mmap" e || is_lookup "munmap" e) evs = true.
Proof.
  intros st st0.
  unfold init_functions, bind, gets, ret, dlsym, modify, fprintf_stderr, exit, bound.
  destruct (real_mmap st =? nullptr) eqn:Em; cbn.
  - destruct (dl_next (world st) "mmap" =? nullptr) eqn:Dm; cbn; [discriminate|].
    destruct (real_munmap st =? nullptr) eqn:Eu; cbn.
    + destruct (dl_next (world st) "munmap" =? nullptr) eqn:Du; cbn; [discriminate|].
      intros H; inversion H; subst; clear H; cbn.
      apply Z.eqb_neq in Dm, Du. repeat split; auto.
      eexists. rewrite <- app_assoc. split; [reflexivity|reflexivity].
    + intros H; inversion H; subst; clear H; cbn.
      apply Z.eqb_neq in Dm, Eu. repeat split; auto.
      eexists. split; [reflexivity|reflexivity].
  - destruct (real_munmap st =? nullptr) eqn:Eu; cbn.
    + destruct (dl_next (world st) "munmap" =? nullptr) eqn:Du; cbn; [discriminate|].
      intros H; inversion H; subst; clear H; cbn.
      apply Z.eqb_neq in Em, Du. repeat split; auto.
      eexists. split; [reflexivity|reflexivity].
    + intros H; inversion H; subst; clear H; cbn.
      apply Z.eqb_neq in Em, Eu. repeat split; auto.
      exists []. rewrite app_nil_r. split; reflexivity.
Qed.

Lemma init_functions_keeps_mmap :
  forall st,
    real_mmap st <> nullptr ->
    real_mmap (snd (init_functions st)) = real_mmap st /\
    exists evs, trace (snd (init_functions st)) = trace st ++ evs /\
                existsb (is_lookup "mmap") evs = false.
Proof.
  intros st H. apply Z.eqb_neq in H. run_init. rewrite H. cbn.
  destruct (real_munmap st =? nullptr); cbn.
  - destruct (dl_next (world st) "munmap" =? nullptr); cbn;
      (split; [reflexivity|]; eexists; split; reflexivity).
  - split; [reflexivity|]. exists []. rewrite app_nil_r. split; reflexivity.
Qed.

Lemma init_functions_keeps_munmap :
  forall st,
    real_munmap st <> nullptr ->
    real_munmap (snd (init_functions st)) = real_munmap st /\
    exists evs, trace (snd (init_functions st)) = trace st ++ evs /\
                existsb (is_lookup "munmap") evs = false.
Proof.
  intros st H. apply Z.eqb_neq in H. run_init.
  destruct (real_mmap st =? nullptr); cbn.
  - destruct (dl_next (world st) "mmap" =? nullptr); cbn.
    + split; [reflexivity|]. eexists; split; reflexivity.
    + rewrite H. cbn. split; [reflexivity|]. eexists; split; reflexivity.
  - rewrite H. cbn. split; [reflexivity|].
    exists []. rewrite app_nil_r. split; reflexivity.
Qed.

Lemma init_functions_exits :
  forall st,
    (real_mmap st = nullptr /\ dl_next (world st) "mmap" = nullptr) \/
    (real_munmap st = nullptr /\ dl_next (world st) "munmap" = nullptr) ->
    fst (init_functions st) = Exited 1 /\
    exists evs name,
      trace (snd (init_functions st)) = trace st ++ evs ++ [Ev (Dlsym name) nullptr].
Proof.
  intros st [[H H0]|[H H0]]; run_init.
  - rewrite H, Z.eqb_refl. cbn. rewrite H0, Z.eqb_refl. cbn.
    split; [reflexivity|]. exists [], "mmap"%string. reflexivity.
  - destruct (real_mmap st =? nullptr); cbn.
    + destruct (dl_next (world st) "mmap" =? nullptr) eqn:D; cbn.
      * apply Z.eqb_eq in D. rewrite D.
        split; [reflexivity|]. exists [], "mmap"%string. reflexivity.
      * rewrite H, Z.eqb_refl. cbn. rewrite H0, Z.eqb_refl. cbn. split; [reflexivity|].
        eexists [_], "munmap"%string. rewrite <- app_assoc. reflexivity.
    + rewrite H, Z.eqb_refl. cbn. rewrite H0, Z.eqb_refl. cbn.
      split; [reflexivity|]. exists [], "munmap"%string. reflexivity.
Qed.

(** C7. The pair of handles is written once. A handle that is already bound is
    neither looked up again nor reassigned by the resolver, whatever happens
    to the other one; a call of the resolver that returns leaves both handles
    bound, and a further call on that state changes nothing; and when a
    symbol that is still unbound cannot be found, the process exits with
    status 1 at once: the failed lookup is the last call made. *)
Theorem init_functions_resolves_once :
  forall st,
    (real_mmap st <> nullptr ->
     real_mmap (snd (init_functions st)) = real_mmap st /\
     exists evs, trace (snd (init_functions st)) = trace st ++ evs /\
                 existsb (is_lookup "mmap") evs = false) /\
    (real_munmap st <> nullptr ->
     real_munmap (snd (init_functions st)) = real_munmap st /\
     exists evs, trace (snd (init_functions st)) = trace st ++ evs /\
                 existsb (is_lookup "munmap") evs = false) /\
    (forall st0, init_functions st = (Returned tt, st0) ->
                 bound st0 /\ init_functions st0 = (Returned tt, st0)) /\
    ((real_mmap st = nullptr /\ dl_next (world st) "mmap" = nullptr) \/
     (real_munmap st = nullptr /\ dl_next (world st) "munmap" = nullptr) ->
     fst (init_functions st) = Exited 1 /\
     exists evs name,
       trace (snd (init_functions st)) = trace st ++ evs ++ [Ev (Dlsym name) nullptr]).
Proof.
  intros st.
  split; [apply init_functions_keeps_mmap|].
  split; [apply init_functions_keeps_munmap|].
  split; [|apply init_functions_exits].
  intros st0 H. pose proof (init_functions_returns st st0 H) as [Hb _].
  split; [exact Hb|]. apply init_functions_bound_noop, Hb.
Qed.

(** ** The operating system's side of the contract *)

Lemma next_answer_frame :
  forall w, dl_next (snd (next_answer w)) = dl_next w /\
            fdtab (snd (next_answer w)) = fdtab w /\
            mem (snd (next_answer w)) = mem w /\
            maps (snd (next_answer w)) = maps w.
Proof.
  intros w. unfold next_answer. destruct (answers w); cbn; auto.
Qed.

Lemma os_mmap_granted :
  forall length prot w,
    fst (os_mmap length prot w) <> MAP_FAILED ->
    0 < length /\
    maps (snd (os_mmap length prot w))
    = mkRegion (fst (os_mmap length prot w)) length prot :: maps w /\
    fdtab (snd (os_mmap length prot w)) = fdtab w /\
    mem (snd (os_mmap length prot w)) = mem w.
Proof.
  intros length prot w. unfold os_mmap.
  pose proof (next_answer_frame w) as (_ & Hf & Hm & Hr).
  destruct (next_answer w) as [c w1]. cbn [snd] in Hf, Hm, Hr.
  destruct (0 <? length) eqn:El; cbn [andb];
    [|intros H; exfalso; apply H; reflexivity].
  destruct ((0 <? c) && (c <? MAP_FAILED)); cbn [andb];
    [|intros H; exfalso; apply H; reflexivity].
  intros _. apply Z.ltb_lt in El. cbn. rewrite Hr. auto.
Qed.

Lemma os_mmap_fdtab :
  forall length prot w, fdtab (snd (os_mmap length prot w)) = fdtab w.
Proof.
  intros length prot w. unfold os_mmap.
  pose proof (next_answer_frame w) as (_ & Hf & _).
  destruct (next_answer w) as [c w1]. cbn in *.
  destruct ((0 <? length) && (0 <? c) && (c <? MAP_FAILED)); cbn; auto.
Qed.

Lemma os_munmap_released :
  forall addr w,
    fst (os_munmap addr w) = 0 ->
    Forall (fun g => base g <> addr) (maps (snd (os_munmap addr w))).
Proof.
  intros addr w. unfold os_munmap. destruct (next_answer w) as [c w1].
  destruct (c =? 0); cbn; [|discriminate]. intros _.
  apply Forall_forall. intros g Hg. apply filter_In in Hg as [_ Hg].
  apply negb_true_iff, Z.eqb_neq in Hg. exact Hg.
Qed.

Lemma os_mprotect_applied :
  forall addr prot w,
    fst (os_mprotect addr prot w) = 0 ->
    maps (snd (os_mprotect addr prot w)) = map (reprotect addr prot) (maps w).
Proof.
  intros addr prot w. unfold os_mprotect.
  pose proof (next_answer_frame w) as (_ & _ & _ & Hr).
  destruct (next_answer w) as [c w1]. cbn in *.
  destruct (c =? 0); cbn; [|discriminate]. intros _. rewrite Hr. reflexivity.
Qed.

Lemma os_lseek_maps :
  forall fd offset whence w,
    maps (snd (os_lseek fd offset whence w)) = maps w.
Proof.
  intros fd offset whence w. unfold os_lseek.
  pose proof (next_answer_frame w) as (_ & _ & _ & Hr).
  destruct (next_answer w) as [c w1]. cbn in *.
  destruct (lookup_fd fd (fdtab w1)); cbn; auto.
  destruct ((c =? 0) && (whence =? SEEK_SET) && (0 <=? offset)); cbn; auto.
Qed.

Lemma os_read_maps :
  forall fd buf count w, maps (snd (os_read fd buf count w)) = maps w.
Proof.
  intros fd buf count w. unfold os_read.
  pose proof (next_answer_frame w) as (_ & _ & _ & Hr).
  destruct (next_answer w) as [c w1]. cbn in *.
  destruct (lookup_fd fd (fdtab w1)); cbn; auto.
  destruct (c <? 0); cbn; auto.
Qed.

(** A read never delivers more than it was asked for. *)
Lemma os_read_at_most :
  forall fd buf count w,
    0 <= count ->
    -1 <= fst (os_read fd buf count w) <= count.
Proof.
  intros fd buf count w Hc. unfold os_read.
  destruct (next_answer w) as [c w1].
  destruct (lookup_fd fd (fdtab w1)); cbn; [|lia].
  destruct (c <? 0) eqn:E; cbn; [lia|]. apply Z.ltb_ge in E. lia.
Qed.

(** ** Machine arithmetic in range *)

Lemma to_ssize_t_small : forall z, - 2 ^ 63 <= z < 2 ^ 63 -> to_ssize_t z = z.
Proof.
  intros z H. unfold to_ssize_t. rewrite Z.mod_small; lia.
Qed.

Lemma to_size_t_small : forall z, 0 <= z < 2 ^ 64 -> to_size_t z = z.
Proof.
  intros z H. unfold to_size_t. apply Z.mod_small. lia.
Qed.

(** ** The copy loop *)

Lemma copy_loop_eq :
  forall fuel fd dest length total_read,
    copy_loop fuel fd dest length total_read =
    if total_read <? to_ssize_t length then
      match fuel with
      | O => fun st => (OutOfFuel, st)
      | S fuel' =>
          let to_read :=
            if to_size_t (length - total_read) <? chunk_size
            then to_size_t (length - total_read) else chunk_size in
          bytes_read <- read fd (dest + total_read) to_read ;;
          if bytes_read <=? 0 then
            (if bytes_read <? 0 then fprintf_stderr (ErrRead total_read)
             else fprintf_stderr (ErrEOF total_read)) ;;;
            call_real_munmap dest length ;;;
            ret None
          else
            let total_read := to_ssize_t (total_read + bytes_read) in
            (if Z.rem total_read (1024 * 1024 * 1024) =? 0
             then fprintf_stderr (InfoProgress total_read length)
             else ret tt) ;;;
            copy_loop fuel' fd dest length total_read
      end
    else ret (Some total_read).
Proof. intros [|fuel]; reflexivity. Qed.

(** The request of an iteration, in range. *)
Lemma to_read_range :
  forall length total_read,
    0 <= total_read < length -> length < 2 ^ 63 ->
    let to_read :=
      if to_size_t (length - total_read) <? chunk_size
      then to_size_t (length - total_read) else chunk_size in
    0 < to_read <= length - total_read.
Proof.
  intros length total_read H HL. cbn zeta.
  rewrite to_size_t_small by lia.
  destruct (length - total_read <? chunk_size) eqn:E.
  - lia.
  - apply Z.ltb_ge in E. unfold chunk_size in *. lia.
Qed.

Lemma same_library_refl : forall s, same_library s s.
Proof. intros s. repeat split. Qed.

Lemma same_library_trans :
  forall s1 s2 s3, same_library s1 s2 -> same_library s2 s3 -> same_library s1 s3.
Proof.
  unfold same_library. intros s1 s2 s3 (A & B & C & D) (A' & B' & C' & D').
  repeat split; congruence.
Qed.

Lemma good_read_not_failed :
  forall fd evs, forallb (good_read fd) evs = true -> existsb failed_step evs = false.
Proof.
  intros fd evs. induction evs as [|e evs IH]; cbn; [reflexivity|].
  intros H. apply andb_true_iff in H as [He Hevs]. rewrite (IH Hevs).
  rewrite orb_false_r. unfold good_read in He. unfold failed_step.
  destruct (ev_call e); try discriminate.
  apply andb_true_iff in He as [_ He]. apply Z.ltb_lt in He.
  apply Z.leb_gt. exact He.
Qed.

(** The copy loop returns; either it copied up to [length], by reads that all
    delivered something, or a read delivered nothing and the region was
    unmapped. *)
Lemma copy_loop_run :
  forall fd dest length fuel total_read s,
    real_munmap s <> nullptr ->
    0 <= total_read <= length -> length < 2 ^ 63 ->
    length - total_read <= Z.of_nat fuel ->
    exists copied s' evs,
      copy_loop fuel fd dest length total_read s = (Returned copied, s') /\
      trace s' = trace s ++ evs /\ same_library s s' /\
      ((copied = Some length /\
        forallb (good_read fd) evs = true /\
        maps (world s') = maps (world s))
       \/
       (copied = None /\
        exists reads buf count n r,
          evs = reads ++ [Ev (Read fd buf count) n; Ev (Munmap dest length) r] /\
          forallb (good_read fd) reads = true /\
          n <= 0 /\
          (r = 0 -> Forall (fun g => base g <> dest) (maps (world s'))))).
Proof.
  intros fd dest length fuel.
  induction fuel as [|fuel IH]; intros total_read s Hu Ht HL Hfuel;
    rewrite copy_loop_eq; rewrite (to_ssize_t_small length) by lia;
    destruct (total_read <? length) eqn:Elt;
    try (apply Z.ltb_ge in Elt; assert (total_read = length) by lia; subst;
         exists (Some length), s, []; rewrite app_nil_r;
         repeat split; left; repeat split).
  - apply Z.ltb_lt in Elt. cbn in Hfuel. lia.
  - apply Z.ltb_lt in Elt.
    pose proof (to_read_range length total_read (conj (proj1 Ht) Elt) HL) as Hr.
    cbn zeta in Hr |- *.
    set (to_read := if to_size_t (length - total_read) <? chunk_size
                    then to_size_t (length - total_read) else chunk_size) in *.
    unfold bind at 1. unfold read, syscall.
    pose proof (os_read_at_most fd (dest + total_read) to_read (world s)
                  ltac:(lia)) as Hn.
    pose proof (os_read_maps fd (dest + total_read) to_read (world s)) as Hm.
    destruct (os_read fd (dest + total_read) to_read (world s)) as [n w1].
    cbn [fst snd] in Hn, Hm.
    destruct (n <=? 0) eqn:En.
    + apply Z.leb_le in En.
      assert (Hrun : forall d s0,
                 real_munmap s0 <> nullptr ->
                 (fprintf_stderr d ;;; call_real_munmap dest length ;;; ret (@None Z)) s0
                 = (Returned (@None Z),
                    set_trace (trace s0 ++ [Ev (Munmap dest length)
                                               (fst (os_munmap dest (world s0)))])
                      (set_world (snd (os_munmap dest (world s0)))
                         (set_stderr (stderr s0 ++ [d]) s0)))).
      { intros d s0 H0. unfold bind, fprintf_stderr, modify, call_real_munmap,
          through, syscall, ret. cbn.
        apply Z.eqb_neq in H0. rewrite H0.
        destruct (os_munmap dest (world s0)); reflexivity. }
      assert (Hsel : forall s0,
                 ((if n <? 0 then fprintf_stderr (ErrRead total_read)
                   else fprintf_stderr (ErrEOF total_read)) ;;;
                  call_real_munmap dest length ;;; ret (@None Z)) s0
                 = (fprintf_stderr (if n <? 0 then ErrRead total_read
                                    else ErrEOF total_read) ;;;
                    call_real_munmap dest length ;;; ret (@None Z)) s0).
      { intros s0. destruct (n <? 0); reflexivity. }
      rewrite Hsel, Hrun by exact Hu.
      eexists None, _, _. split; [reflexivity|]. cbn.
      split; [rewrite <- app_assoc; reflexivity|].
      split; [repeat split|].
      right. split; [reflexivity|].
      exists [], (dest + total_read), to_read, n, (fst (os_munmap dest w1)).
      split; [reflexivity|]. split; [reflexivity|]. split; [exact En|].
      intros H0. apply os_munmap_released. exact H0.
    + apply Z.leb_gt in En.
      rewrite (to_ssize_t_small (total_read + n)) by lia.
      set (s1 := set_trace (trace s ++ [Ev (Read fd (dest + total_read) to_read) n])
                   (set_world w1 s)).
      assert (Hlog : exists s2,
                 (if Z.rem (total_read + n) (1024 * 1024 * 1024) =? 0
                  then fprintf_stderr (InfoProgress (total_read + n) length)
                  else ret tt) s1 = (Returned tt, s2) /\
                 trace s2 = trace s1 /\ world s2 = world s1 /\ same_library s1 s2).
      { destruct (Z.rem (total_read + n) (1024 * 1024 * 1024) =? 0);
          eexists; (split; [reflexivity|]); repeat split. }
      destruct Hlog as (s2 & Hlog & Htr & Hw & Hsame).
      unfold bind at 1. rewrite Hlog.
      destruct (IH (total_read + n) s2) as (copied & s' & evs & Hrun & Htr' & Hsame' & Hcases);
        try lia.
      { destruct Hsame as (_ & E & _). rewrite E. exact Hu. }
      exists copied, s', (Ev (Read fd (dest + total_read) to_read) n :: evs).
      split; [exact Hrun|].
      split; [rewrite Htr', Htr; cbn; rewrite <- app_assoc; reflexivity|].
      split; [apply (same_library_trans s s2 s'); [|exact Hsame'];
              apply (same_library_trans s s1 s2); [repeat split|exact Hsame]|].
      destruct Hcases as [(Hc & Hg & Hmaps)|(Hc & reads & buf & count & m & r & He & Hg & Hm0 & Hrel)].
      * left. split; [exact Hc|]. split.
        -- cbn. rewrite Hg. unfold good_read. cbn.
           rewrite Z.eqb_refl. apply Z.ltb_lt in En. rewrite En. reflexivity.
        -- rewrite Hmaps, Hw. cbn. exact Hm.
      * right. split; [exact Hc|].
        exists (Ev (Read fd (dest + total_read) to_read) n :: reads), buf, count, m, r.
        split; [rewrite He; reflexivity|]. split; [|split; [exact Hm0|exact Hrel]].
        cbn. rewrite Hg. unfold good_read. cbn.
        rewrite Z.eqb_refl. apply Z.ltb_lt in En. rewrite En. reflexivity.
Qed.

(** ** Populating the region *)

Lemma unmap_and_fail_run :
  forall d addr length s,
    real_munmap s <> nullptr ->
    (fprintf_stderr d ;;; call_real_munmap addr length ;;; ret MAP_FAILED) s
    = (Returned MAP_FAILED,
       set_trace (trace s ++ [Ev (Munmap addr length)
                                 (fst (os_munmap addr (world s)))])
         (set_world (snd (os_munmap addr (world s)))
            (set_stderr (stderr s ++ [d]) s))).
Proof.
  intros d addr length s H.
  unfold bind, fprintf_stderr, modify, call_real_munmap, through, syscall, ret.
  cbn. apply Z.eqb_neq in H. rewrite H.
  destruct (os_munmap addr (world s)); reflexivity.
Qed.

(** [populate] returns, in one of these two ways. *)
Lemma populate_run :
  forall fd huge_mem length prot s,
    real_munmap s <> nullptr -> 0 <= length < 2 ^ 63 ->
    exists out s' evs,
      populate fd huge_mem length prot s = (Returned out, s') /\
      trace s' = trace s ++ evs /\
      real_mmap s' = real_mmap s /\ real_munmap s' = real_munmap s /\
      populated fd huge_mem length prot s out s' evs.
Proof.
  intros fd huge_mem length prot s Hu HL.
  unfold populated, populate. unfold bind at 1. unfold lseek, syscall.
  pose proof (os_lseek_maps fd 0 SEEK_SET (world s)) as Hmaps.
  destruct (os_lseek fd 0 SEEK_SET (world s)) as [r w1]. cbn [snd] in Hmaps.
  set (s1 := set_trace (trace s ++ [Ev (Lseek fd 0 SEEK_SET) r]) (set_world w1 s)).
  destruct (r =? 0) eqn:Er; cbn [negb].
  - (* the seek landed on 0 *)
    apply Z.eqb_eq in Er. subst r.
    rewrite (to_ssize_t_small length) by lia.
    destruct (copy_loop_run fd huge_mem length (Z.to_nat length) 0 s1)
      as (copied & s2 & evs & Hrun & Htr & Hsame & Hcases); try lia; [exact Hu|].
    unfold bind at 1. rewrite Hrun.
    destruct Hsame as (Sm & Su & Sa & Sh). cbn in Sm, Su, Sa, Sh.
    destruct Hcases as [(Hc & Hg & Hm)|(Hc & reads & buf & count & n & r & He & Hg & Hn & Hrel)];
      subst copied.
    + (* the whole length was copied *)
      destruct (Z.land prot PROT_WRITE =? 0) eqn:Ew.
      * apply Z.eqb_eq in Ew.
        unfold bind, fprintf_stderr, modify, mprotect, syscall, track_allocation, ret.
        cbn.
        pose proof (os_mprotect_applied huge_mem prot (world s2)) as Hp.
        destruct (os_mprotect huge_mem prot (world s2)) as [r w3]. cbn [fst snd] in Hp.
        exists huge_mem.
        destruct (r =? 0) eqn:Er; cbn;
          (eexists; exists (Ev (Lseek fd 0 SEEK_SET) 0 :: evs ++ [Ev (Mprotect huge_mem length prot) r]);
           split; [reflexivity|]; cbn;
           split; [rewrite Htr; cbn; rewrite <- !app_assoc; reflexivity|];
           split; [exact Sm|]; split; [exact Su|];
           left; split; [reflexivity|];
           split; [rewrite Sa; reflexivity|]; split; [rewrite Sh; reflexivity|];
           exists evs, [Ev (Mprotect huge_mem length prot) r];
           split; [reflexivity|]; split; [exact Hg|];
           right; split; [exact Ew|]; exists r; split; [reflexivity|];
           intros H0; rewrite (Hp H0), Hm; cbn; rewrite Hmaps; reflexivity).
      * apply Z.eqb_neq in Ew.
        unfold bind, fprintf_stderr, modify, track_allocation, ret. cbn.
        exists huge_mem. eexists. exists (Ev (Lseek fd 0 SEEK_SET) 0 :: evs).
        split; [reflexivity|]. cbn.
        split; [rewrite Htr; cbn; rewrite <- !app_assoc; reflexivity|].
        split; [exact Sm|]. split; [exact Su|].
        left. split; [reflexivity|].
        split; [rewrite Sa; reflexivity|]. split; [rewrite Sh; reflexivity|].
        exists evs, []. rewrite app_nil_r.
        split; [reflexivity|]. split; [exact Hg|].
        left. split; [exact Ew|]. split; [reflexivity|].
        rewrite Hm. cbn. exact Hmaps.
    + (* a read delivered nothing *)
      exists MAP_FAILED, s2, (Ev (Lseek fd 0 SEEK_SET) 0 :: evs).
      split; [reflexivity|].
      split; [rewrite Htr; cbn; rewrite <- app_assoc; reflexivity|].
      split; [exact Sm|]. split; [exact Su|].
      right. split; [reflexivity|]. split; [exact Sa|]. split; [exact Sh|].
      exists r. split; [|exact Hrel].
      right. exists reads, buf, count, n.
      split; [exact Hn|]. split; [exact Hg|]. rewrite He. reflexivity.
  - (* the seek failed *)
    rewrite unmap_and_fail_run by exact Hu.
    eexists MAP_FAILED, _, _. split; [reflexivity|]. cbn.
    split; [rewrite <- app_assoc; reflexivity|].
    split; [reflexivity|]. split; [reflexivity|].
    right. split; [reflexivity|]. split; [reflexivity|]. split; [reflexivity|].
    exists (fst (os_munmap huge_mem w1)).
    split; [|intros H0; apply os_munmap_released; exact H0].
    left. exists r. apply Z.eqb_neq in Er. split; [exact Er|reflexivity].
Qed.

(** ** Allocating the region *)

Lemma os_mmap_frame :
  forall length prot w,
    fdtab (snd (os_mmap length prot w)) = fdtab w /\
    mem (snd (os_mmap length prot w)) = mem w /\
    (fst (os_mmap length prot w) = MAP_FAILED ->
     maps (snd (os_mmap length prot w)) = maps w).
Proof.
  intros length prot w. unfold os_mmap.
  pose proof (next_answer_frame w) as (_ & Hf & Hm & Hr).
  destruct (next_answer w) as [c w1]. cbn [snd] in Hf, Hm, Hr.
  destruct ((0 <? length) && (0 <? c) && (c <? MAP_FAILED)) eqn:E; cbn; auto.
  repeat split; auto. intros H. subst c.
  rewrite Z.ltb_irrefl, andb_false_r in E. discriminate.
Qed.

Lemma allocation_granted :
  forall length w huge_mem w' evs,
    allocation length w huge_mem w' evs ->
    huge_mem <> MAP_FAILED ->
    0 < length /\
    maps w' = mkRegion huge_mem length anon_prot :: maps w /\
    fdtab w' = fdtab w /\ mem w' = mem w.
Proof.
  intros length w huge_mem w' evs [(E & _ & _)|(w1 & E1 & E2 & _)] Hne.
  - pose proof (os_mmap_granted length anon_prot w) as H.
    rewrite E in H. cbn [fst snd] in H. apply H. exact Hne.
  - pose proof (os_mmap_granted length anon_prot w1) as H.
    pose proof (os_mmap_frame length anon_prot w) as (Hf & Hm & Hr).
    rewrite E2 in H. rewrite E1 in Hf, Hm, Hr. cbn [fst snd] in H, Hf, Hm, Hr.
    destruct (H Hne) as (H1 & H2 & H3 & H4).
    rewrite H2, H3, H4, Hf, Hm, (Hr eq_refl). auto.
Qed.

Lemma allocation_refused :
  forall length w w' evs,
    allocation length w MAP_FAILED w' evs ->
    maps w' = maps w /\ fdtab w' = fdtab w /\ mem w' = mem w /\
    evs = [Ev (huge_request length) MAP_FAILED; Ev (anon_request length) MAP_FAILED].
Proof.
  intros length w w' evs [(_ & E & _)|(w1 & E1 & E2 & E3)].
  - congruence.
  - pose proof (os_mmap_frame length anon_prot w) as (Hf & Hm & Hr).
    pose proof (os_mmap_frame length anon_prot w1) as (Hf' & Hm' & Hr').
    rewrite E1 in Hf, Hm, Hr. rewrite E2 in Hf', Hm', Hr'.
    cbn [fst snd] in *.
    rewrite (Hr' eq_refl), Hf', Hm', (Hr eq_refl), Hf, Hm. auto.
Qed.

(** Every run of [synthesize]. *)
Lemma synthesize_run :
  forall fd length prot s,
    bound s -> 0 <= length < 2 ^ 63 ->
    exists out s' huge_mem walloc aevs rest,
      synthesize fd length prot s = (Returned out, s') /\
      trace s' = trace s ++ aevs ++ rest /\
      allocation length (world s) huge_mem walloc aevs /\
      bound s' /\
      ((huge_mem = MAP_FAILED /\ out = MAP_FAILED /\ rest = [] /\
        allocations s' = allocations s /\
        heap_records s' = heap_records s /\
        world s' = walloc)
       \/
       (huge_mem <> MAP_FAILED /\
        exists s1,
          world s1 = walloc /\
          allocations s1 = allocations s /\
          heap_records s1 = heap_records s /\
          populate fd huge_mem length prot s1 = (Returned out, s') /\
          populated fd huge_mem length prot s1 out s' rest)).
Proof.
  intros fd length prot s [Hm Hu] HL.
  unfold synthesize, bind at 1 2, fprintf_stderr, modify, call_real_mmap, through, syscall.
  cbn [real_mmap set_stderr world trace].
  pose proof Hm as Hm'. apply Z.eqb_neq in Hm'. rewrite Hm'.
  destruct (os_mmap length anon_prot (world s)) as [r1 w1] eqn:E1.
  destruct (r1 =? MAP_FAILED) eqn:F1.
  - apply Z.eqb_eq in F1. subst r1.
    unfold bind at 1 2, modify. cbn [real_mmap set_stderr set_trace set_world world trace].
    rewrite Hm'.
    destruct (os_mmap length anon_prot w1) as [r2 w2] eqn:E2.
    destruct (r2 =? MAP_FAILED) eqn:F2.
    + apply Z.eqb_eq in F2. subst r2.
      eexists MAP_FAILED, _, MAP_FAILED, w2,
        [Ev (huge_request length) MAP_FAILED; Ev (anon_request length) MAP_FAILED], [].
      split; [reflexivity|]. cbn.
      split; [rewrite <- app_assoc; reflexivity|].
      split; [right; exists w1; repeat split; assumption|].
      split; [split; assumption|].
      left. repeat split.
    + apply Z.eqb_neq in F2.
      match goal with |- context [populate fd r2 length prot ?s1] =>
        destruct (populate_run fd r2 length prot s1)
          as (out & s' & evs & Hrun & Htr & Sm & Su & Hcases);
        [exact Hu|exact HL|] end.
      exists out, s', r2, w2,
        [Ev (huge_request length) MAP_FAILED; Ev (anon_request length) r2], evs.
      split; [exact Hrun|].
      split; [rewrite Htr; cbn; rewrite <- !app_assoc; reflexivity|].
      split; [right; exists w1; repeat split; assumption|].
      split; [split; [rewrite Sm|rewrite Su]; assumption|].
      right. split; [exact F2|].
      eexists. split; [|split; [|split; [|split; [exact Hrun|exact Hcases]]]];
        reflexivity.
  - apply Z.eqb_neq in F1.
    unfold bind at 1, modify.
    match goal with |- context [populate fd r1 length prot ?s1] =>
      destruct (populate_run fd r1 length prot s1)
        as (out & s' & evs & Hrun & Htr & Sm & Su & Hcases);
      [exact Hu|exact HL|] end.
    exists out, s', r1, w1, [Ev (huge_request length) r1], evs.
    split; [exact Hrun|].
    split; [rewrite Htr; cbn; rewrite <- !app_assoc; reflexivity|].
    split; [left; repeat split; assumption|].
    split; [split; [rewrite Sm|rewrite Su]; assumption|].
    right. split; [exact F1|].
    eexists. split; [|split; [|split; [|split; [exact Hrun|exact Hcases]]]];
      reflexivity.
Qed.

(** ** The mapping entry point *)

Lemma os_fstat_range :
  forall fd w st_size,
    os_fstat fd w = Some st_size ->
    0 <= st_size < 2 ^ 63 /\
    exists f, lookup_fd fd (fdtab w) = Some f /\ file_size f = st_size.
Proof.
  intros fd w st_size. unfold os_fstat.
  destruct (lookup_fd fd (fdtab w)) as [f|]; [|discriminate].
  destruct (st_ok f); cbn [andb]; [|discriminate].
  destruct (file_size f <=? OFF_MAX) eqn:E; [|discriminate].
  intros H. inversion H. subst. apply Z.leb_le in E.
  split; [|exists f; split; reflexivity].
  unfold file_size, OFF_MAX in *. lia.
Qed.

Lemma activates_true :
  forall w fd length offset,
    activates w fd length offset = true ->
    0 <= fd /\ hugetlbfs_member w fd = true /\ offset = 0 /\
    os_fstat fd w = Some length /\ 0 <= length < 2 ^ 63.
Proof.
  intros w fd length offset. unfold activates.
  destruct (0 <=? fd) eqn:Efd; cbn [andb]; [|discriminate].
  destruct (hugetlbfs_member w fd); cbn [andb]; [|discriminate].
  destruct (os_fstat fd w) as [st_size|] eqn:Es; [|discriminate].
  intros H. apply andb_true_iff in H as [Ho El].
  apply Z.eqb_eq in Ho, El. apply Z.leb_le in Efd.
  destruct (os_fstat_range fd w st_size Es) as [Hr _].
  rewrite to_size_t_small in El by lia. subst. auto.
Qed.

(** A request that activates the engine is served by [synthesize]. *)
Lemma mmap_activated :
  forall st st0 addr length prot flags fd offset,
    init_functions st = (Returned tt, st0) ->
    activates (world st) fd length offset = true ->
    mmap addr length prot flags fd offset st
    = synthesize fd length prot (set_trace (trace st0 ++ queries_made fd) st0).
Proof.
  intros st st0 addr length prot flags fd offset Hinit Hact.
  destruct (init_functions_returns st st0 Hinit) as (_ & Hw & _).
  pose proof Hact as Hact'. apply activates_true in Hact' as (Hfd & Hmem & Ho & Hs & HL).
  unfold mmap. unfold bind at 1. rewrite Hinit.
  apply Z.leb_le in Hfd. rewrite Hfd.
  unfold is_hugetlbfs_fd, query, bind, ret. rewrite Hw.
  unfold hugetlbfs_member in Hmem.
  destruct (os_fstatfs fd (world st)) as [ty|]; [|discriminate].
  rewrite Hmem. cbn [world set_trace trace]. rewrite Hw, Hs.
  subst offset. rewrite Z.eqb_refl. rewrite to_size_t_small by lia.
  rewrite Z.eqb_refl. cbn [andb]. rewrite <- app_assoc. reflexivity.
Qed.

(** A request that does not activate the engine goes to the real mmap as it
    came. *)
Lemma mmap_not_activated :
  forall st st0 addr length prot flags fd offset,
    init_functions st = (Returned tt, st0) ->
    activates (world st) fd length offset = false ->
    exists r st' queries,
      mmap addr length prot flags fd offset st = (Returned r, st') /\
      trace st' = trace st0 ++ queries ++ [Ev (Mmap addr length prot flags fd offset) r] /\
      forallb (is_query fd) queries = true /\
      (r, world st') = os_mmap length prot (world st) /\
      allocations st' = allocations st /\
      heap_records st' = heap_records st.
Proof.
  intros st st0 addr length prot flags fd offset Hinit Hact.
  destruct (init_functions_returns st st0 Hinit) as ([Hm _] & Hw & Ha & Hh & _).
  apply Z.eqb_neq in Hm.
  assert (Hreal : forall s,
             real_mmap s = real_mmap st0 -> world s = world st ->
             exists r s',
               call_real_mmap addr length prot flags fd offset s = (Returned r, s') /\
               trace s' = trace s ++ [Ev (Mmap addr length prot flags fd offset) r] /\
               (r, world s') = os_mmap length prot (world st) /\
               allocations s' = allocations s /\
               heap_records s' = heap_records s).
  { intros s Hs Hws. unfold call_real_mmap, through, syscall.
    rewrite Hs, Hm, Hws.
    destruct (os_mmap length prot (world st)) as [r w].
    eexists r, _. repeat split. }
  unfold mmap. unfold bind at 1. rewrite Hinit.
  unfold activates in Hact.
  destruct (0 <=? fd) eqn:Efd.
  - unfold is_hugetlbfs_fd, query, bind at 1 2, ret. rewrite Hw.
    unfold hugetlbfs_member in Hact. cbn [andb] in Hact.
    assert (Hmiss :
              exists r st' queries,
                call_real_mmap addr length prot flags fd offset
                  (set_trace
                     (trace st0 ++
                      [Ev (Fstatfs fd)
                          match os_fstatfs fd (world st) with
                          | Some _ => 0 | None => -1 end]) st0)
                = (Returned r, st') /\
                trace st' = trace st0 ++ queries ++ [Ev (Mmap addr length prot flags fd offset) r] /\
                forallb (is_query fd) queries = true /\
                (r, world st') = os_mmap length prot (world st) /\
                allocations st' = allocations st /\
                heap_records st' = heap_records st).
    { match goal with |- context [call_real_mmap _ _ _ _ _ _ ?s] =>
        destruct (Hreal s) as (r & s' & Hrun & Htr & Hos & Hal & Hhe);
        [reflexivity|exact Hw|] end.
      exists r, s'. eexists [_]. split; [exact Hrun|].
      split; [rewrite Htr; cbn; rewrite <- app_assoc; reflexivity|].
      split; [cbn; rewrite Z.eqb_refl; reflexivity|].
      split; [exact Hos|]. cbn in Hal, Hhe. split; congruence. }
    destruct (os_fstatfs fd (world st)) as [ty|] eqn:Ety; [|exact Hmiss].
    destruct (ty =? HUGETLBFS_MAGIC) eqn:Emag; [|exact Hmiss].
    clear Hmiss. cbn [andb] in Hact. unfold bind at 1.
    cbn [world set_trace trace]. rewrite Hw.
    destruct (os_fstat fd (world st)) as [st_size|] eqn:Est.
    + rewrite Hact.
      match goal with |- context [call_real_mmap _ _ _ _ _ _ ?s] =>
        destruct (Hreal s) as (r & s' & Hrun & Htr & Hos & Hal & Hhe);
        [reflexivity|exact Hw|] end.
      exists r, s'. eexists [_; _]. split; [exact Hrun|].
      split; [rewrite Htr; cbn; rewrite <- !app_assoc; reflexivity|].
      split; [cbn; rewrite Z.eqb_refl; reflexivity|].
      split; [exact Hos|]. cbn in Hal, Hhe. split; congruence.
    + unfold bind, fprintf_stderr, modify.
      match goal with |- context [call_real_mmap _ _ _ _ _ _ ?s] =>
        destruct (Hreal s) as (r & s' & Hrun & Htr & Hos & Hal & Hhe);
        [reflexivity|exact Hw|] end.
      exists r, s'. eexists [_; _]. split; [exact Hrun|].
      split; [rewrite Htr; cbn; rewrite <- !app_assoc; reflexivity|].
      split; [cbn; rewrite Z.eqb_refl; reflexivity|].
      split; [exact Hos|]. cbn in Hal, Hhe. split; congruence.
  - unfold bind at 1, ret.
    destruct (Hreal st0) as (r & s' & Hrun & Htr & Hos & Hal & Hhe);
      [reflexivity|exact Hw|].
    exists r, s', []. split; [exact Hrun|].
    split; [exact Htr|]. split; [reflexivity|].
    split; [exact Hos|]. split; congruence.
Qed.

Lemma good_read_not_map :
  forall fd evs, forallb (good_read fd) evs = true -> existsb is_map evs = false.
Proof.
  intros fd evs. induction evs as [|e evs IH]; cbn; [reflexivity|].
  intros H. apply andb_true_iff in H as [He Hevs]. rewrite (IH Hevs).
  rewrite orb_false_r. unfold good_read in He. unfold is_map.
  destruct (ev_call e); try discriminate. reflexivity.
Qed.

Lemma populated_no_map :
  forall fd huge_mem length prot s out s' evs,
    populated fd huge_mem length prot s out s' evs -> existsb is_map evs = false.
Proof.
  intros fd huge_mem length prot s out s' evs
    [(_ & _ & _ & reads & tail & E & Hg & Ht)
    |(_ & _ & _ & r & [(x & _ & E)|(reads & buf & count & n & _ & Hg & E)] & _)];
    subst evs; cbn; rewrite ?existsb_app, ?(good_read_not_map fd reads Hg); cbn.
  - destruct Ht as [(_ & Ht & _)|(_ & r & Ht & _)]; subst tail; reflexivity.
  - reflexivity.
  - reflexivity.
Qed.

(** A run of [populate] recorded a failed seek or read exactly when it
    returned MAP_FAILED. *)
Lemma populated_failed_step :
  forall fd huge_mem length prot s out s' evs,
    populated fd huge_mem length prot s out s' evs ->
    huge_mem <> MAP_FAILED ->
    (existsb failed_step evs = true <-> out = MAP_FAILED).
Proof.
  intros fd huge_mem length prot s out s' evs
    [(Ho & _ & _ & reads & tail & E & Hg & Ht)
    |(Ho & _ & _ & r & [(x & Hx & E)|(reads & buf & count & n & Hn & Hg & E)] & _)] Hne;
    subst evs out; cbn; rewrite ?existsb_app, ?(good_read_not_failed fd reads Hg); cbn.
  - destruct Ht as [(_ & Ht & _)|(_ & r & Ht & _)]; subst tail; cbn;
      split; intros H; try discriminate; contradiction.
  - apply Z.eqb_neq in Hx. rewrite Hx. cbn. split; reflexivity.
  - apply Z.leb_le in Hn. unfold failed_step. cbn. rewrite Hn. split; reflexivity.
Qed.

Lemma allocation_functional :
  forall length w h1 w1 e1 h2 w2 e2,
    allocation length w h1 w1 e1 -> allocation length w h2 w2 e2 ->
    h1 = h2 /\ w1 = w2 /\ e1 = e2.
Proof.
  intros length w h1 w1 e1 h2 w2 e2
    [(A1 & N1 & E1)|(u1 & A1 & B1 & E1)] [(A2 & N2 & E2)|(u2 & A2 & B2 & E2)];
    subst e1 e2.
  - rewrite A1 in A2. inversion A2. subst. auto.
  - rewrite A1 in A2. inversion A2. subst. contradiction.
  - rewrite A1 in A2. inversion A2. subst. contradiction.
  - rewrite A1 in A2. inversion A2. subst. rewrite B1 in B2. inversion B2. auto.
Qed.

Lemma allocation_events :
  forall length w huge_mem w' evs,
    allocation length w huge_mem w' evs ->
    existsb failed_step evs = false /\
    (forall e, In e evs ->
               e = Ev (huge_request length) (ev_ret e) \/
               e = Ev (anon_request length) (ev_ret e)) /\
    (forall h, h <> MAP_FAILED ->
               In (Ev (huge_request length) h) evs \/ In (Ev (anon_request length) h) evs ->
               h = huge_mem).
Proof.
  intros length w huge_mem w' evs [(_ & _ & E)|(w1 & _ & _ & E)]; subst evs;
    (split; [reflexivity|]); split.
  - intros e [H|[]]. subst e. left. reflexivity.
  - intros h Hh [[H|[]]|[H|[]]]; inversion H; auto.
  - intros e [H|[H|[]]]; subst e; [left|right]; reflexivity.
  - intros h Hh [[H|[H|[]]]|[H|[H|[]]]]; inversion H; auto; congruence.
Qed.

(** Every run of the entry point on a request that activates the engine. *)
Lemma mmap_activated_run :
  forall st st0 addr length prot flags fd offset,
    init_functions st = (Returned tt, st0) ->
    activates (world st) fd length offset = true ->
    exists out st' huge_mem walloc aevs rest,
      mmap addr length prot flags fd offset st = (Returned out, st') /\
      trace st' = trace st0 ++ queries_made fd ++ aevs ++ rest /\
      allocation length (world st) huge_mem walloc aevs /\
      bound st' /\
      ((huge_mem = MAP_FAILED /\ out = MAP_FAILED /\ rest = [] /\
        allocations st' = allocations st /\
        heap_records st' = heap_records st /\
        world st' = walloc)
       \/
       (huge_mem <> MAP_FAILED /\
        exists s1,
          world s1 = walloc /\
          allocations s1 = allocations st /\
          heap_records s1 = heap_records st /\
          populate fd huge_mem length prot s1 = (Returned out, st') /\
          populated fd huge_mem length prot s1 out st' rest)).
Proof.
  intros st st0 addr length prot flags fd offset Hinit Hact.
  rewrite (mmap_activated st st0 addr length prot flags fd offset Hinit Hact).
  destruct (init_functions_returns st st0 Hinit) as (Hb & Hw & Ha & Hh & _).
  destruct (activates_true _ _ _ _ Hact) as (_ & _ & _ & _ & HL).
  destruct (synthesize_run fd length prot
              (set_trace (trace st0 ++ queries_made fd) st0) Hb HL)
    as (out & st' & huge_mem & walloc & aevs & rest & Hrun & Htr & Hal & Hb' & Hcases).
  cbn [trace world set_trace allocations heap_records] in Htr, Hal, Hcases.
  rewrite Hw in Hal. rewrite Ha, Hh in Hcases.
  exists out, st', huge_mem, walloc, aevs, rest.
  split; [exact Hrun|]. split; [rewrite Htr, <- app_assoc; reflexivity|].
  split; [exact Hal|]. split; [exact Hb'|exact Hcases].
Qed.

(** ** The claims about the mapping entry point *)

(** C3. A request for which some condition of activation fails (a negative
    descriptor, a descriptor the classifier does not place on hugetlbfs, also
    when its query fails, a failing size query, an offset other than 0, a
    length other than the file's size) is handed to the real mmap with the
    caller's six arguments: that is the only mapping call made, after at most
    the two queries about the descriptor, its result and its effect on the
    world are the result of the entry point, and the registry is as before. *)
Theorem mmap_delegates_unless_whole_file :
  forall st st0 addr length prot flags fd offset,
    init_functions st = (Returned tt, st0) ->
    (fd < 0 \/
     hugetlbfs_member (world st) fd = false \/
     os_fstat fd (world st) = None \/
     offset <> 0 \/
     (exists st_size, os_fstat fd (world st) = Some st_size /\
                      length <> to_size_t st_size)) ->
    exists r st' queries,
      mmap addr length prot flags fd offset st = (Returned r, st') /\
      trace st' = trace st0 ++ queries ++ [Ev (Mmap addr length prot flags fd offset) r] /\
      forallb (is_query fd) queries = true /\
      (r, world st') = os_mmap length prot (world st) /\
      allocations st' = allocations st /\
      heap_records st' = heap_records st.
Proof.
  intros st st0 addr length prot flags fd offset Hinit Hcond.
  apply mmap_not_activated; [exact Hinit|].
  unfold activates.
  destruct Hcond as [H|[H|[H|[H|(st_size & H & Hne)]]]].
  - apply Z.leb_gt in H. rewrite H. reflexivity.
  - rewrite H, andb_false_r. reflexivity.
  - rewrite H. apply andb_false_r.
  - apply Z.eqb_neq in H. rewrite H.
    destruct (os_fstat fd (world st)); apply andb_false_r.
  - apply Z.eqb_neq in Hne. rewrite H, Hne. rewrite !andb_false_r. reflexivity.
Qed.

(** C5. On a request that activates the engine, when the real mmap refuses the
    huge-page request, the next call is the plain request: anonymous and
    private, same length, read and write, no address hint. When that is
    refused too the entry point returns MAP_FAILED (it returns: the process
    neither exits nor crashes), nothing further is called and nothing is
    recorded. *)
Theorem mmap_falls_back_to_plain_anonymous :
  forall st st0 addr length prot flags fd offset w1,
    init_functions st = (Returned tt, st0) ->
    activates (world st) fd length offset = true ->
    os_mmap length anon_prot (world st) = (MAP_FAILED, w1) ->
    exists out st' rest,
      mmap addr length prot flags fd offset st = (Returned out, st') /\
      trace st' = trace st0 ++ queries_made fd
                  ++ [Ev (Mmap nullptr length (Z.lor PROT_READ PROT_WRITE)
                               (Z.lor (Z.lor MAP_PRIVATE MAP_ANONYMOUS) MAP_HUGETLB)
                               (-1) 0) MAP_FAILED;
                      Ev (Mmap nullptr length (Z.lor PROT_READ PROT_WRITE)
                               (Z.lor MAP_PRIVATE MAP_ANONYMOUS) (-1) 0)
                         (fst (os_mmap length anon_prot w1))]
                  ++ rest /\
      (fst (os_mmap length anon_prot w1) = MAP_FAILED ->
       out = MAP_FAILED /\ rest = [] /\
       allocations st' = allocations st /\
       heap_records st' = heap_records st).
Proof.
  intros st st0 addr length prot flags fd offset w1 Hinit Hact Hos.
  destruct (mmap_activated_run st st0 addr length prot flags fd offset Hinit Hact)
    as (out & st' & huge_mem & walloc & aevs & rest & Hrun & Htr & Hal & _ & Hcases).
  assert (Haevs : huge_mem = fst (os_mmap length anon_prot w1) /\
                  aevs = [Ev (huge_request length) MAP_FAILED;
                          Ev (anon_request length) huge_mem]).
  { destruct Hal as [(A & N & _)|(u & A & B & E)].
    - rewrite Hos in A. inversion A. subst. contradiction.
    - rewrite Hos in A. inversion A. subst u. rewrite B. auto. }
  destruct Haevs as [Hh Ha]. subst aevs.
  exists out, st', rest. split; [exact Hrun|].
  split; [rewrite Htr, <- Hh; reflexivity|].
  intros Hf. rewrite <- Hh in Hf.
  destruct Hcases as [(_ & Ho & Hr & Hal' & Hhe & _)|(Hne & _)]; [auto|contradiction].
Qed.

(** C9. Whether the engine is activated is decided by the descriptor, the
    offset and the length alone ([activates] takes nothing else). For a
    whole-file request on hugetlbfs, whatever the address hint, the protection
    and the flags of the caller (shared or private), the mapping calls made
    are the same: the huge-page request and, if it is refused, the plain one,
    both anonymous and private, without address hint, readable and writable,
    for the requested length; no other mapping call is made, so none carries
    the caller's hint, protection or flags; and the region granted is
    readable and writable when the copy starts. *)
Theorem activation_ignores_hint_prot_flags :
  forall st st0 length fd offset,
    init_functions st = (Returned tt, st0) ->
    activates (world st) fd length offset = true ->
    exists huge_mem walloc aevs,
      allocation length (world st) huge_mem walloc aevs /\
      (huge_mem <> MAP_FAILED ->
       maps walloc = mkRegion huge_mem length (Z.lor PROT_READ PROT_WRITE)
                     :: maps (world st)) /\
      forall addr prot flags,
      exists out st' rest,
        mmap addr length prot flags fd offset st = (Returned out, st') /\
        trace st' = trace st0 ++ queries_made fd ++ aevs ++ rest /\
        existsb is_map rest = false.
Proof.
  intros st st0 length fd offset Hinit Hact.
  destruct (mmap_activated_run st st0 0 length 0 0 fd offset Hinit Hact)
    as (_ & _ & huge_mem & walloc & aevs & _ & _ & _ & Hal & _ & _).
  exists huge_mem, walloc, aevs. split; [exact Hal|].
  split; [intros Hne; apply (allocation_granted _ _ _ _ _ Hal Hne)|].
  intros addr prot flags.
  destruct (mmap_activated_run st st0 addr length prot flags fd offset Hinit Hact)
    as (out & st' & h & w & a & rest & Hrun & Htr & Hal' & _ & Hcases).
  destruct (allocation_functional _ _ _ _ _ _ _ _ Hal Hal') as (-> & -> & ->).
  exists out, st', rest. split; [exact Hrun|]. split; [exact Htr|].
  destruct Hcases as [(_ & _ & -> & _)|(_ & s1 & _ & _ & _ & _ & Hp)];
    [reflexivity|apply (populated_no_map _ _ _ _ _ _ _ _ Hp)].
Qed.

Lemma not_in_without_map :
  forall e evs, is_map e = true -> existsb is_map evs = false -> ~ In e evs.
Proof.
  intros e evs He Hevs Hin.
  assert (existsb is_map evs = true) by (apply existsb_exists; eauto).
  congruence.
Qed.

(** The one mapping request that was granted in a run is the allocation's. *)
Lemma granted_is_allocated :
  forall length w huge_mem w' aevs fd rest h,
    allocation length w huge_mem w' aevs ->
    existsb is_map rest = false ->
    h <> MAP_FAILED ->
    In (Ev (huge_request length) h) (queries_made fd ++ aevs ++ rest) \/
    In (Ev (anon_request length) h) (queries_made fd ++ aevs ++ rest) ->
    h = huge_mem.
Proof.
  intros length w huge_mem w' aevs fd rest h Hal Hrest Hh Hin.
  destruct (allocation_events _ _ _ _ _ Hal) as (_ & _ & Hsel).
  apply (Hsel h Hh).
  destruct Hin as [Hin|Hin]; [left|right];
    apply in_app_or in Hin as [Hin|Hin];
    try (cbn in Hin; destruct Hin as [Hin|[Hin|[]]]; discriminate);
    apply in_app_or in Hin as [Hin|Hin]; try exact Hin;
    exfalso; revert Hin; apply not_in_without_map; auto.
Qed.

(** C4. On a request that activates the engine, once a seek has failed or a
    read has delivered nothing (an error or a premature end of file), the
    entry point returns MAP_FAILED, the registry is as it was before the call,
    and the last call made is the real munmap of the region that had been
    granted, over the requested length; when that call succeeds the region is
    no longer mapped. *)
Theorem failed_copy_releases_region :
  forall st st0 addr length prot flags fd offset out st' evs,
    init_functions st = (Returned tt, st0) ->
    activates (world st) fd length offset = true ->
    mmap addr length prot flags fd offset st = (out, st') ->
    trace st' = trace st0 ++ evs ->
    existsb failed_step evs = true ->
    out = Returned MAP_FAILED /\
    allocations st' = allocations st /\
    heap_records st' = heap_records st /\
    exists huge_mem pre r,
      huge_mem <> MAP_FAILED /\
      evs = pre ++ [Ev (Munmap huge_mem length) r] /\
      (In (Ev (huge_request length) huge_mem) pre \/
       In (Ev (anon_request length) huge_mem) pre) /\
      (r = 0 -> Forall (fun g => base g <> huge_mem) (maps (world st'))).
Proof.
  intros st st0 addr length prot flags fd offset out st' evs Hinit Hact Hm Htr Hfail.
  destruct (mmap_activated_run st st0 addr length prot flags fd offset Hinit Hact)
    as (out0 & st0' & huge_mem & walloc & aevs & rest & Hrun & Htr0 & Hal & _ & Hcases).
  rewrite Hrun in Hm. inversion Hm. subst out st0'. clear Hm.
  rewrite Htr0 in Htr. apply app_inv_head in Htr. subst evs.
  destruct (allocation_events _ _ _ _ _ Hal) as (Hquiet & _ & _).
  rewrite !existsb_app, Hquiet in Hfail. cbn in Hfail.
  destruct Hcases as [(_ & _ & -> & _)|(Hne & s1 & _ & Ha & Hh & _ & Hp)];
    [discriminate|].
  pose proof (proj1 (populated_failed_step _ _ _ _ _ _ _ _ Hp Hne) Hfail) as Hout.
  subst out0.
  destruct Hp as [(Ho & _)|(_ & Ha' & Hh' & r & Hshape & Hrel)]; [congruence|].
  split; [reflexivity|]. split; [congruence|]. split; [congruence|].
  assert (Hgr : forall tl,
             In (Ev (huge_request length) huge_mem) (queries_made fd ++ aevs ++ tl) \/
             In (Ev (anon_request length) huge_mem) (queries_made fd ++ aevs ++ tl)).
  { intros tl. destruct Hal as [(_ & _ & ->)|(w1 & _ & _ & ->)]; [left|right];
      apply in_or_app; right; apply in_or_app; left; cbn; auto. }
  destruct Hshape as [(x & Hx & ->)|(reads & buf & count & n & Hn & Hg & ->)].
  - exists huge_mem, (queries_made fd ++ aevs ++ [Ev (Lseek fd 0 SEEK_SET) x]), r.
    split; [exact Hne|]. split; [repeat (rewrite <- app_assoc; cbn [app]); reflexivity|].
    split; [apply Hgr|exact Hrel].
  - exists huge_mem,
      (queries_made fd ++ aevs
       ++ Ev (Lseek fd 0 SEEK_SET) 0 :: reads ++ [Ev (Read fd buf count) n]), r.
    split; [exact Hne|].
    split; [repeat (rewrite <- app_assoc; cbn [app]); reflexivity|].
    split; [apply Hgr|exact Hrel].
Qed.

(** C6. On a request that activates the engine, once a region has been
    granted and no seek or read has failed (the whole length was copied), the
    entry point returns the region's address and the registry has a new
    record for it with the requested length, whatever the protection change
    answered. When the requested protection excludes writing, the last call
    is mprotect on the region, over the requested length, with exactly the
    requested protection, and when it succeeds the region has that
    protection. *)
Theorem protection_narrowed_after_copy :
  forall st st0 addr length prot flags fd offset out st' evs huge_mem,
    init_functions st = (Returned tt, st0) ->
    activates (world st) fd length offset = true ->
    mmap addr length prot flags fd offset st = (out, st') ->
    trace st' = trace st0 ++ evs ->
    huge_mem <> MAP_FAILED ->
    In (Ev (huge_request length) huge_mem) evs \/
    In (Ev (anon_request length) huge_mem) evs ->
    existsb failed_step evs = false ->
    out = Returned huge_mem /\
    allocations st' = mkAlloc huge_mem length :: allocations st /\
    (Z.land prot PROT_WRITE = 0 ->
     exists pre r,
       evs = pre ++ [Ev (Mprotect huge_mem length prot) r] /\
       (r = 0 -> In (mkRegion huge_mem length prot) (maps (world st')))).
Proof.
  intros st st0 addr length prot flags fd offset out st' evs h
    Hinit Hact Hm Htr Hh Hin Hquiet.
  destruct (mmap_activated_run st st0 addr length prot flags fd offset Hinit Hact)
    as (out0 & st0' & huge_mem & walloc & aevs & rest & Hrun & Htr0 & Hal & _ & Hcases).
  rewrite Hrun in Hm. inversion Hm. subst out st0'. clear Hm.
  rewrite Htr0 in Htr. apply app_inv_head in Htr. subst evs.
  assert (Hnomap : existsb is_map rest = false).
  { destruct Hcases as [(_ & _ & -> & _)|(_ & s1 & _ & _ & _ & _ & Hp)];
      [reflexivity|apply (populated_no_map _ _ _ _ _ _ _ _ Hp)]. }
  pose proof (granted_is_allocated _ _ _ _ _ _ _ _ Hal Hnomap Hh Hin) as ->.
  destruct Hcases as [(Hf & _)|(_ & s1 & Hw & Ha & _ & _ & Hp)]; [contradiction|].
  rewrite !existsb_app in Hquiet. apply orb_false_iff in Hquiet as [_ Hquiet].
  apply orb_false_iff in Hquiet as [_ Hquiet].
  destruct (allocation_granted _ _ _ _ _ Hal Hh) as (_ & Hmaps & _).
  pose proof (populated_failed_step _ _ _ _ _ _ _ _ Hp Hh) as Hiff.
  destruct Hp as [(-> & Ha' & _ & reads & tail & -> & Hg & Ht)|(Ho & _)];
    [|apply Hiff in Ho; congruence].
  split; [reflexivity|]. split; [congruence|].
  intros Hw0.
  destruct Ht as [(Hw1 & _)|(_ & r & -> & Hr)]; [contradiction|].
  exists (queries_made fd ++ aevs ++ Ev (Lseek fd 0 SEEK_SET) 0 :: reads), r.
  split; [repeat (rewrite <- app_assoc; cbn [app]); reflexivity|].
  intros H0. rewrite (Hr H0), Hw, Hmaps. cbn. left.
  unfold reprotect. cbn. rewrite Z.eqb_refl. reflexivity.
Qed.

(** ** What the copy leaves in memory *)

Lemma lookup_update_fd :
  forall fd f f' t,
    lookup_fd fd t = Some f -> lookup_fd fd (update_fd fd f' t) = Some f'.
Proof.
  intros fd f f' t. induction t as [|[k g] t IH]; cbn; [discriminate|].
  destruct (k =? fd) eqn:E; cbn; rewrite E; auto.
Qed.

Lemma firstn_plus :
  forall (A : Type) (t n : nat) (l : list A),
    firstn (t + n) l = firstn t l ++ firstn n (skipn t l).
Proof.
  intros A t. induction t as [|t IH]; intros n l; [reflexivity|].
  destruct l as [|a l]; cbn.
  - rewrite firstn_nil. reflexivity.
  - rewrite IH. reflexivity.
Qed.

Lemma map_nth_seq :
  forall (bs : list Byte.byte) (t : nat),
    map (fun i => nth (i - t) bs Byte.x00) (seq t (List.length bs)) = bs.
Proof.
  induction bs as [|b bs IH]; intros t; [reflexivity|].
  cbn [List.length seq map]. rewrite Nat.sub_diag. cbn [nth]. f_equal.
  rewrite <- (IH (S t)) at 2. apply map_ext_in.
  intros i Hi. apply in_seq in Hi.
  replace (i - t)%nat with (S (i - S t)) by lia. reflexivity.
Qed.

(** Bytes stored right after the first [t] bytes of a buffer extend what is
    loaded from it. *)
Lemma load_store_append :
  forall m dest (t : nat) bs,
    load_bytes (store_bytes m (dest + Z.of_nat t) bs) dest (t + List.length bs)
    = load_bytes m dest t ++ bs.
Proof.
  intros m dest t bs. unfold load_bytes.
  rewrite seq_app, map_app. f_equal.
  - apply map_ext_in. intros i Hi. apply in_seq in Hi. unfold store_bytes.
    replace (dest + Z.of_nat t <=? dest + Z.of_nat i) with false; [reflexivity|].
    symmetry. apply Z.leb_gt. lia.
  - cbn [Nat.add]. rewrite <- (map_nth_seq bs t) at 2. apply map_ext_in.
    intros i Hi. apply in_seq in Hi. unfold store_bytes.
    replace (dest + Z.of_nat t <=? dest + Z.of_nat i) with true
      by (symmetry; apply Z.leb_le; lia).
    replace (dest + Z.of_nat i <? dest + Z.of_nat t + Z.of_nat (List.length bs))
      with true by (symmetry; apply Z.ltb_lt; lia).
    cbn [andb]. f_equal. lia.
Qed.

(** A read that delivers [n > 0] bytes from a descriptor whose cursor is at
    [pos f]: the bytes are the file's next [n], they land at [buf], the
    cursor advances by [n]. *)
Lemma os_read_delivers :
  forall fd buf count w f n w',
    lookup_fd fd (fdtab w) = Some f ->
    0 <= pos f <= file_size f ->
    os_read fd buf count w = (n, w') ->
    0 < n ->
    n <= count /\ n <= file_size f - pos f /\
    lookup_fd fd (fdtab w')
    = Some (mkFile (f_type f) (st_ok f) (data f) (pos f + n)) /\
    mem w' = store_bytes (mem w) buf
               (firstn (Z.to_nat n) (skipn (Z.to_nat (pos f)) (data f))).
Proof.
  intros fd buf count w f n w' Hf Hpos. unfold os_read.
  pose proof (next_answer_frame w) as (_ & Hfd & Hmem & _).
  destruct (next_answer w) as [c w1]. cbn [snd] in Hfd, Hmem.
  rewrite Hfd, Hf.
  destruct (c <? 0) eqn:Ec; intros H Hn; inversion H; subst; clear H; [lia|].
  apply Z.ltb_ge in Ec. cbn.
  split; [lia|]. split; [lia|].
  split; [apply (lookup_update_fd fd f); exact Hf|].
  rewrite Hmem. reflexivity.
Qed.

Lemma unmap_and_stop_not_some :
  forall d dest length (t : Z) s s',
    (fprintf_stderr d ;;; call_real_munmap dest length ;;; ret (@None Z)) s
    <> (Returned (Some t), s').
Proof.
  intros d dest length t s s'.
  unfold bind, fprintf_stderr, modify, call_real_munmap, through, syscall, ret. cbn.
  destruct (real_munmap s =? nullptr); [discriminate|].
  destruct (os_munmap dest (world s)); discriminate.
Qed.

(** The copy loop, when it ends, leaves the file's bytes in the region. *)
Lemma copy_loop_copies :
  forall fd dest length fuel total_read s f t s',
    lookup_fd fd (fdtab (world s)) = Some f ->
    pos f = total_read ->
    file_size f = length ->
    0 <= total_read <= length -> length < 2 ^ 63 ->
    load_bytes (mem (world s)) dest (Z.to_nat total_read)
    = firstn (Z.to_nat total_read) (data f) ->
    copy_loop fuel fd dest length total_read s = (Returned (Some t), s') ->
    load_bytes (mem (world s')) dest (Z.to_nat length) = data f.
Proof.
  intros fd dest length fuel.
  assert (Hdone : forall total_read s f t s',
             file_size f = length -> 0 <= total_read <= length ->
             load_bytes (mem (world s)) dest (Z.to_nat total_read)
             = firstn (Z.to_nat total_read) (data f) ->
             (total_read <? length) = false ->
             ret (Some total_read) s = (Returned (Some t), s') ->
             load_bytes (mem (world s')) dest (Z.to_nat length) = data f).
  { intros total_read s f t s' Hsize Ht Hinv Elt H.
    apply Z.ltb_ge in Elt. assert (E : total_read = length) by lia.
    inversion H. subst s'. rewrite <- E, Hinv.
    apply firstn_all2. unfold file_size in Hsize. lia. }
  induction fuel as [|fuel IH]; intros total_read s f t s' Hf Hpos Hsize Ht HL Hinv;
    rewrite copy_loop_eq; rewrite (to_ssize_t_small length) by lia;
    destruct (total_read <? length) eqn:Elt;
    try discriminate;
    try (apply (Hdone total_read s f t s' Hsize Ht Hinv Elt)).
  apply Z.ltb_lt in Elt.
  pose proof (to_read_range length total_read (conj (proj1 Ht) Elt) HL) as Hr.
  cbn zeta in Hr |- *.
  set (to_read := if to_size_t (length - total_read) <? chunk_size
                  then to_size_t (length - total_read) else chunk_size) in *.
  unfold bind at 1. unfold read, syscall.
  destruct (os_read fd (dest + total_read) to_read (world s)) as [n w1] eqn:Eread.
  destruct (n <=? 0) eqn:En.
  - intros H. exfalso. revert H. destruct (n <? 0); apply unmap_and_stop_not_some.
  - apply Z.leb_gt in En.
    destruct (os_read_delivers fd (dest + total_read) to_read (world s) f n w1 Hf
                ltac:(lia) Eread En) as (Hn1 & Hn2 & Hf' & Hmem).
    rewrite (to_ssize_t_small (total_read + n)) by lia.
    unfold bind at 1.
    assert (Hlog : exists s2,
               (if Z.rem (total_read + n) (1024 * 1024 * 1024) =? 0
                then fprintf_stderr (InfoProgress (total_read + n) length)
                else ret tt)
                 (set_trace (trace s ++ [Ev (Read fd (dest + total_read) to_read) n])
                    (set_world w1 s)) = (Returned tt, s2) /\
               world s2 = w1).
    { destruct (Z.rem (total_read + n) (1024 * 1024 * 1024) =? 0);
        eexists; split; reflexivity. }
    destruct Hlog as (s2 & -> & Hw).
    apply (IH (total_read + n) s2
              (mkFile (f_type f) (st_ok f) (data f) (pos f + n))).
    + rewrite Hw. exact Hf'.
    + cbn. lia.
    + exact Hsize.
    + lia.
    + exact HL.
    + rewrite Hw, Hmem. cbn [data].
      replace (Z.to_nat (total_read + n)) with (Z.to_nat total_read + Z.to_nat n)%nat
        by lia.
      rewrite firstn_plus, <- Hinv. rewrite Hpos.
      set (bs := firstn (Z.to_nat n) (skipn (Z.to_nat total_read) (data f))).
      assert (Hlen : List.length bs = Z.to_nat n).
      { unfold bs. rewrite length_firstn, length_skipn.
        unfold file_size in *. lia. }
      rewrite <- Hlen.
      replace (dest + total_read) with (dest + Z.of_nat (Z.to_nat total_read)) by lia.
      apply load_store_append.
Qed.

Lemma os_lseek_rewinds :
  forall fd w f w1,
    lookup_fd fd (fdtab w) = Some f ->
    os_lseek fd 0 SEEK_SET w = (0, w1) ->
    lookup_fd fd (fdtab w1) = Some (mkFile (f_type f) (st_ok f) (data f) 0) /\
    mem w1 = mem w.
Proof.
  intros fd w f w1 Hf. unfold os_lseek.
  pose proof (next_answer_frame w) as (_ & Hfd & Hmem & _).
  destruct (next_answer w) as [c w0]. cbn [snd] in Hfd, Hmem.
  rewrite Hfd, Hf.
  destruct ((c =? 0) && (SEEK_SET =? SEEK_SET) && (0 <=? 0));
    intros H; inversion H; subst; clear H.
  cbn. split; [apply (lookup_update_fd fd f); exact Hf|exact Hmem].
Qed.

Lemma os_mprotect_mem :
  forall addr prot w, mem (snd (os_mprotect addr prot w)) = mem w.
Proof.
  intros addr prot w. unfold os_mprotect.
  pose proof (next_answer_frame w) as (_ & _ & Hmem & _).
  destruct (next_answer w) as [c w1]. cbn [snd] in Hmem.
  destruct (c =? 0); cbn; exact Hmem.
Qed.

(** A run of [populate] that returns the region leaves the file's bytes in it. *)
Lemma populate_copies :
  forall fd huge_mem length prot s f out s',
    lookup_fd fd (fdtab (world s)) = Some f ->
    file_size f = length -> length < 2 ^ 63 ->
    populate fd huge_mem length prot s = (Returned out, s') ->
    out <> MAP_FAILED ->
    load_bytes (mem (world s')) huge_mem (Z.to_nat length) = data f.
Proof.
  intros fd huge_mem length prot s f out s' Hf Hsize HL.
  assert (H0L : 0 <= length) by (unfold file_size in Hsize; lia).
  unfold populate. unfold bind at 1. unfold lseek, syscall.
  destruct (os_lseek fd 0 SEEK_SET (world s)) as [r w1] eqn:Eseek.
  destruct (r =? 0) eqn:Er; cbn [negb].
  - apply Z.eqb_eq in Er. subst r.
    destruct (os_lseek_rewinds fd (world s) f w1 Hf Eseek) as [Hf1 Hmem1].
    rewrite (to_ssize_t_small length) by lia.
    unfold bind at 1.
    match goal with |- context [copy_loop ?n fd huge_mem length 0 ?s1] =>
      destruct (copy_loop n fd huge_mem length 0 s1) as [[[t|]| | |] s2] eqn:Eloop end;
      try discriminate.
    + assert (Hbytes : load_bytes (mem (world s2)) huge_mem (Z.to_nat length) = data f).
      { refine (copy_loop_copies fd huge_mem length _ 0 _
                  (mkFile (f_type f) (st_ok f) (data f) 0) t s2 _ _ _ _ _ _ Eloop);
          try exact Hf1; try exact Hsize; try exact HL; try reflexivity; lia. }
      unfold bind, fprintf_stderr, modify, mprotect, syscall, track_allocation, ret.
      cbn.
      destruct (Z.land prot PROT_WRITE =? 0); cbn.
      * pose proof (os_mprotect_mem huge_mem prot (world s2)) as Hm.
        destruct (os_mprotect huge_mem prot (world s2)) as [r w3]. cbn [snd] in Hm.
        destruct (r =? 0); cbn; intros H; inversion H; subst; cbn;
          rewrite Hm; intros _; exact Hbytes.
      * intros H; inversion H; subst; cbn. intros _; exact Hbytes.
    + unfold ret. intros H. inversion H. congruence.
  - unfold bind, fprintf_stderr, modify, call_real_munmap, through, syscall, ret. cbn.
    destruct (real_munmap s =? nullptr); [discriminate|].
    destruct (os_munmap huge_mem w1). intros H. inversion H. congruence.
Qed.

(** A read that delivers [n > 0] bytes, however few, is progress: the loop
    goes on from [total_read + n]. *)
Lemma copy_loop_short_read :
  forall fuel fd dest length total_read s n w1,
    0 <= total_read < length -> length < 2 ^ 63 ->
    os_read fd (dest + total_read) (Z.min (length - total_read) chunk_size) (world s)
    = (n, w1) ->
    0 < n ->
    exists s1,
      copy_loop (S fuel) fd dest length total_read s
      = copy_loop fuel fd dest length (total_read + n) s1 /\
      world s1 = w1 /\
      trace s1 = trace s ++ [Ev (Read fd (dest + total_read)
                                      (Z.min (length - total_read) chunk_size)) n] /\
      same_library s s1.
Proof.
  intros fuel fd dest length total_read s n w1 Ht HL Hread Hn.
  rewrite copy_loop_eq. rewrite (to_ssize_t_small length) by lia.
  destruct (Z.ltb_spec total_read length) as [_|]; [|lia].
  rewrite to_size_t_small by lia.
  replace (if length - total_read <? chunk_size then length - total_read else chunk_size)
    with (Z.min (length - total_read) chunk_size)
    by (destruct (Z.ltb_spec (length - total_read) chunk_size); lia).
  cbn zeta. unfold bind at 1. unfold read, syscall. rewrite Hread.
  pose proof (os_read_at_most fd (dest + total_read)
                (Z.min (length - total_read) chunk_size) (world s)) as Hmost.
  rewrite Hread in Hmost. cbn [fst] in Hmost.
  assert (0 <= Z.min (length - total_read) chunk_size) by (unfold chunk_size; lia).
  destruct (Z.leb_spec n 0) as [|_]; [lia|].
  rewrite (to_ssize_t_small (total_read + n)) by lia.
  unfold bind at 1.
  destruct (Z.rem (total_read + n) (1024 * 1024 * 1024) =? 0);
    eexists; (split; [reflexivity|]); repeat split.
Qed.

(** C1. When the entry point returns a region for a request that activates the
    engine (offset 0, length equal to the size of the file behind the
    descriptor, on hugetlbfs), the bytes of the region over the requested
    length are the file's bytes. And in the copy loop a read that delivers
    a positive number of bytes, even fewer than requested, does not fail the
    operation: the loop goes on with the count so far increased by what was
    delivered, and asks again for what remains. *)
Theorem whole_file_mapping_holds_file_bytes :
  (forall st st0 addr length prot flags fd offset f a st',
      init_functions st = (Returned tt, st0) ->
      activates (world st) fd length offset = true ->
      lookup_fd fd (fdtab (world st)) = Some f ->
      mmap addr length prot flags fd offset st = (Returned a, st') ->
      a <> MAP_FAILED ->
      length = Z.of_nat (List.length (data f)) /\
      load_bytes (mem (world st')) a (List.length (data f)) = data f) /\
  (forall fuel fd dest length total_read s n w1,
      0 <= total_read < length -> length < 2 ^ 63 ->
      os_read fd (dest + total_read) (Z.min (length - total_read) chunk_size) (world s)
      = (n, w1) ->
      0 < n ->
      exists s1,
        copy_loop (S fuel) fd dest length total_read s
        = copy_loop fuel fd dest length (total_read + n) s1 /\
        world s1 = w1 /\
        trace s1 = trace s ++ [Ev (Read fd (dest + total_read)
                                        (Z.min (length - total_read) chunk_size)) n] /\
        same_library s s1).
Proof.
  split; [|apply copy_loop_short_read].
  intros st st0 addr length prot flags fd offset f a st' Hinit Hact Hf Hm Ha.
  destruct (activates_true _ _ _ _ Hact) as (_ & _ & _ & Hstat & HL).
  destruct (os_fstat_range _ _ _ Hstat) as (_ & f' & Hf' & Hsize).
  rewrite Hf in Hf'. inversion Hf'. subst f'. clear Hf'.
  destruct (mmap_activated_run st st0 addr length prot flags fd offset Hinit Hact)
    as (out & st1 & huge_mem & walloc & aevs & rest & Hrun & _ & Hal & _ & Hcases).
  rewrite Hrun in Hm. inversion Hm. subst out st1. clear Hm.
  split; [symmetry; exact Hsize|].
  destruct Hcases as [(_ & Ho & _)|(Hne & s1 & Hw & _ & _ & Hpop & Hp)]; [contradiction|].
  assert (a = huge_mem) by (destruct Hp as [(Ho & _)|(Ho & _)]; congruence).
  subst a.
  destruct (allocation_granted _ _ _ _ _ Hal Hne) as (_ & _ & Hfd & _).
  replace (List.length (data f)) with (Z.to_nat length)
    by (unfold file_size in Hsize; lia).
  apply (populate_copies fd huge_mem length prot s1 f huge_mem st'); auto; try lia.
  rewrite Hw, Hfd. exact Hf.
Qed.

(** ** The registry *)

Lemma unlink_found :
  forall addr before size after,
    Forall (fun a => alloc_addr a <> addr) before ->
    unlink addr (before ++ mkAlloc addr size :: after) = Some (size, before ++ after).
Proof.
  intros addr before size after H.
  induction H as [|a before Ha _ IH]; cbn.
  - rewrite Z.eqb_refl. reflexivity.
  - apply Z.eqb_neq in Ha. rewrite Ha, IH. reflexivity.
Qed.

Lemma unlink_missing :
  forall addr l,
    Forall (fun a => alloc_addr a <> addr) l -> unlink addr l = None.
Proof.
  intros addr l H. induction H as [|a l Ha _ IH]; cbn; [reflexivity|].
  apply Z.eqb_neq in Ha. rewrite Ha, IH. reflexivity.
Qed.

(** What [unlink] finds is the first record of the address, and it is the
    only one it takes out. *)
Lemma unlink_some :
  forall addr l size rest,
    unlink addr l = Some (size, rest) ->
    exists before after,
      l = before ++ mkAlloc addr size :: after /\
      rest = before ++ after /\
      Forall (fun a => alloc_addr a <> addr) before.
Proof.
  intros addr l. induction l as [|[a s] l IH]; intros size rest; cbn; [discriminate|].
  destruct (a =? addr) eqn:E.
  - intros H. inversion H. subst. apply Z.eqb_eq in E. subst a.
    exists [], rest. repeat split. constructor.
  - destruct (unlink addr l) as [[size' rest']|]; [|discriminate].
    intros H. inversion H. subst.
    destruct (IH size rest' eq_refl) as (before & after & -> & -> & Hb).
    exists (mkAlloc a s :: before), after. repeat split.
    constructor; [cbn; apply Z.eqb_neq; exact E|exact Hb].
Qed.

Lemma drain_all :
  forall l heap, drain l heap = ([], (heap - List.length l)%nat).
Proof.
  induction l as [|a l IH]; intros heap; cbn [drain List.length].
  - rewrite Nat.sub_0_r. reflexivity.
  - rewrite IH. f_equal. lia.
Qed.

Lemma init_functions_frame :
  forall st,
    allocations (snd (init_functions st)) = allocations st /\
    heap_records (snd (init_functions st)) = heap_records st /\
    (fst (init_functions st) = Returned tt \/ fst (init_functions st) = Exited 1).
Proof.
  intros st. run_init.
  destruct (real_mmap st =? nullptr); cbn.
  - destruct (dl_next (world st) "mmap" =? nullptr); cbn; [auto|].
    destruct (real_munmap st =? nullptr); cbn; [|auto].
    destruct (dl_next (world st) "munmap" =? nullptr); cbn; auto.
  - destruct (real_munmap st =? nullptr); cbn; [|auto].
    destruct (dl_next (world st) "munmap" =? nullptr); cbn; auto.
Qed.

(** Whatever a call of the entry point does, it ends, and the registry is
    as before or has one more record, of positive size. *)
Lemma mmap_registry :
  forall addr length prot flags fd offset st,
    (allocations (snd (mmap addr length prot flags fd offset st)) = allocations st /\
     heap_records (snd (mmap addr length prot flags fd offset st)) = heap_records st)
    \/
    (exists huge_mem,
        0 < length /\
        allocations (snd (mmap addr length prot flags fd offset st))
        = mkAlloc huge_mem length :: allocations st /\
        heap_records (snd (mmap addr length prot flags fd offset st))
        = S (heap_records st)).
Proof.
  intros addr length prot flags fd offset st.
  destruct (init_functions st) as [o st0] eqn:Hinit.
  pose proof (init_functions_frame st) as (Ha & Hh & Ho).
  rewrite Hinit in Ha, Hh, Ho. cbn [fst snd] in Ha, Hh, Ho.
  destruct Ho as [-> | ->].
  - destruct (activates (world st) fd length offset) eqn:Hact.
    + destruct (mmap_activated_run st st0 addr length prot flags fd offset Hinit Hact)
        as (out & st' & huge_mem & walloc & aevs & rest & Hrun & _ & Hal & _ & Hcases).
      rewrite Hrun. cbn [snd].
      destruct Hcases as [(_ & _ & _ & A & H & _)|(Hne & s1 & _ & A & H & _ & Hp)];
        [left; split; assumption|].
      destruct (allocation_granted _ _ _ _ _ Hal Hne) as (Hpos & _).
      destruct Hp as [(_ & A' & H' & _)|(_ & A' & H' & _)].
      * right. exists huge_mem. rewrite A', H', A, H. repeat split. exact Hpos.
      * left. rewrite A', H', A, H. split; reflexivity.
    + destruct (mmap_not_activated st st0 addr length prot flags fd offset Hinit Hact)
        as (r & st' & queries & Hrun & _ & _ & _ & A & H).
      rewrite Hrun. left. split; assumption.
  - left.
    assert (E : mmap addr length prot flags fd offset st = (Exited 1, st0))
      by (unfold mmap; unfold bind at 1; rewrite Hinit; reflexivity).
    rewrite E. split; assumption.
Qed.

Lemma munmap_registry :
  forall addr length st,
    registry_ok st -> registry_ok (snd (munmap addr length st)).
Proof.
  intros addr length st [Hpos Hheap].
  destruct (init_functions st) as [o st0] eqn:Hinit.
  pose proof (init_functions_frame st) as (Ha & Hh & Ho).
  rewrite Hinit in Ha, Hh, Ho. cbn [fst snd] in Ha, Hh, Ho.
  assert (E : munmap addr length st
              = match o with
                | Returned _ =>
                    (tracked_size <- untrack_allocation addr ;;
                     if 0 <? tracked_size then
                       fprintf_stderr (InfoUnmap tracked_size) ;;;
                       call_real_munmap addr tracked_size
                     else call_real_munmap addr length) st0
                | Exited c => (Exited c, st0)
                | Crashed => (Crashed, st0)
                | OutOfFuel => (OutOfFuel, st0)
                end)
    by (unfold munmap; unfold bind at 1; rewrite Hinit; reflexivity).
  rewrite E. clear E.
  destruct Ho as [-> | ->]; [|split; cbn [snd]; congruence].
  unfold bind at 1. unfold untrack_allocation. rewrite Ha, Hh.
  assert (Hframe : forall a l s,
             allocations (snd (call_real_munmap a l s)) = allocations s /\
             heap_records (snd (call_real_munmap a l s)) = heap_records s).
  { intros a l s. unfold call_real_munmap, through, syscall.
    destruct (real_munmap s =? nullptr); [auto|].
    destruct (os_munmap a (world s)); auto. }
  destruct (unlink addr (allocations st)) as [[size rest]|] eqn:Eu.
  - destruct (unlink_some _ _ _ _ Eu) as (before & after & El & Er & _).
    assert (Hok : Forall (fun a => 0 < alloc_size a) rest /\
                  pred (heap_records st) = List.length rest).
    { rewrite El in Hpos, Hheap. subst rest.
      apply Forall_app in Hpos as [Hb Hc]. inversion Hc. subst.
      split; [apply Forall_app; auto|].
      rewrite Hheap, !length_app. cbn. lia. }
    unfold registry_ok.
    destruct (0 <? size).
    + unfold bind, fprintf_stderr, modify.
      match goal with |- context [call_real_munmap addr size ?s] =>
        destruct (Hframe addr size s) as [-> ->] end.
      exact Hok.
    + match goal with |- context [call_real_munmap addr length ?s] =>
        destruct (Hframe addr length s) as [-> ->] end.
      exact Hok.
  - unfold registry_ok. cbn [Z.ltb Z.compare].
    destruct (Hframe addr length st0) as [-> ->]. rewrite Ha, Hh. split; assumption.
Qed.

Lemma reachable_registry_ok : forall st, reachable st -> registry_ok st.
Proof.
  intros st H. induction H as [w|st _ IH|st r _ IH|st _ IH|st w _ IH].
  - split; [constructor|reflexivity].
  - destruct IH as [Hp Hh]. unfold init, bind, fprintf_stderr, modify.
    match goal with |- registry_ok (snd (init_functions ?s)) =>
      pose proof (init_functions_frame s) as (A & B & _) end.
    split; [rewrite A|rewrite A, B]; assumption.
  - destruct r as [addr length prot flags fd offset|addr length]; cbn [serve].
    + destruct IH as [Hp Hh].
      destruct (mmap_registry addr length prot flags fd offset st)
        as [[A B]|(huge_mem & Hpos & A & B)];
        (split; [rewrite A|rewrite A, B]); auto.
      cbn. rewrite Hh. reflexivity.
    + apply munmap_registry. exact IH.
  - unfold cleanup, modify. cbn [snd]. rewrite drain_all.
    destruct IH as [_ Hh]. split; [constructor|]. cbn. lia.
  - exact IH.
Qed.

(** ** The unmapping entry point *)

Lemma call_real_munmap_run :
  forall addr length s,
    real_munmap s <> nullptr ->
    exists r s',
      call_real_munmap addr length s = (Returned r, s') /\
      trace s' = trace s ++ [Ev (Munmap addr length) r] /\
      (r, world s') = os_munmap addr (world s) /\
      allocations s' = allocations s /\
      heap_records s' = heap_records s /\
      stderr s' = stderr s.
Proof.
  intros addr length s H. unfold call_real_munmap, through, syscall.
  apply Z.eqb_neq in H. rewrite H.
  destruct (os_munmap addr (world s)) as [r w].
  eexists r, _. repeat split.
Qed.

(** The record of a zero size, which no reachable state holds: it is taken
    out of the list, and since 0 is also what untrack_allocation returns for
    an address it does not find, the caller's length goes to the real
    munmap. *)
Remark munmap_zero_size_record :
  forall st st0 addr length before after,
    init_functions st = (Returned tt, st0) ->
    allocations st = before ++ mkAlloc addr 0 :: after ->
    Forall (fun a => alloc_addr a <> addr) before ->
    exists r st',
      munmap addr length st = (Returned r, st') /\
      trace st' = trace st0 ++ [Ev (Munmap addr length) r] /\
      allocations st' = before ++ after.
Proof.
  intros st st0 addr length before after Hinit Hl Hb.
  destruct (init_functions_returns st st0 Hinit) as ([_ Hu] & Hw & Ha & Hh & _).
  unfold munmap. unfold bind at 1. rewrite Hinit.
  unfold bind at 1. unfold untrack_allocation.
  rewrite Ha, Hl, (unlink_found addr before 0 after Hb). cbn [Z.ltb Z.compare].
  match goal with |- context [call_real_munmap addr length ?s] =>
    destruct (call_real_munmap_run addr length s Hu)
      as (r & s' & Hrun & Htr & _ & Hal & _) end.
  exists r, s'. split; [exact Hrun|]. split; [exact Htr|exact Hal].
Qed.

(** C2. In every state the library can be in, a call of the unmapping entry
    point that returns from the resolver does this. When the address has a
    record (the first one of that address in the list, of size [size]), the
    one call made is the real munmap with the address and [size], whatever
    length the caller gave; its result is returned and the record is taken
    out of the list and freed. When the address has no record, the one call
    made is the real munmap with the caller's address and length, its result
    is returned and the registry is as before. *)
Theorem munmap_routes_by_registry :
  forall st st0 addr length,
    reachable st ->
    init_functions st = (Returned tt, st0) ->
    (forall before size after,
        allocations st = before ++ mkAlloc addr size :: after ->
        Forall (fun a => alloc_addr a <> addr) before ->
        exists r st',
          munmap addr length st = (Returned r, st') /\
          trace st' = trace st0 ++ [Ev (Munmap addr size) r] /\
          (r, world st') = os_munmap addr (world st) /\
          allocations st' = before ++ after /\
          heap_records st' = pred (heap_records st)) /\
    (Forall (fun a => alloc_addr a <> addr) (allocations st) ->
     exists r st',
       munmap addr length st = (Returned r, st') /\
       trace st' = trace st0 ++ [Ev (Munmap addr length) r] /\
       (r, world st') = os_munmap addr (world st) /\
       allocations st' = allocations st /\
       heap_records st' = heap_records st).
Proof.
  intros st st0 addr length Hreach Hinit.
  destruct (reachable_registry_ok st Hreach) as [Hpos _].
  destruct (init_functions_returns st st0 Hinit) as ([_ Hu] & Hw & Ha & Hh & _).
  split.
  - intros before size after Hl Hb.
    assert (Hsize : 0 < size).
    { rewrite Hl in Hpos. apply Forall_app in Hpos as [_ Hpos].
      inversion Hpos. assumption. }
    unfold munmap. unfold bind at 1. rewrite Hinit.
    unfold bind at 1. unfold untrack_allocation.
    rewrite Ha, Hl, (unlink_found addr before size after Hb).
    apply Z.ltb_lt in Hsize. rewrite Hsize.
    unfold bind, fprintf_stderr, modify.
    match goal with |- context [call_real_munmap addr size ?s] =>
      destruct (call_real_munmap_run addr size s Hu)
        as (r & s' & Hrun & Htr & Hos & Hal & Hhe & _) end.
    exists r, s'. split; [exact Hrun|]. split; [exact Htr|].
    cbn in Hos, Hal, Hhe. rewrite Hw in Hos. rewrite Hh in Hhe. auto.
  - intros Hmiss.
    unfold munmap. unfold bind at 1. rewrite Hinit.
    unfold bind at 1. unfold untrack_allocation.
    rewrite Ha, (unlink_missing addr _ Hmiss). cbn [Z.ltb Z.compare].
    destruct (call_real_munmap_run addr length st0 Hu)
      as (r & s' & Hrun & Htr & Hos & Hal & Hhe & _).
    exists r, s'. split; [exact Hrun|]. split; [exact Htr|].
    rewrite Hw in Hos. rewrite Ha in Hal. rewrite Hh in Hhe. auto.
Qed.

(** C10. The destructor empties the registry and frees each of its records,
    and does nothing else: no call is made to the outside, so no region is
    unmapped and the regions the records described stay mapped; the world,
    the handles and stderr are as before. *)
Theorem cleanup_frees_records_only :
  forall st,
  exists st',
    cleanup st = (Returned tt, st') /\
    allocations st' = [] /\
    heap_records st' = (heap_records st - List.length (allocations st))%nat /\
    trace st' = trace st /\
    world st' = world st /\
    real_mmap st' = real_mmap st /\
    real_munmap st' = real_munmap st /\
    stderr st' = stderr st.
Proof.
  intros st. unfold cleanup, modify. rewrite drain_all.
  eexists. split; [reflexivity|]. repeat split.
Qed.

(** On a reachable state the destructor leaves no record on the heap. *)
Corollary cleanup_leaves_no_heap_record :
  forall st, reachable st -> heap_records (snd (cleanup st)) = 0%nat.
Proof.
  intros st H. destruct (reachable_registry_ok st H) as [_ Hh].
  unfold cleanup, modify. rewrite drain_all. cbn. lia.
Qed.

(** ** The registry under several threads *)

Section RegistryThreads.
Import Threads.

Lemma put_same : forall n v cs, put n v cs n = v.
Proof. intros. unfold put. rewrite Nat.eqb_refl. reflexivity. Qed.

Lemma put_other : forall n m v cs, m <> n -> put n v cs m = cs m.
Proof.
  intros n m v cs H. unfold put.
  apply Nat.eqb_neq in H. rewrite H. reflexivity.
Qed.

Lemma segment_length :
  forall cs ids l p q, segment cs p ids l q -> List.length ids = List.length l.
Proof.
  intros cs ids. induction ids as [|n ids IH]; intros [|r l] p q H; cbn in *;
    try contradiction; [reflexivity|].
  destruct H as [_ [nx [_ H]]]. f_equal. eapply IH, H.
Qed.

(** A write to a record that is not on the chain leaves the chain. *)
Lemma segment_put_other :
  forall cs n v ids l p q,
    segment cs p ids l q -> ~ In n ids -> segment (put n v cs) p ids l q.
Proof.
  intros cs n v ids. induction ids as [|m ids IH]; intros [|r l] p q H Hn; cbn in *;
    try contradiction; [assumption|].
  destruct H as [Hp [nx [Hc H]]]. split; [assumption|].
  exists nx. split.
  - rewrite put_other; [assumption|]. intros E. apply Hn. left. assumption.
  - apply IH; [assumption|]. intros Hin. apply Hn. right. assumption.
Qed.

Lemma segment_app :
  forall cs ids1 l1 p m ids2 l2 q,
    segment cs p ids1 l1 m -> segment cs m ids2 l2 q ->
    segment cs p (ids1 ++ ids2) (l1 ++ l2) q.
Proof.
  intros cs ids1. induction ids1 as [|n ids1 IH]; intros [|r l1] p m ids2 l2 q H1 H2;
    cbn in *; try contradiction.
  - subst m. assumption.
  - destruct H1 as [Hp [nx [Hc H1]]]. split; [assumption|].
    exists nx. split; [assumption|]. eapply IH; eassumption.
Qed.

(** The last record of a chain: it is live, and its [next] is where the
    chain ends. *)
Lemma segment_last :
  forall cs ids0 n l p q,
    segment cs p (ids0 ++ [n]) l q ->
    exists l0 r,
      l = l0 ++ [r] /\
      segment cs p ids0 l0 (Some n) /\
      cs n = Some (mkCell (alloc_addr r) (alloc_size r) q).
Proof.
  intros cs ids0. induction ids0 as [|m ids0 IH]; intros n [|r l] p q H; cbn in H;
    try contradiction.
  - destruct H as [Hp [nx [Hc H]]]. destruct l; cbn in H; [|contradiction].
    subst nx. exists [], r. cbn. auto.
  - destruct H as [Hp [nx [Hc H]]].
    destruct (IH _ _ _ _ H) as [l0 [r0 [El [Hs Hn]]]].
    exists (r :: l0), r0. subst l. cbn. repeat split; try assumption.
    exists nx. auto.
Qed.

Lemma alone_finished : forall k sh r, alone k sh (Finished r) = (sh, Finished r).
Proof. induction k as [|k IH]; intros; cbn; [reflexivity|apply IH]. Qed.

(** [track_allocation], run with no other thread in between. *)
Lemma alone_insert :
  forall k sh l addr size,
    represents sh l -> (2 <= k)%nat ->
    exists sh',
      alone k sh (Idle (Insert addr size)) = (sh', Finished 0) /\
      represents sh' (mkAlloc addr size :: l).
Proof.
  intros k sh l addr size [ids [Hseg [Hnd Hlt]]] Hk.
  destruct k as [|[|k]]; try lia.
  cbn [alone step]. rewrite alone_finished.
  eexists. split; [reflexivity|].
  assert (Hfresh : ~ In (brk sh) ids).
  { intros Hin. rewrite Forall_forall in Hlt. apply Hlt in Hin. lia. }
  exists (brk sh :: ids). cbn [top cells brk]. split; [|split].
  - cbn [segment]. split; [reflexivity|].
    exists (top sh). split.
    + rewrite put_same. reflexivity.
    + apply segment_put_other; assumption.
  - constructor; assumption.
  - constructor; [lia|].
    eapply Forall_impl; [|exact Hlt]. cbn. intros; lia.
Qed.

Lemma place_after_snoc : forall ids n, place_after (ids ++ [n]) = AtNext n.
Proof. intros. unfold place_after. rewrite rev_app_distr. reflexivity. Qed.

(** The loop of [untrack_allocation], run with no other thread in between,
    from any point of the walk. *)
Lemma alone_walk :
  forall rest ids_rest before ids_before sh addr curr k,
    segment (cells sh) (top sh) ids_before before curr ->
    segment (cells sh) curr ids_rest rest None ->
    NoDup (ids_before ++ ids_rest) ->
    Forall (fun n => (n < brk sh)%nat) (ids_before ++ ids_rest) ->
    Forall (fun r => alloc_addr r <> addr) before ->
    (List.length rest < k)%nat ->
    exists sh',
      alone k sh (Walking addr (place_after ids_before) curr) =
        (sh', Finished (snd (effect (Remove addr) (before ++ rest)))) /\
      represents sh' (fst (effect (Remove addr) (before ++ rest))).
Proof.
  induction rest as [|r rest IH];
    intros ids_rest before ids_before sh addr curr k Hb Hr Hnd Hlt Hne Hk.
  - destruct ids_rest; cbn in Hr; [|contradiction]. subst curr.
    destruct k as [|k]; [cbn in Hk; lia|].
    cbn [alone step]. rewrite alone_finished.
    rewrite !app_nil_r in *. cbn [effect].
    rewrite (unlink_missing _ _ Hne). cbn [fst snd].
    exists sh. split; [reflexivity|].
    exists ids_before. auto.
  - destruct ids_rest as [|c ids_rest]; cbn in Hr; [contradiction|].
    destruct Hr as [Hcurr [nx [Hc Hr]]]. subst curr.
    destruct k as [|k]; [cbn in Hk; lia|]. cbn in Hk.
    cbn [alone step]. rewrite Hc. cbn [c_addr c_size c_next].
    destruct (alloc_addr r =? addr) eqn:E.
    + (* found: unlink and free *)
      apply Z.eqb_eq in E.
      assert (Eeff : effect (Remove addr) (before ++ r :: rest)
                     = (before ++ rest, alloc_size r)).
      { cbn [effect]. destruct r as [ra rs]. cbn in E. subst ra.
        rewrite (unlink_found _ _ _ _ Hne). reflexivity. }
      rewrite Eeff. cbn [fst snd].
      assert (Hc_rest : ~ In c ids_rest).
      { apply NoDup_remove_2 in Hnd. intros Hin. apply Hnd.
        apply in_or_app. right. assumption. }
      assert (Hc_before : ~ In c ids_before).
      { apply NoDup_remove_2 in Hnd. intros Hin. apply Hnd.
        apply in_or_app. left. assumption. }
      assert (Hnd' : NoDup (ids_before ++ ids_rest)).
      { eapply NoDup_remove_1. exact Hnd. }
      assert (Hlt' : Forall (fun n => (n < brk sh)%nat) (ids_before ++ ids_rest)).
      { rewrite Forall_app in *. destruct Hlt as [H1 H2]. inversion H2. auto. }
      unfold place_after.
      destruct (rev ids_before) as [|p tl] eqn:Erev.
      * (* prev is &allocations *)
        assert (ids_before = []).
        { rewrite <- (rev_involutive ids_before), Erev. reflexivity. }
        subst ids_before.
        destruct before; cbn in Hb; [|contradiction].
        rewrite alone_finished. eexists. split; [reflexivity|].
        exists ids_rest. cbn [top cells brk app] in *. split; [|split].
        -- apply segment_put_other; assumption.
        -- assumption.
        -- assumption.
      * (* prev is the next field of the record before *)
        assert (Eids : ids_before = rev tl ++ [p]).
        { rewrite <- (rev_involutive ids_before), Erev. reflexivity. }
        rewrite Eids in Hb.
        destruct (segment_last _ _ _ _ _ _ Hb) as [before0 [rp [Eb [Hb0 Hp]]]].
        rewrite Hp. cbn [c_addr c_size]. rewrite alone_finished.
        eexists. split; [reflexivity|].
        exists (ids_before ++ ids_rest). cbn [top cells brk].
        split; [|split; assumption].
        rewrite Eids, Eb.
        assert (Hp_tl : ~ In p (rev tl)).
        { rewrite Eids in Hnd'. rewrite <- app_assoc in Hnd'.
          apply NoDup_remove_2 in Hnd'. intros Hin. apply Hnd'.
          apply in_or_app. left. assumption. }
        assert (Hp_rest : ~ In p ids_rest).
        { rewrite Eids in Hnd'. rewrite <- app_assoc in Hnd'.
          apply NoDup_remove_2 in Hnd'. intros Hin. apply Hnd'.
          apply in_or_app. right. assumption. }
        assert (Hc_tl : ~ In c (rev tl)).
        { intros Hin. apply Hc_before. rewrite Eids.
          apply in_or_app. left. assumption. }
        assert (Hpc : p <> c).
        { intros Epc. apply Hc_before. rewrite Eids.
          apply in_or_app. right. left. assumption. }
        eapply segment_app.
        -- eapply segment_app.
           ++ apply segment_put_other; [|exact Hc_tl].
              apply segment_put_other; [exact Hb0|exact Hp_tl].
           ++ cbn [segment]. split; [reflexivity|].
              exists nx. split; [|reflexivity].
              rewrite put_other by exact Hpc. rewrite put_same. reflexivity.
        -- apply segment_put_other; [|exact Hc_rest].
           apply segment_put_other; [exact Hr|exact Hp_rest].
    + (* another address: move on *)
      apply Z.eqb_neq in E.
      rewrite <- (place_after_snoc ids_before c).
      replace (before ++ r :: rest) with ((before ++ [r]) ++ rest)
        by (rewrite <- app_assoc; reflexivity).
      apply (IH ids_rest (before ++ [r]) (ids_before ++ [c])).
      * eapply segment_app; [exact Hb|].
        cbn [segment]. split; [reflexivity|]. exists nx. auto.
      * exact Hr.
      * rewrite <- app_assoc. exact Hnd.
      * rewrite <- app_assoc. exact Hlt.
      * apply Forall_app. split; [assumption|]. constructor; [assumption|constructor].
      * lia.
Qed.

(** [untrack_allocation], run with no other thread in between. *)
Lemma alone_remove :
  forall k sh l addr,
    represents sh l -> (List.length l + 2 <= k)%nat ->
    exists sh',
      alone k sh (Idle (Remove addr)) =
        (sh', Finished (snd (effect (Remove addr) l))) /\
      represents sh' (fst (effect (Remove addr) l)).
Proof.
  intros k sh l addr [ids [Hseg [Hnd Hlt]]] Hk.
  destruct k as [|k]; [lia|].
  cbn [alone step].
  apply (alone_walk l ids [] [] sh addr (top sh) k); cbn; auto.
  lia.
Qed.

(** The loop of [cleanup], run with no other thread in between. *)
Lemma alone_drain_loop :
  forall l ids sh k,
    segment (cells sh) (top sh) ids l None ->
    NoDup ids ->
    (List.length l < k)%nat ->
    exists sh',
      alone k sh Draining = (sh', Finished 0) /\ represents sh' [].
Proof.
  induction l as [|r l IH]; intros ids sh k Hseg Hnd Hk.
  - destruct ids; cbn in Hseg; [|contradiction].
    destruct k as [|k]; [cbn in Hk; lia|].
    cbn [alone step]. unfold drain_step. rewrite Hseg. rewrite alone_finished.
    exists sh. split; [reflexivity|].
    exists []. cbn. split; [assumption|split; constructor].
  - destruct ids as [|c ids]; cbn in Hseg; [contradiction|].
    destruct Hseg as [Htop [nx [Hc Hseg]]].
    destruct k as [|k]; [cbn in Hk; lia|]. cbn in Hk.
    cbn [alone step]. unfold drain_step. rewrite Htop, Hc. cbn [c_next].
    inversion Hnd as [|? ? Hnotin Hnd']; subst.
    apply (IH ids); cbn [top cells brk].
    + apply segment_put_other; assumption.
    + assumption.
    + lia.
Qed.

Lemma alone_drain :
  forall k sh l,
    represents sh l -> (List.length l + 2 <= k)%nat ->
    exists sh',
      alone k sh (Idle Drain) = (sh', Finished 0) /\ represents sh' [].
Proof.
  intros k sh l [ids [Hseg [Hnd Hlt]]] Hk.
  destruct (alone_drain_loop l ids sh k Hseg Hnd) as [sh' [H1 H2]]; [lia|].
  exists sh'. split; [|assumption].
  destruct k as [|k]; [lia|]. cbn [alone step] in *. exact H1.
Qed.

(** Any of the three operations, run with no other thread in between, does
    to the memory what the sequential function does to the list. *)
Lemma alone_effect :
  forall op k sh l,
    represents sh l -> (List.length l + 2 <= k)%nat ->
    exists sh',
      alone k sh (Idle op) = (sh', Finished (snd (effect op l))) /\
      represents sh' (fst (effect op l)).
Proof.
  intros [addr size|addr|] k sh l Hrep Hk.
  - apply alone_insert; [assumption|lia].
  - apply alone_remove; assumption.
  - cbn [effect fst snd]. rewrite drain_all. cbn [fst].
    eapply alone_drain; eassumption.
Qed.

Lemma effect_length :
  forall op l, (List.length (fst (effect op l)) <= S (List.length l))%nat.
Proof.
  intros [addr size|addr|] l; cbn [effect fst].
  - cbn. lia.
  - destruct (unlink addr l) as [[size rest]|] eqn:E; cbn [fst]; [|lia].
    destruct (unlink_some _ _ _ _ E) as [b [a [El [Er _]]]]. subst.
    rewrite !length_app. cbn. lia.
  - rewrite drain_all. cbn. lia.
Qed.

Lemma nth_error_set_nth_eq :
  forall l i t t0, nth_error l i = Some t0 -> nth_error (set_nth i t l) i = Some t.
Proof.
  induction l as [|x l IH]; intros [|i] t t0 H; cbn in *; try discriminate.
  - reflexivity.
  - eapply IH, H.
Qed.

Lemma nth_error_set_nth_neq :
  forall l i j t, i <> j -> nth_error (set_nth i t l) j = nth_error l j.
Proof.
  induction l as [|x l IH]; intros [|i] [|j] t H; cbn; try reflexivity.
  - contradiction.
  - apply IH. intros E. apply H. f_equal. assumption.
Qed.

Lemma set_nth_set_nth :
  forall l i t t', set_nth i t (set_nth i t' l) = set_nth i t l.
Proof.
  induction l as [|x l IH]; intros [|i] t t'; cbn; try reflexivity.
  f_equal. apply IH.
Qed.

Lemma set_nth_same :
  forall l i t, nth_error l i = Some t -> set_nth i t l = l.
Proof.
  induction l as [|x l IH]; intros [|i] t H; cbn in *; try discriminate.
  - inversion H. reflexivity.
  - f_equal. apply IH, H.
Qed.

(** A thread scheduled [k] times in a row runs alone. *)
Lemma run_repeat :
  forall k sys i t,
    nth_error (threads sys) i = Some t ->
    run (repeat i k) sys =
      mkSystem (fst (alone k (memory sys) t))
               (set_nth i (snd (alone k (memory sys) t)) (threads sys)).
Proof.
  induction k as [|k IH]; intros [sh ts] i t H; cbn [threads memory] in *.
  - cbn. rewrite (set_nth_same _ _ _ H). reflexivity.
  - cbn [repeat run fold_left alone]. unfold schedule at 2. cbn [threads memory].
    rewrite H. destruct (step sh t) as [sh1 t1] eqn:Es.
    fold (run (repeat i k) (mkSystem sh1 (set_nth i t1 ts))).
    rewrite (IH _ i t1); cbn [threads memory].
    + rewrite set_nth_set_nth. reflexivity.
    + eapply nth_error_set_nth_eq, H.
Qed.

Lemma run_app :
  forall o1 o2 sys, run (o1 ++ o2) sys = run o2 (run o1 sys).
Proof. intros. unfold run. apply fold_left_app. Qed.

Lemma op_of_idle :
  forall sys i op, nth_error (threads sys) i = Some (Idle op) -> op_of sys i = op.
Proof. intros sys i op H. unfold op_of. rewrite H. reflexivity. Qed.

(** Threads that take their turns one after the other: the memory ends up
    holding what the sequential functions make of the list, each thread has
    returned what its function returns, and the threads that had no turn
    have not moved. *)
Lemma one_at_a_time_run :
  forall turns sys l k,
    represents (memory sys) l ->
    NoDup turns ->
    (forall i, In i turns -> exists op, nth_error (threads sys) i = Some (Idle op)) ->
    (List.length l + List.length turns + 2 <= k)%nat ->
    let ops := map (op_of sys) turns in
    let sys' := run (one_at_a_time turns k) sys in
    represents (memory sys') (fst (sequential ops l)) /\
    (forall j i, nth_error turns j = Some i ->
                 nth_error (threads sys') i =
                   Some (Finished (nth j (snd (sequential ops l)) 0))) /\
    (forall i, ~ In i turns ->
               nth_error (threads sys') i = nth_error (threads sys) i).
Proof.
  induction turns as [|i turns IH]; intros sys l k Hrep Hnd Hidle Hk; cbn zeta.
  - cbn. repeat split.
    + assumption.
    + intros [|j] i H; discriminate.
  - destruct (Hidle i (or_introl eq_refl)) as [op Hop].
    cbn [one_at_a_time flat_map map]. rewrite run_app.
    rewrite (run_repeat k sys i _ Hop).
    rewrite (op_of_idle _ _ _ Hop).
    destruct (alone_effect op k (memory sys) l Hrep) as [sh1 [Ha Hrep1]];
      [cbn in Hk; lia|].
    rewrite Ha. cbn [fst snd].
    set (sys1 := mkSystem sh1 (set_nth i (Finished (snd (effect op l))) (threads sys))).
    inversion Hnd as [|? ? Hnotin Hnd']; subst.
    assert (Hsame : forall i', In i' turns ->
                               nth_error (threads sys1) i' = nth_error (threads sys) i').
    { intros i' Hin. unfold sys1. cbn [threads].
      apply nth_error_set_nth_neq. intros E. subst i'. contradiction. }
    assert (Hops : map (op_of sys) turns = map (op_of sys1) turns).
    { apply map_ext_in. intros i' Hin. unfold op_of. rewrite (Hsame i' Hin). reflexivity. }
    rewrite Hops.
    destruct (IH sys1 (fst (effect op l)) k) as [H1 [H2 H3]].
    + exact Hrep1.
    + exact Hnd'.
    + intros i' Hin. rewrite (Hsame i' Hin). apply Hidle. right. assumption.
    + pose proof (effect_length op l). cbn [List.length] in Hk. lia.
    + fold (one_at_a_time turns k).
      cbn [sequential].
      destruct (effect op l) as [l1 r] eqn:Ee. cbn [fst snd] in *.
      destruct (sequential (map (op_of sys1) turns) l1) as [lf rs] eqn:Eseq.
      cbn [fst snd] in *.
      repeat split.
      * exact H1.
      * intros [|j] i' Hj; cbn [nth_error nth] in *.
        -- inversion Hj. subst i'. rewrite (H3 i Hnotin).
           unfold sys1. cbn [threads]. eapply nth_error_set_nth_eq, Hop.
        -- apply H2. assumption.
      * intros i' Hnot. rewrite H3.
        -- unfold sys1. cbn [threads]. apply nth_error_set_nth_neq.
           intros E. apply Hnot. left. assumption.
        -- intros Hin. apply Hnot. right. assumption.
Qed.

(** The sequential functions of the library are what [effect] says. *)
Lemma perform_effect :
  forall op st,
    exists st',
      perform op st = (Returned (snd (effect op (allocations st))), st') /\
      allocations st' = fst (effect op (allocations st)).
Proof.
  intros [addr size|addr|] st; cbn [perform effect].
  - eexists. split; reflexivity.
  - unfold untrack_allocation.
    destruct (unlink addr (allocations st)) as [[size rest]|];
      eexists; split; reflexivity.
  - unfold cleanup, modify, bind, ret.
    rewrite !drain_all. eexists. split; reflexivity.
Qed.

Lemma perform_all_sequential :
  forall ops st,
    exists st',
      perform_all ops st = (Returned (snd (sequential ops (allocations st))), st') /\
      allocations st' = fst (sequential ops (allocations st)).
Proof.
  induction ops as [|op ops IH]; intros st.
  - exists st. split; reflexivity.
  - destruct (perform_effect op st) as [st1 [H1 E1]].
    destruct (IH st1) as [st2 [H2 E2]].
    exists st2. cbn [perform_all sequential]. unfold bind at 1. rewrite H1.
    unfold bind at 1. rewrite H2. unfold ret.
    rewrite E1 in *.
    destruct (effect op (allocations st)) as [l1 r]. cbn [fst snd] in *.
    destruct (sequential ops l1) as [lf rs]. cbn [fst snd] in *.
    split; [reflexivity|assumption].
Qed.

(** An insertion or a removal at another address leaves the records of the
    address [a] as they are. *)
Lemma effect_elsewhere :
  forall a op l,
    elsewhere a op -> records_at a (fst (effect op l)) = records_at a l.
Proof.
  intros a [addr size|addr|] l H; cbn [elsewhere] in H; cbn [effect fst].
  - unfold records_at. cbn [filter alloc_addr].
    apply Z.eqb_neq in H. rewrite H. reflexivity.
  - destruct (unlink addr l) as [[size rest]|] eqn:E; cbn [fst]; [|reflexivity].
    destruct (unlink_some _ _ _ _ E) as [before [after [El [Er _]]]]. subst.
    unfold records_at. rewrite !filter_app. cbn [filter alloc_addr].
    apply Z.eqb_neq in H. rewrite H. reflexivity.
  - contradiction.
Qed.

Lemma sequential_elsewhere :
  forall a ops l,
    Forall (elsewhere a) ops ->
    records_at a (fst (sequential ops l)) = records_at a l.
Proof.
  intros a ops. induction ops as [|op ops IH]; intros l H; [reflexivity|].
  inversion H as [|? ? Hop Hops]; subst.
  cbn [sequential].
  pose proof (effect_elsewhere a op l Hop) as E.
  destruct (effect op l) as [l1 r]. cbn [fst] in E.
  pose proof (IH l1 Hops) as E'.
  destruct (sequential ops l1) as [lf rs]. cbn [fst] in *.
  congruence.
Qed.

(** The memory holds one list only. *)
Lemma segment_unique :
  forall cs ids1 l1 ids2 l2 p,
    segment cs p ids1 l1 None -> segment cs p ids2 l2 None -> l1 = l2.
Proof.
  intros cs ids1. induction ids1 as [|n ids1 IH];
    intros [|r1 l1] [|m ids2] [|r2 l2] p H1 H2; cbn in *;
    try contradiction; try reflexivity.
  - destruct H2 as [E _]. congruence.
  - destruct H1 as [E _]. congruence.
  - destruct H1 as [E1 [nx1 [Hc1 H1]]], H2 as [E2 [nx2 [Hc2 H2]]].
    assert (n = m) by congruence. subst m.
    rewrite Hc1 in Hc2. inversion Hc2 as [[Ea Es En]]. subst nx2.
    destruct r1, r2. cbn in *. subst. f_equal. eapply IH; eassumption.
Qed.

Lemma represents_unique :
  forall sh l1 l2, represents sh l1 -> represents sh l2 -> l1 = l2.
Proof.
  intros sh l1 l2 [ids1 [H1 _]] [ids2 [H2 _]]. eapply segment_unique; eassumption.
Qed.

(** Two insertions that overlap: the second write of [allocations] drops
    the record the first one linked. *)
Lemma overlapping_insertions :
  forall sh l a1 s1 a2 s2,
    represents sh l ->
    let racing := run [0; 1; 0; 1]%nat
                      (mkSystem sh [Idle (Insert a1 s1); Idle (Insert a2 s2)]) in
    threads racing = [Finished 0; Finished 0] /\
    represents (memory racing) (mkAlloc a2 s2 :: l).
Proof.
  intros sh l a1 s1 a2 s2 [ids [Hseg [Hnd Hlt]]]. cbn zeta.
  unfold run, schedule. cbn. split; [reflexivity|].
  assert (H0 : ~ In (brk sh) ids).
  { intros Hin. rewrite Forall_forall in Hlt. apply Hlt in Hin. lia. }
  assert (H1 : ~ In (S (brk sh)) ids).
  { intros Hin. rewrite Forall_forall in Hlt. apply Hlt in Hin. lia. }
  exists (S (brk sh) :: ids). cbn [top cells brk]. split; [|split].
  - cbn [segment]. split; [reflexivity|].
    exists (top sh). split.
    + rewrite put_same. reflexivity.
    + apply segment_put_other; [|assumption].
      apply segment_put_other; assumption.
  - constructor; assumption.
  - constructor; [lia|].
    eapply Forall_impl; [|exact Hlt]. cbn. intros; lia.
Qed.

(** A removal overlapped by a drain: the record the removal is about to
    look at has been freed. *)
Lemma removal_overlapped_by_drain :
  forall sh r l addr,
    represents sh (r :: l) ->
    threads (run [0; 1; 0]%nat (mkSystem sh [Idle (Remove addr); Idle Drain]))
    = [Faulted; Draining].
Proof.
  intros sh r l addr [ids [Hseg _]].
  destruct ids as [|c ids]; cbn in Hseg; [contradiction|].
  destruct Hseg as [Htop [nx [Hc _]]].
  unfold run, schedule. cbn. unfold drain_step. rewrite Htop, Hc. cbn.
  rewrite put_same. reflexivity.
Qed.

(** C8, as the code has it. The registry takes no lock, so its operations
    are not mutually exclusive. Threads that call insert, lookup-and-remove
    and drain one at a time, each call through before the next starts, in
    any order, leave the memory holding the list that the same calls made in
    sequence by the library's functions leave, each thread has returned what
    its call returns in that sequence, and the records of an address that
    only other insertions and removals went by are untouched. Calls that
    overlap are not protected: of two insertions that each read
    [allocations] before the other writes it, both return and the list
    holds the second thread's record only; a lookup-and-remove that has read
    [allocations] when a drain frees the first record then reads a freed
    record. *)
Theorem operations_in_turn_act_as_called_in_sequence :
  forall sys st turns k,
    represents (memory sys) (allocations st) ->
    NoDup turns ->
    (forall i, In i turns -> exists op, nth_error (threads sys) i = Some (Idle op)) ->
    (List.length (allocations st) + List.length turns + 2 <= k)%nat ->
    let ops := map (op_of sys) turns in
    let sys' := run (one_at_a_time turns k) sys in
    (exists results st',
        perform_all ops st = (Returned results, st') /\
        represents (memory sys') (allocations st') /\
        (forall j i, nth_error turns j = Some i ->
                     nth_error (threads sys') i = Some (Finished (nth j results 0))) /\
        (forall a, Forall (elsewhere a) ops ->
                   records_at a (allocations st') = records_at a (allocations st))) /\
    (forall a1 s1 a2 s2,
        let racing := run [0; 1; 0; 1]%nat
                          (mkSystem (memory sys)
                                    [Idle (Insert a1 s1); Idle (Insert a2 s2)]) in
        threads racing = [Finished 0; Finished 0] /\
        forall l, represents (memory racing) l -> l = mkAlloc a2 s2 :: allocations st) /\
    (forall addr,
        allocations st <> [] ->
        threads (run [0; 1; 0]%nat
                     (mkSystem (memory sys) [Idle (Remove addr); Idle Drain]))
        = [Faulted; Draining]).
Proof.
  intros sys st turns k Hrep Hnd Hidle Hk. cbn zeta.
  split; [|split].
  - destruct (one_at_a_time_run turns sys (allocations st) k Hrep Hnd Hidle Hk)
      as [H1 [H2 _]].
    destruct (perform_all_sequential (map (op_of sys) turns) st) as [st' [Hp Ea]].
    exists (snd (sequential (map (op_of sys) turns) (allocations st))), st'.
    split; [exact Hp|]. rewrite Ea. split; [exact H1|]. split; [exact H2|].
    intros a Ha. apply sequential_elsewhere. exact Ha.
  - intros a1 s1 a2 s2.
    destruct (overlapping_insertions (memory sys) (allocations st) a1 s1 a2 s2 Hrep)
      as [Ht Hr].
    split; [exact Ht|].
    intros l Hl. eapply represents_unique; eassumption.
  - intros addr Hne.
    destruct (allocations st) as [|r l] eqn:E; [contradiction|].
    eapply removal_overlapped_by_drain. exact Hrep.
Qed.

Lemma operations_in_turn_act_as_called_in_sequence_witness :
  let ops := [Remove 0x5000; Insert 0x9000 8192; Insert 0x7000 4096] in
  let sys' := run (one_at_a_time [1; 0; 3]%nat 6) registry_demo in
  (exists results st',
      perform_all ops after_mapping = (Returned results, st') /\
      represents (memory sys') (allocations st') /\
      (forall j i, nth_error [1; 0; 3]%nat j = Some i ->
                   nth_error (threads sys') i = Some (Finished (nth j results 0))) /\
      (forall a, Forall (elsewhere a) ops ->
                 records_at a (allocations st') = records_at a (allocations after_mapping))) /\
  (forall a1 s1 a2 s2,
      let racing := run [0; 1; 0; 1]%nat
                        (mkSystem (memory registry_demo)
                                  [Idle (Insert a1 s1); Idle (Insert a2 s2)]) in
      threads racing = [Finished 0; Finished 0] /\
      forall l, represents (memory racing) l ->
                l = mkAlloc a2 s2 :: allocations after_mapping) /\
  (forall addr,
      allocations after_mapping <> [] ->
      threads (run [0; 1; 0]%nat
                   (mkSystem (memory registry_demo) [Idle (Remove addr); Idle Drain]))
      = [Faulted; Draining]).
Proof.
  apply (operations_in_turn_act_as_called_in_sequence
           registry_demo after_mapping [1; 0; 3]%nat 6%nat).
  - exists [0%nat]. vm_compute.
    split; [split; [reflexivity|exists None; split; reflexivity]|].
    split; repeat constructor. intros [].
  - repeat constructor; cbn; intuition discriminate.
  - cbn. intros i [<-|[<-|[<-|[]]]]; eexists; reflexivity.
  - vm_compute. lia.
Defined.

End RegistryThreads.

(** C8, as the claim has it, fails: when the two insertions interleave (each
    thread reads the head before the other writes it) both threads finish and
    the list holds one record only; the address of the first thread's region
    is no longer found. *)
Lemma interleaved_insertions_lose_a_record :
  Interleaving.first racy_insertions = Interleaving.Finished /\
  Interleaving.second racy_insertions = Interleaving.Finished /\
  Interleaving.head racy_insertions = [mkAlloc 0x9000 8192] /\
  unlink 0x5000 (Interleaving.head racy_insertions) = None.
Proof. repeat split. Qed.

(** ** The theorems at work on the small world *)

(** A run is its result and its final state. *)
Lemma run_pair :
  forall (A : Type) (m : M A) (st : state) (o : outcome A),
    fst (m st) = o -> m st = (o, snd (m st)).
Proof. intros A m st o <-. apply surjective_pairing. Qed.

Lemma whole_file_mapping_holds_file_bytes_witness :
  (4 = Z.of_nat (List.length (data (hugetlbfs_file abcd))) /\
   load_bytes (mem (world (snd (mmap 0 4 PROT_READ MAP_PRIVATE 3 0 run_short_reads))))
              0x5000 (List.length (data (hugetlbfs_file abcd)))
   = data (hugetlbfs_file abcd)) /\
  (exists s1,
      copy_loop 3 3 0x5000 4 0 (loaded (demo_os [1]))
      = copy_loop 2 3 0x5000 4 (0 + 1) s1 /\
      world s1 = snd (os_read 3 (0x5000 + 0) (Z.min (4 - 0) chunk_size)
                              (world (loaded (demo_os [1])))) /\
      trace s1 = trace (loaded (demo_os [1]))
                 ++ [Ev (Read 3 (0x5000 + 0) (Z.min (4 - 0) chunk_size)) 1] /\
      same_library (loaded (demo_os [1])) s1).
Proof.
  split.
  - apply (proj1 whole_file_mapping_holds_file_bytes
             run_short_reads (snd (init_functions run_short_reads))
             0 4 PROT_READ MAP_PRIVATE 3 0 (hugetlbfs_file abcd) 0x5000
             (snd (mmap 0 4 PROT_READ MAP_PRIVATE 3 0 run_short_reads))).
    + apply run_pair. vm_compute. reflexivity.
    + vm_compute. reflexivity.
    + vm_compute. reflexivity.
    + apply run_pair. vm_compute. reflexivity.
    + unfold MAP_FAILED. lia.
  - apply (proj2 whole_file_mapping_holds_file_bytes
             2%nat 3 0x5000 4 0 (loaded (demo_os [1])) 1
             (snd (os_read 3 (0x5000 + 0) (Z.min (4 - 0) chunk_size)
                           (world (loaded (demo_os [1])))))).
    + lia.
    + lia.
    + rewrite (surjective_pairing (os_read _ _ _ _)) at 1. f_equal.
    + lia.
Defined.

Lemma munmap_routes_by_registry_witness :
  (exists r st',
      munmap 0x5000 1 after_mapping = (Returned r, st') /\
      trace st' = trace (snd (init_functions after_mapping))
                  ++ [Ev (Munmap 0x5000 4) r] /\
      (r, world st') = os_munmap 0x5000 (world after_mapping) /\
      allocations st' = [] ++ [] /\
      heap_records st' = pred (heap_records after_mapping)) /\
  (exists r st',
      munmap 0x7000 1 after_mapping = (Returned r, st') /\
      trace st' = trace (snd (init_functions after_mapping))
                  ++ [Ev (Munmap 0x7000 1) r] /\
      (r, world st') = os_munmap 0x7000 (world after_mapping) /\
      allocations st' = allocations after_mapping /\
      heap_records st' = heap_records after_mapping).
Proof.
  assert (Hreach : reachable after_mapping)
    by (apply reachable_serve, reachable_init, reachable_fresh).
  assert (Hinit : init_functions after_mapping
                  = (Returned tt, snd (init_functions after_mapping)))
    by (apply run_pair; vm_compute; reflexivity).
  split.
  - apply (proj1 (munmap_routes_by_registry after_mapping
                    (snd (init_functions after_mapping)) 0x5000 1 Hreach Hinit)
             [] 4 []); [vm_compute; reflexivity|constructor].
  - apply (proj2 (munmap_routes_by_registry after_mapping
                    (snd (init_functions after_mapping)) 0x7000 1 Hreach Hinit)).
    vm_compute. repeat constructor; discriminate.
Defined.

(** Descriptor 4 is not on hugetlbfs. *)
Lemma mmap_delegates_unless_whole_file_witness :
  exists r st' queries,
    mmap 0 4 PROT_READ MAP_PRIVATE 4 0 (fresh (demo_os [0x5000])) = (Returned r, st') /\
    trace st' = trace (snd (init_functions (fresh (demo_os [0x5000]))))
                ++ queries ++ [Ev (Mmap 0 4 PROT_READ MAP_PRIVATE 4 0) r] /\
    forallb (is_query 4) queries = true /\
    (r, world st') = os_mmap 4 PROT_READ (world (fresh (demo_os [0x5000]))) /\
    allocations st' = allocations (fresh (demo_os [0x5000])) /\
    heap_records st' = heap_records (fresh (demo_os [0x5000])).
Proof.
  apply (mmap_delegates_unless_whole_file
           (fresh (demo_os [0x5000])) (snd (init_functions (fresh (demo_os [0x5000]))))
           0 4 PROT_READ MAP_PRIVATE 4 0).
  - apply run_pair. vm_compute. reflexivity.
  - right. left. vm_compute. reflexivity.
Defined.

Lemma failed_copy_releases_region_witness :
  fst (mmap 0 4 PROT_READ MAP_PRIVATE 3 0 run_early_eof) = Returned MAP_FAILED /\
  allocations (snd (mmap 0 4 PROT_READ MAP_PRIVATE 3 0 run_early_eof))
  = allocations run_early_eof /\
  heap_records (snd (mmap 0 4 PROT_READ MAP_PRIVATE 3 0 run_early_eof))
  = heap_records run_early_eof /\
  exists huge_mem pre r,
    huge_mem <> MAP_FAILED /\
    skipn 2 (trace (snd (mmap 0 4 PROT_READ MAP_PRIVATE 3 0 run_early_eof)))
    = pre ++ [Ev (Munmap huge_mem 4) r] /\
    (In (Ev (huge_request 4) huge_mem) pre \/ In (Ev (anon_request 4) huge_mem) pre) /\
    (r = 0 -> Forall (fun g => base g <> huge_mem)
                     (maps (world (snd (mmap 0 4 PROT_READ MAP_PRIVATE 3 0
                                             run_early_eof))))).
Proof.
  apply (failed_copy_releases_region
           run_early_eof (snd (init_functions run_early_eof))
           0 4 PROT_READ MAP_PRIVATE 3 0
           (fst (mmap 0 4 PROT_READ MAP_PRIVATE 3 0 run_early_eof))
           (snd (mmap 0 4 PROT_READ MAP_PRIVATE 3 0 run_early_eof))
           (skipn 2 (trace (snd (mmap 0 4 PROT_READ MAP_PRIVATE 3 0 run_early_eof))))).
  - apply run_pair. vm_compute. reflexivity.
  - vm_compute. reflexivity.
  - apply surjective_pairing.
  - vm_compute. reflexivity.
  - vm_compute. reflexivity.
Defined.

Lemma mmap_falls_back_to_plain_anonymous_witness :
  exists out st' rest,
    mmap 0 4 PROT_READ MAP_PRIVATE 3 0 run_no_memory = (Returned out, st') /\
    trace st' = trace (snd (init_functions run_no_memory)) ++ queries_made 3
                ++ [Ev (Mmap nullptr 4 (Z.lor PROT_READ PROT_WRITE)
                             (Z.lor (Z.lor MAP_PRIVATE MAP_ANONYMOUS) MAP_HUGETLB)
                             (-1) 0) MAP_FAILED;
                    Ev (Mmap nullptr 4 (Z.lor PROT_READ PROT_WRITE)
                             (Z.lor MAP_PRIVATE MAP_ANONYMOUS) (-1) 0)
                       (fst (os_mmap 4 anon_prot
                               (snd (os_mmap 4 anon_prot (world run_no_memory)))))]
                ++ rest /\
    (fst (os_mmap 4 anon_prot (snd (os_mmap 4 anon_prot (world run_no_memory))))
     = MAP_FAILED ->
     out = MAP_FAILED /\ rest = [] /\
     allocations st' = allocations run_no_memory /\
     heap_records st' = heap_records run_no_memory).
Proof.
  apply (mmap_falls_back_to_plain_anonymous
           run_no_memory (snd (init_functions run_no_memory))
           0 4 PROT_READ MAP_PRIVATE 3 0
           (snd (os_mmap 4 anon_prot (world run_no_memory)))).
  - apply run_pair. vm_compute. reflexivity.
  - vm_compute. reflexivity.
  - rewrite (surjective_pairing (os_mmap _ _ _)) at 1. f_equal.
Defined.

Lemma protection_narrowed_after_copy_witness :
  fst (mmap 0 4 PROT_READ MAP_PRIVATE 3 0 run_mprotect_refused) = Returned 0x5000 /\
  allocations (snd (mmap 0 4 PROT_READ MAP_PRIVATE 3 0 run_mprotect_refused))
  = mkAlloc 0x5000 4 :: allocations run_mprotect_refused /\
  (Z.land PROT_READ PROT_WRITE = 0 ->
   exists pre r,
     skipn 2 (trace (snd (mmap 0 4 PROT_READ MAP_PRIVATE 3 0 run_mprotect_refused)))
     = pre ++ [Ev (Mprotect 0x5000 4 PROT_READ) r] /\
     (r = 0 -> In (mkRegion 0x5000 4 PROT_READ)
                  (maps (world (snd (mmap 0 4 PROT_READ MAP_PRIVATE 3 0
                                          run_mprotect_refused)))))).
Proof.
  apply (protection_narrowed_after_copy
           run_mprotect_refused (snd (init_functions run_mprotect_refused))
           0 4 PROT_READ MAP_PRIVATE 3 0
           (fst (mmap 0 4 PROT_READ MAP_PRIVATE 3 0 run_mprotect_refused))
           (snd (mmap 0 4 PROT_READ MAP_PRIVATE 3 0 run_mprotect_refused))
           (skipn 2 (trace (snd (mmap 0 4 PROT_READ MAP_PRIVATE 3 0
                                      run_mprotect_refused))))
           0x5000).
  - apply run_pair. vm_compute. reflexivity.
  - vm_compute. reflexivity.
  - apply surjective_pairing.
  - vm_compute. reflexivity.
  - unfold MAP_FAILED. lia.
  - left. vm_compute. auto.
  - vm_compute. reflexivity.
Defined.

Lemma init_functions_resolves_once_witness :
  (real_mmap (snd (init_functions resolved)) = real_mmap resolved /\
   exists evs,
     trace (snd (init_functions resolved)) = trace resolved ++ evs /\
     existsb (is_lookup "mmap") evs = false) /\
  (bound resolved /\ init_functions resolved = (Returned tt, resolved)) /\
  (fst (init_functions (fresh no_libc)) = Exited 1 /\
   exists evs name,
     trace (snd (init_functions (fresh no_libc)))
     = trace (fresh no_libc) ++ evs ++ [Ev (Dlsym name) nullptr]).
Proof.
  split; [|split].
  - apply (proj1 (init_functions_resolves_once resolved)).
    vm_compute. lia.
  - apply (proj1 (proj2 (proj2 (init_functions_resolves_once (fresh (demo_os []))))));
      apply run_pair; vm_compute; reflexivity.
  - apply (proj2 (proj2 (proj2 (init_functions_resolves_once (fresh no_libc))))).
    left. split; reflexivity.
Defined.

Lemma activation_ignores_hint_prot_flags_witness :
  exists huge_mem walloc aevs,
    allocation 4 (world run_short_reads) huge_mem walloc aevs /\
    (huge_mem <> MAP_FAILED ->
     maps walloc = mkRegion huge_mem 4 (Z.lor PROT_READ PROT_WRITE)
                   :: maps (world run_short_reads)) /\
    forall addr prot flags,
    exists out st' rest,
      mmap addr 4 prot flags 3 0 run_short_reads = (Returned out, st') /\
      trace st' = trace (snd (init_functions run_short_reads))
                  ++ queries_made 3 ++ aevs ++ rest /\
      existsb is_map rest = false.
Proof.
  apply (activation_ignores_hint_prot_flags
           run_short_reads (snd (init_functions run_short_reads)) 4 3 0).
  - apply run_pair. vm_compute. reflexivity.
  - vm_compute. reflexivity.
Defined.

(** * Further properties *)

(** ** More about the registry *)

(** X1. Recording a region and looking its address up again gives back the
    recorded size and the state as it was, also when the address already had
    a record: the newest record of an address is the one found. *)
Theorem track_then_untrack_restores :
  forall st addr size,
    untrack_allocation addr (snd (track_allocation addr size st))
    = (Returned size, st).
Proof.
  intros [rm ru l h w t d] addr size.
  unfold untrack_allocation, track_allocation, modify. cbn.
  rewrite Z.eqb_refl. reflexivity.
Qed.

(** X2. A lookup-and-remove is not disturbed by a record of another address
    put on top of the list: it returns what it would have returned without
    it, and that record stays on top of what the lookup leaves. *)
Theorem untrack_skips_other_address :
  forall st a b size_b,
    a <> b ->
    fst (untrack_allocation a (snd (track_allocation b size_b st)))
    = fst (untrack_allocation a st) /\
    allocations (snd (untrack_allocation a (snd (track_allocation b size_b st))))
    = mkAlloc b size_b :: allocations (snd (untrack_allocation a st)).
Proof.
  intros st a b size_b Hne.
  unfold untrack_allocation, track_allocation, modify. cbn.
  assert (E : (b =? a) = false) by (apply Z.eqb_neq; congruence).
  rewrite E.
  destruct (unlink a (allocations st)) as [[size rest]|]; cbn; split; reflexivity.
Qed.

Lemma untrack_skips_other_address_witness :
  fst (untrack_allocation 0x5000 (snd (track_allocation 0x9000 8192 after_mapping)))
  = fst (untrack_allocation 0x5000 after_mapping) /\
  allocations (snd (untrack_allocation 0x5000
                      (snd (track_allocation 0x9000 8192 after_mapping))))
  = mkAlloc 0x9000 8192 :: allocations (snd (untrack_allocation 0x5000 after_mapping)).
Proof.
  apply (untrack_skips_other_address after_mapping 0x5000 0x9000 8192). lia.
Defined.

(** X3. When every record has a positive size, untrack_allocation returns 0
    exactly for an address that has no record, and then the state is
    untouched. *)
Theorem untrack_zero_means_untracked :
  forall st addr,
    Forall (fun a => 0 < alloc_size a) (allocations st) ->
    (fst (untrack_allocation addr st) = Returned 0 <->
     Forall (fun a => alloc_addr a <> addr) (allocations st)) /\
    (Forall (fun a => alloc_addr a <> addr) (allocations st) ->
     snd (untrack_allocation addr st) = st).
Proof.
  intros st addr Hpos. unfold untrack_allocation. split; [split|].
  - destruct (unlink addr (allocations st)) as [[size rest]|] eqn:E; cbn.
    + intros H. inversion H. subst size.
      destruct (unlink_some _ _ _ _ E) as (before & after & El & _ & _).
      rewrite El in Hpos. apply Forall_app in Hpos as [_ Hpos].
      inversion Hpos. cbn in *. lia.
    + intros _. clear Hpos. induction (allocations st) as [|r l IH]; [constructor|].
      cbn in E. destruct (alloc_addr r =? addr) eqn:Er; [discriminate|].
      destruct (unlink addr l) as [[s' r']|]; [discriminate|].
      constructor; [apply Z.eqb_neq; exact Er|apply IH; reflexivity].
  - intros H. rewrite (unlink_missing addr _ H). reflexivity.
  - intros H. rewrite (unlink_missing addr _ H). reflexivity.
Qed.

Lemma untrack_zero_means_untracked_witness :
  (fst (untrack_allocation 0x7000 after_mapping) = Returned 0 <->
   Forall (fun a => alloc_addr a <> 0x7000) (allocations after_mapping)) /\
  (Forall (fun a => alloc_addr a <> 0x7000) (allocations after_mapping) ->
   snd (untrack_allocation 0x7000 after_mapping) = after_mapping).
Proof.
  apply (untrack_zero_means_untracked after_mapping 0x7000).
  vm_compute. repeat constructor.
Defined.

(** ** What a mapping request leaves alone *)

Lemma contained_refl : forall d l s, contained d l s s.
Proof.
  intros d l s. repeat split. exists []. rewrite app_nil_r. split; reflexivity.
Qed.

Lemma contained_trans :
  forall d l s1 s2 s3,
    contained d l s1 s2 -> contained d l s2 s3 -> contained d l s1 s3.
Proof.
  intros d l s1 s2 s3 (A & B & C & e1 & T1 & F1) (A' & B' & C' & e2 & T2 & F2).
  split; [congruence|]. split; [congruence|].
  split; [intros x Hx; rewrite (C' x Hx); apply C; exact Hx|].
  exists (e1 ++ e2). rewrite T2, T1, app_assoc, forallb_app, F1, F2.
  split; reflexivity.
Qed.

Lemma bind_contained :
  forall d l (A B : Type) (m : M A) (k : A -> M B) st,
    contained d l st (snd (m st)) ->
    (forall a st', m st = (Returned a, st') -> contained d l st' (snd (k a st'))) ->
    contained d l st (snd (bind m k st)).
Proof.
  intros d l A B m k st Hm Hk. unfold bind.
  destruct (m st) as [[a|c| |] st'] eqn:E; cbn [snd] in *; try exact Hm.
  apply (contained_trans d l st st'); [exact Hm|apply Hk; reflexivity].
Qed.

Lemma fprintf_contained :
  forall d l msg st, contained d l st (snd (fprintf_stderr msg st)).
Proof.
  intros d l msg st. unfold fprintf_stderr, modify. cbn.
  repeat split. exists []. rewrite app_nil_r. split; reflexivity.
Qed.

Lemma track_contained :
  forall d l addr size st, contained d l st (snd (track_allocation addr size st)).
Proof.
  intros d l addr size st. unfold track_allocation, modify. cbn.
  repeat split. exists []. rewrite app_nil_r. split; reflexivity.
Qed.

Lemma syscall_contained :
  forall d l c f st,
    (forall r, request_ok d l (Ev c r) = true) ->
    (forall x, ~ (d <= x < d + l) -> mem (snd (f (world st))) x = mem (world st) x) ->
    contained d l st (snd (syscall c f st)).
Proof.
  intros d l c f st Hc Hm. unfold syscall.
  destruct (f (world st)) as [r w]. cbn in *.
  repeat split; [exact Hm|].
  exists [Ev c r]. cbn. rewrite Hc. split; reflexivity.
Qed.

Lemma through_contained :
  forall d l handle (A : Type) (m : M A) st,
    contained d l st (snd (m st)) ->
    contained d l st (snd (through handle m st)).
Proof.
  intros d l handle A m st H. unfold through.
  destruct (handle st =? nullptr); [apply contained_refl|exact H].
Qed.

Lemma os_munmap_mem : forall addr w, mem (snd (os_munmap addr w)) = mem w.
Proof.
  intros addr w. unfold os_munmap.
  pose proof (next_answer_frame w) as (_ & _ & Hm & _).
  destruct (next_answer w) as [c w1]. cbn [snd] in Hm.
  destruct (c =? 0); cbn; exact Hm.
Qed.

Lemma os_lseek_mem :
  forall fd offset whence w, mem (snd (os_lseek fd offset whence w)) = mem w.
Proof.
  intros fd offset whence w. unfold os_lseek.
  pose proof (next_answer_frame w) as (_ & _ & Hm & _).
  destruct (next_answer w) as [c w1]. cbn [snd] in Hm.
  destruct (lookup_fd fd (fdtab w1)); cbn; [|exact Hm].
  destruct ((c =? 0) && (whence =? SEEK_SET) && (0 <=? offset)); cbn; exact Hm.
Qed.

(** A read changes memory inside its buffer only. *)
Lemma os_read_mem_outside :
  forall fd buf count w x,
    ~ (buf <= x < buf + count) ->
    mem (snd (os_read fd buf count w)) x = mem w x.
Proof.
  intros fd buf count w x Hx. unfold os_read.
  pose proof (next_answer_frame w) as (_ & _ & Hm & _).
  destruct (next_answer w) as [c w1]. cbn [snd] in Hm.
  destruct (lookup_fd fd (fdtab w1)) as [f|]; cbn; [|rewrite Hm; reflexivity].
  destruct (c <? 0) eqn:Ec; cbn; [rewrite Hm; reflexivity|].
  apply Z.ltb_ge in Ec. unfold store_bytes.
  match goal with |- (if ?b then _ else _) = _ => destruct b eqn:Eb end;
    [|rewrite Hm; reflexivity].
  exfalso. apply Hx. apply andb_true_iff in Eb as [E1 E2].
  apply Z.leb_le in E1. apply Z.ltb_lt in E2.
  rewrite length_firstn in E2. lia.
Qed.

Lemma munmap_contained :
  forall d l addr length st,
    contained d l st (snd (call_real_munmap addr length st)).
Proof.
  intros d l addr length st. unfold call_real_munmap.
  apply through_contained, syscall_contained; [reflexivity|].
  intros x _. rewrite os_munmap_mem. reflexivity.
Qed.

Lemma mmap_call_contained :
  forall d l addr length prot flags fd offset st,
    contained d l st (snd (call_real_mmap addr length prot flags fd offset st)).
Proof.
  intros d l addr length prot flags fd offset st. unfold call_real_mmap.
  apply through_contained, syscall_contained; [reflexivity|].
  intros x _. destruct (os_mmap_frame length prot (world st)) as (_ & -> & _).
  reflexivity.
Qed.

(** The copy loop stays inside the region. *)
Lemma copy_loop_contained :
  forall fd dest length fuel total_read s,
    0 <= total_read <= length -> length < 2 ^ 63 ->
    contained dest length s (snd (copy_loop fuel fd dest length total_read s)).
Proof.
  intros fd dest length fuel.
  induction fuel as [|fuel IH]; intros total_read s Ht HL;
    rewrite copy_loop_eq; rewrite (to_ssize_t_small length) by lia;
    destruct (total_read <? length) eqn:Elt; try apply contained_refl.
  apply Z.ltb_lt in Elt.
  pose proof (to_read_range length total_read (conj (proj1 Ht) Elt) HL) as Hr.
  cbn zeta in Hr |- *.
  set (to_read := if to_size_t (length - total_read) <? chunk_size
                  then to_size_t (length - total_read) else chunk_size) in *.
  assert (Hchunk : to_read <= chunk_size).
  { unfold to_read. rewrite to_size_t_small by lia.
    destruct (Z.ltb_spec (length - total_read) chunk_size); lia. }
  apply bind_contained.
  - unfold read. apply syscall_contained.
    + intros r. unfold request_ok. cbn.
      repeat (apply andb_true_iff; split);
        [apply Z.leb_le|apply Z.leb_le|apply Z.ltb_lt|apply Z.leb_le]; lia.
    + intros x Hx. apply os_read_mem_outside. lia.
  - intros n s1 Hread.
    assert (Hn : -1 <= n <= to_read).
    { unfold read, syscall in Hread.
      pose proof (os_read_at_most fd (dest + total_read) to_read (world s)
                    ltac:(lia)) as Hmost.
      destruct (os_read fd (dest + total_read) to_read (world s)) as [n' w1].
      inversion Hread. subst. exact Hmost. }
    destruct (n <=? 0) eqn:En.
    + apply bind_contained.
      * destruct (n <? 0); apply fprintf_contained.
      * intros _ s2 _. apply bind_contained; [apply munmap_contained|].
        intros _ s3 _. apply contained_refl.
    + apply Z.leb_gt in En.
      rewrite (to_ssize_t_small (total_read + n)) by lia.
      apply bind_contained.
      * destruct (Z.rem (total_read + n) (1024 * 1024 * 1024) =? 0);
          [apply fprintf_contained|apply contained_refl].
      * intros _ s2 _. apply IH; lia.
Qed.

Lemma populate_contained :
  forall fd huge_mem length prot s,
    0 <= length < 2 ^ 63 ->
    contained huge_mem length s (snd (populate fd huge_mem length prot s)).
Proof.
  intros fd huge_mem length prot s HL. unfold populate.
  apply bind_contained.
  - unfold lseek. apply syscall_contained; [reflexivity|].
    intros x _. rewrite os_lseek_mem. reflexivity.
  - intros r s1 _. destruct (negb (r =? 0)).
    + apply bind_contained; [apply fprintf_contained|].
      intros _ s2 _. apply bind_contained; [apply munmap_contained|].
      intros _ s3 _. apply contained_refl.
    + apply bind_contained.
      * rewrite (to_ssize_t_small length) by lia.
        apply copy_loop_contained; lia.
      * intros [t|] s2 _; [|apply contained_refl].
        apply bind_contained; [apply fprintf_contained|].
        intros _ s3 _. apply bind_contained.
        -- destruct (Z.land prot PROT_WRITE =? 0); [|apply contained_refl].
           apply bind_contained.
           ++ unfold mprotect. apply syscall_contained; [reflexivity|].
              intros x _. rewrite os_mprotect_mem. reflexivity.
           ++ intros r' s4 _. destruct (negb (r' =? 0));
                [apply fprintf_contained|apply contained_refl].
        -- intros _ s4 _. apply bind_contained; [apply track_contained|].
           intros _ s5 _. apply contained_refl.
Qed.

Lemma call_real_mmap_result :
  forall addr length prot flags fd offset st r st',
    call_real_mmap addr length prot flags fd offset st = (Returned r, st') ->
    os_mmap length prot (world st) = (r, world st').
Proof.
  intros addr length prot flags fd offset st r st'.
  unfold call_real_mmap, through, syscall.
  destruct (real_mmap st =? nullptr); [discriminate|].
  destruct (os_mmap length prot (world st)) as [r0 w].
  intros H. inversion H. subst. reflexivity.
Qed.

Lemma fprintf_world :
  forall msg (u : unit) st st',
    fprintf_stderr msg st = (Returned u, st') -> world st' = world st.
Proof.
  intros msg u st st' H. unfold fprintf_stderr, modify in H.
  inversion H. reflexivity.
Qed.

Lemma synthesize_contained :
  forall fd length prot s,
    0 <= length < 2 ^ 63 ->
    contained (granted_region length (world s)) length s
              (snd (synthesize fd length prot s)).
Proof.
  intros fd length prot s HL. unfold synthesize.
  apply bind_contained; [apply fprintf_contained|].
  intros u s1 Hw1. apply fprintf_world in Hw1.
  apply bind_contained; [apply mmap_call_contained|].
  intros r1 s2 H1. apply call_real_mmap_result in H1. rewrite Hw1 in H1.
  unfold granted_region. rewrite H1.
  destruct (r1 =? MAP_FAILED) eqn:F1.
  - apply bind_contained; [apply fprintf_contained|].
    intros u3 s3 Hw3. apply fprintf_world in Hw3.
    apply bind_contained; [apply mmap_call_contained|].
    intros r2 s4 H2. apply call_real_mmap_result in H2. rewrite Hw3 in H2.
    rewrite H2. cbn [fst].
    destruct (r2 =? MAP_FAILED).
    + apply bind_contained; [apply fprintf_contained|].
      intros _ s5 _. apply contained_refl.
    + apply populate_contained. exact HL.
  - apply bind_contained; [apply fprintf_contained|].
    intros _ s3 _. apply populate_contained. exact HL.
Qed.

Lemma query_contained :
  forall d l (A : Type) c (f : os -> option A) st,
    (forall r, request_ok d l (Ev c r) = true) ->
    contained d l st (snd (query c f st)).
Proof.
  intros d l A c f st Hc. unfold query. cbn.
  repeat split. eexists [_]. split; [reflexivity|]. cbn. rewrite Hc. reflexivity.
Qed.

Lemma query_result :
  forall (A : Type) c (f : os -> option A) st r st',
    query c f st = (Returned r, st') -> r = f (world st) /\ world st' = world st.
Proof.
  intros A c f st r st' H. unfold query in H. inversion H. split; reflexivity.
Qed.

Lemma classify_world :
  forall fd st hit st',
    (if 0 <=? fd then is_hugetlbfs_fd fd else ret false) st = (Returned hit, st') ->
    world st' = world st.
Proof.
  intros fd st hit st'. destruct (0 <=? fd).
  - unfold is_hugetlbfs_fd, bind, query, ret.
    destruct (os_fstatfs fd (world st)); intros H; inversion H; reflexivity.
  - unfold ret. intros H. inversion H. reflexivity.
Qed.

Lemma classify_contained :
  forall d l fd st,
    contained d l st (snd ((if 0 <=? fd then is_hugetlbfs_fd fd else ret false) st)).
Proof.
  intros d l fd st. destruct (0 <=? fd); [|apply contained_refl].
  unfold is_hugetlbfs_fd. apply bind_contained.
  - apply query_contained. reflexivity.
  - intros [ty|] s1 _; apply contained_refl.
Qed.

(** Whatever the request, what the entry point does after the resolver is
    contained in the region its anonymous request obtains. *)
Lemma mmap_contained :
  forall st o st0 addr length prot flags fd offset,
    init_functions st = (o, st0) ->
    world st0 = world st ->
    contained (granted_region length (world st)) length st0
              (snd (mmap addr length prot flags fd offset st)).
Proof.
  intros st o st0 addr length prot flags fd offset Hinit Hw.
  unfold mmap. unfold bind at 1. rewrite Hinit.
  destruct o as [[]|c| |]; try apply contained_refl.
  apply bind_contained; [apply classify_contained|].
  intros hit s1 Hhit. apply classify_world in Hhit.
  destruct hit; [|apply mmap_call_contained].
  apply bind_contained; [apply query_contained; reflexivity|].
  intros sz s2 Hq. apply query_result in Hq as [Hsz Hw2].
  destruct sz as [st_size|].
  - destruct ((offset =? 0) && (length =? to_size_t st_size)) eqn:E;
      [|apply mmap_call_contained].
    apply andb_true_iff in E as [_ E]. apply Z.eqb_eq in E.
    symmetry in Hsz. destruct (os_fstat_range _ _ _ Hsz) as [Hr _].
    rewrite to_size_t_small in E by lia.
    replace (world st) with (world s2) by congruence.
    apply synthesize_contained. lia.
  - apply bind_contained; [apply fprintf_contained|].
    intros _ s3 _. apply mmap_call_contained.
Qed.






(** X6. Every read the entry point issues asks for at least one byte and at
    most one chunk (64 MiB), into a buffer that lies inside the region
    obtained for the request. *)
Theorem reads_stay_in_region :
  forall st st0 addr length prot flags fd offset,
    init_functions st = (Returned tt, st0) ->
    exists evs,
      trace (snd (mmap addr length prot flags fd offset st)) = trace st0 ++ evs /\
      forall rfd buf count n,
        In (Ev (Read rfd buf count) n) evs ->
        granted_region length (world st) <= buf /\
        buf + count <= granted_region length (world st) + length /\
        0 < count <= 64 * 1024 * 1024.
Proof.
  intros st st0 addr length prot flags fd offset Hinit.
  destruct (init_functions_returns st st0 Hinit) as (_ & Hw & _).
  destruct (mmap_contained st _ st0 addr length prot flags fd offset Hinit Hw)
    as (_ & _ & _ & evs & Htr & Hok).
  exists evs. split; [exact Htr|].
  intros rfd buf count n Hin.
  rewrite forallb_forall in Hok. specialize (Hok _ Hin).
  unfold request_ok in Hok. cbn in Hok.
  repeat (apply andb_true_iff in Hok as [Hok ?]).
  apply Z.leb_le in Hok.
  repeat match goal with
         | H : (_ <=? _) = true |- _ => apply Z.leb_le in H
         | H : (_ <? _) = true |- _ => apply Z.ltb_lt in H
         end.
  unfold chunk_size in *. lia.
Qed.

Lemma reads_stay_in_region_witness :
  exists evs,
    trace (snd (mmap 0 4 PROT_READ MAP_PRIVATE 3 0 run_short_reads))
    = trace (snd (init_functions run_short_reads)) ++ evs /\
    forall rfd buf count n,
      In (Ev (Read rfd buf count) n) evs ->
      granted_region 4 (world run_short_reads) <= buf /\
      buf + count <= granted_region 4 (world run_short_reads) + 4 /\
      0 < count <= 64 * 1024 * 1024.
Proof.
  apply (reads_stay_in_region run_short_reads (snd (init_functions run_short_reads))
           0 4 PROT_READ MAP_PRIVATE 3 0).
  apply run_pair. vm_compute. reflexivity.
Defined.

(** ** The descriptor after a synthesis *)

Lemma os_mprotect_fdtab :
  forall addr prot w, fdtab (snd (os_mprotect addr prot w)) = fdtab w.
Proof.
  intros addr prot w. unfold os_mprotect.
  pose proof (next_answer_frame w) as (_ & Hf & _).
  destruct (next_answer w) as [c w1]. cbn [snd] in Hf.
  destruct (c =? 0); cbn; exact Hf.
Qed.

(** The copy loop, when it ends, leaves the cursor at the end of the file and
    the file as it was. *)
Lemma copy_loop_cursor :
  forall fd dest length fuel total_read s f t s',
    lookup_fd fd (fdtab (world s)) = Some f ->
    pos f = total_read ->
    file_size f = length ->
    0 <= total_read <= length -> length < 2 ^ 63 ->
    copy_loop fuel fd dest length total_read s = (Returned (Some t), s') ->
    lookup_fd fd (fdtab (world s'))
    = Some (mkFile (f_type f) (st_ok f) (data f) length).
Proof.
  intros fd dest length fuel.
  induction fuel as [|fuel IH]; intros total_read s f t s' Hf Hpos Hsize Ht HL;
    rewrite copy_loop_eq; rewrite (to_ssize_t_small length) by lia;
    destruct (total_read <? length) eqn:Elt;
    try discriminate;
    try (apply Z.ltb_ge in Elt; intros H; inversion H; subst s';
         rewrite Hf; destruct f as [ty ok bytes p]; cbn in *; f_equal; f_equal; lia).
  apply Z.ltb_lt in Elt.
  pose proof (to_read_range length total_read (conj (proj1 Ht) Elt) HL) as Hr.
  cbn zeta in Hr |- *.
  set (to_read := if to_size_t (length - total_read) <? chunk_size
                  then to_size_t (length - total_read) else chunk_size) in *.
  unfold bind at 1. unfold read, syscall.
  destruct (os_read fd (dest + total_read) to_read (world s)) as [n w1] eqn:Eread.
  destruct (n <=? 0) eqn:En.
  - intros H. exfalso. revert H. destruct (n <? 0); apply unmap_and_stop_not_some.
  - apply Z.leb_gt in En.
    destruct (os_read_delivers fd (dest + total_read) to_read (world s) f n w1 Hf
                ltac:(lia) Eread En) as (Hn1 & Hn2 & Hf' & _).
    rewrite (to_ssize_t_small (total_read + n)) by lia.
    unfold bind at 1.
    assert (Hlog : exists s2,
               (if Z.rem (total_read + n) (1024 * 1024 * 1024) =? 0
                then fprintf_stderr (InfoProgress (total_read + n) length)
                else ret tt)
                 (set_trace (trace s ++ [Ev (Read fd (dest + total_read) to_read) n])
                    (set_world w1 s)) = (Returned tt, s2) /\
               world s2 = w1).
    { destruct (Z.rem (total_read + n) (1024 * 1024 * 1024) =? 0);
        eexists; split; reflexivity. }
    destruct Hlog as (s2 & -> & Hw).
    intros Hloop.
    refine (IH (total_read + n) s2
               (mkFile (f_type f) (st_ok f) (data f) (pos f + n)) t s' _ _ _ _ HL Hloop).
    + rewrite Hw. exact Hf'.
    + cbn. lia.
    + exact Hsize.
    + lia.
Qed.

Lemma populate_cursor :
  forall fd huge_mem length prot s f out s',
    lookup_fd fd (fdtab (world s)) = Some f ->
    file_size f = length -> length < 2 ^ 63 ->
    populate fd huge_mem length prot s = (Returned out, s') ->
    out <> MAP_FAILED ->
    lookup_fd fd (fdtab (world s'))
    = Some (mkFile (f_type f) (st_ok f) (data f) length).
Proof.
  intros fd huge_mem length prot s f out s' Hf Hsize HL.
  assert (H0L : 0 <= length) by (unfold file_size in Hsize; lia).
  unfold populate. unfold bind at 1. unfold lseek, syscall.
  destruct (os_lseek fd 0 SEEK_SET (world s)) as [r w1] eqn:Eseek.
  destruct (r =? 0) eqn:Er; cbn [negb].
  - apply Z.eqb_eq in Er. subst r.
    destruct (os_lseek_rewinds fd (world s) f w1 Hf Eseek) as [Hf1 _].
    rewrite (to_ssize_t_small length) by lia.
    unfold bind at 1.
    match goal with |- context [copy_loop ?n fd huge_mem length 0 ?s1] =>
      destruct (copy_loop n fd huge_mem length 0 s1) as [[[t|]| | |] s2] eqn:Eloop end;
      try discriminate.
    + assert (Hcur : lookup_fd fd (fdtab (world s2))
                     = Some (mkFile (f_type f) (st_ok f) (data f) length)).
      { refine (copy_loop_cursor fd huge_mem length _ 0 _
                  (mkFile (f_type f) (st_ok f) (data f) 0) t s2 _ _ _ _ HL Eloop);
          try exact Hf1; try exact Hsize; try reflexivity; lia. }
      unfold bind, fprintf_stderr, modify, mprotect, syscall, track_allocation, ret.
      cbn.
      destruct (Z.land prot PROT_WRITE =? 0); cbn.
      * pose proof (os_mprotect_fdtab huge_mem prot (world s2)) as Hm.
        destruct (os_mprotect huge_mem prot (world s2)) as [r w3]. cbn [snd] in Hm.
        destruct (r =? 0); cbn; intros H; inversion H; subst; cbn;
          rewrite Hm; intros _; exact Hcur.
      * intros H; inversion H; subst; cbn. intros _; exact Hcur.
    + unfold ret. intros H. inversion H. congruence.
  - unfold bind, fprintf_stderr, modify, call_real_munmap, through, syscall, ret. cbn.
    destruct (real_munmap s =? nullptr); [discriminate|].
    destruct (os_munmap huge_mem w1). intros H. inversion H. congruence.
Qed.

(** X7. A synthesis is not invisible on the descriptor: when the entry point
    returns a synthesized region, the descriptor's read cursor, wherever it
    was, stands at the end of the file (a native mapping would not move it);
    the file's bytes and attributes are as before. *)
Theorem synthesis_leaves_cursor_at_end :
  forall st st0 addr length prot flags fd offset f a st',
    init_functions st = (Returned tt, st0) ->
    activates (world st) fd length offset = true ->
    lookup_fd fd (fdtab (world st)) = Some f ->
    mmap addr length prot flags fd offset st = (Returned a, st') ->
    a <> MAP_FAILED ->
    lookup_fd fd (fdtab (world st'))
    = Some (mkFile (f_type f) (st_ok f) (data f) (Z.of_nat (List.length (data f)))).
Proof.
  intros st st0 addr length prot flags fd offset f a st' Hinit Hact Hf Hm Ha.
  destruct (activates_true _ _ _ _ Hact) as (_ & _ & _ & Hstat & HL).
  destruct (os_fstat_range _ _ _ Hstat) as (_ & f' & Hf' & Hsize).
  rewrite Hf in Hf'. inversion Hf'. subst f'. clear Hf'.
  destruct (mmap_activated_run st st0 addr length prot flags fd offset Hinit Hact)
    as (out & st1 & huge_mem & walloc & aevs & rest & Hrun & _ & Hal & _ & Hcases).
  rewrite Hrun in Hm. inversion Hm. subst out st1. clear Hm.
  destruct Hcases as [(_ & Ho & _)|(Hne & s1 & Hw & _ & _ & Hpop & Hp)]; [contradiction|].
  destruct (allocation_granted _ _ _ _ _ Hal Hne) as (_ & _ & Hfd & _).
  replace (Z.of_nat (List.length (data f))) with length by exact (eq_sym Hsize).
  apply (populate_cursor fd huge_mem length prot s1 f a st'); auto; try lia.
  rewrite Hw, Hfd. exact Hf.
Qed.

Lemma synthesis_leaves_cursor_at_end_witness :
  lookup_fd 3 (fdtab (world (snd (mmap 0 4 PROT_READ MAP_PRIVATE 3 0 run_short_reads))))
  = Some (mkFile (f_type (hugetlbfs_file abcd)) (st_ok (hugetlbfs_file abcd))
                 (data (hugetlbfs_file abcd))
                 (Z.of_nat (List.length (data (hugetlbfs_file abcd))))).
Proof.
  apply (synthesis_leaves_cursor_at_end
           run_short_reads (snd (init_functions run_short_reads))
           0 4 PROT_READ MAP_PRIVATE 3 0 (hugetlbfs_file abcd) 0x5000
           (snd (mmap 0 4 PROT_READ MAP_PRIVATE 3 0 run_short_reads))).
  - apply run_pair. vm_compute. reflexivity.
  - vm_compute. reflexivity.
  - vm_compute. reflexivity.
  - apply run_pair. vm_compute. reflexivity.
  - unfold MAP_FAILED. lia.
Defined.

(** ** Mapping, then unmapping *)

(** Any state, any record: the record found for the address is taken out of
    the list, and the length that goes to the real munmap is the recorded
    size when that is positive and the caller's length otherwise. *)
Lemma munmap_tracked_run :
  forall st st0 addr length before size after,
    init_functions st = (Returned tt, st0) ->
    allocations st = before ++ mkAlloc addr size :: after ->
    Forall (fun a => alloc_addr a <> addr) before ->
    exists r st',
      munmap addr length st = (Returned r, st') /\
      trace st' = trace st0 ++ [Ev (Munmap addr (if 0 <? size then size else length)) r] /\
      (r, world st') = os_munmap addr (world st) /\
      allocations st' = before ++ after /\
      heap_records st' = pred (heap_records st).
Proof.
  intros st st0 addr length before size after Hinit Hl Hb.
  destruct (init_functions_returns st st0 Hinit) as ([_ Hu] & Hw & Ha & Hh & _).
  unfold munmap. unfold bind at 1. rewrite Hinit.
  unfold bind at 1. unfold untrack_allocation.
  rewrite Ha, Hl, (unlink_found addr before size after Hb).
  destruct (0 <? size).
  - unfold bind, fprintf_stderr, modify.
    match goal with |- context [call_real_munmap addr size ?s] =>
      destruct (call_real_munmap_run addr size s Hu)
        as (r & s' & Hrun & Htr & Hos & Hal & Hhe & _) end.
    exists r, s'. split; [exact Hrun|]. split; [exact Htr|].
    cbn in Hos, Hal, Hhe. rewrite Hw in Hos. rewrite Hh in Hhe. auto.
  - match goal with |- context [call_real_munmap addr length ?s] =>
      destruct (call_real_munmap_run addr length s Hu)
        as (r & s' & Hrun & Htr & Hos & Hal & Hhe & _) end.
    exists r, s'. split; [exact Hrun|]. split; [exact Htr|].
    cbn in Hos, Hal, Hhe. rewrite Hw in Hos. rewrite Hh in Hhe. auto.
Qed.

(** X8. A region obtained from the entry point by synthesis and given back
    to munmap, with whatever length, is unmapped over the length it was
    mapped with, and the registry is then what it was before the mapping:
    the two entry points are inverse to each other on the registry. *)
Theorem mmap_then_munmap_round_trip :
  forall st st0 addr length prot flags fd offset a st1 any_length,
    init_functions st = (Returned tt, st0) ->
    activates (world st) fd length offset = true ->
    mmap addr length prot flags fd offset st = (Returned a, st1) ->
    a <> MAP_FAILED ->
    exists r st2,
      munmap a any_length st1 = (Returned r, st2) /\
      trace st2 = trace st1 ++ [Ev (Munmap a length) r] /\
      allocations st2 = allocations st /\
      heap_records st2 = heap_records st.
Proof.
  intros st st0 addr length prot flags fd offset a st1 any_length Hinit Hact Hm Ha.
  destruct (mmap_activated_run st st0 addr length prot flags fd offset Hinit Hact)
    as (out & st' & huge_mem & walloc & aevs & rest & Hrun & _ & Hal & Hb & Hcases).
  rewrite Hrun in Hm. inversion Hm. subst out st'. clear Hm.
  destruct Hcases as [(_ & Ho & _)|(Hne & s1 & _ & Hal1 & Hh1 & _ & Hp)]; [contradiction|].
  destruct (allocation_granted _ _ _ _ _ Hal Hne) as (Hpos & _).
  destruct Hp as [(Ho & Hrec & Hheap & _)|(Ho & _)]; [|contradiction].
  subst a.
  destruct (munmap_tracked_run st1 st1 huge_mem any_length [] length (allocations s1)
              (init_functions_bound_noop st1 Hb) Hrec (Forall_nil _))
    as (r & st2 & Hrun2 & Htr & _ & Hal2 & Hh2).
  apply Z.ltb_lt in Hpos. rewrite Hpos in Htr.
  exists r, st2. split; [exact Hrun2|]. split; [exact Htr|].
  split; [rewrite Hal2; exact Hal1|]. rewrite Hh2, Hheap. cbn. exact Hh1.
Qed.

Lemma mmap_then_munmap_round_trip_witness :
  exists r st2,
    munmap 0x5000 1 (snd (mmap 0 4 PROT_READ MAP_PRIVATE 3 0 run_short_reads))
    = (Returned r, st2) /\
    trace st2 = trace (snd (mmap 0 4 PROT_READ MAP_PRIVATE 3 0 run_short_reads))
                ++ [Ev (Munmap 0x5000 4) r] /\
    allocations st2 = allocations run_short_reads /\
    heap_records st2 = heap_records run_short_reads.
Proof.
  apply (mmap_then_munmap_round_trip
           run_short_reads (snd (init_functions run_short_reads))
           0 4 PROT_READ MAP_PRIVATE 3 0 0x5000
           (snd (mmap 0 4 PROT_READ MAP_PRIVATE 3 0 run_short_reads)) 1).
  - apply run_pair. vm_compute. reflexivity.
  - vm_compute. reflexivity.
  - apply run_pair. vm_compute. reflexivity.
  - unfold MAP_FAILED. lia.
Defined.

(** X9. In any state, not only those the library reaches, the unmapping entry
    point makes one call, the real munmap of the caller's address, and
    returns its result. With a record for the address, the first such record
    is taken out of the list, and the length passed is the recorded size when
    that is positive; a recorded size of 0 is what untrack_allocation also
    returns for an address it does not find, so then the record is still
    taken out and the caller's length is passed. Without a record the
    caller's length is passed and the list is as before. *)
Theorem munmap_length_by_recorded_size :
  forall st st0 addr length,
    init_functions st = (Returned tt, st0) ->
    (forall before size after,
        allocations st = before ++ mkAlloc addr size :: after ->
        Forall (fun a => alloc_addr a <> addr) before ->
        exists r st',
          munmap addr length st = (Returned r, st') /\
          trace st' = trace st0
                      ++ [Ev (Munmap addr (if 0 <? size then size else length)) r] /\
          (r, world st') = os_munmap addr (world st) /\
          allocations st' = before ++ after) /\
    (Forall (fun a => alloc_addr a <> addr) (allocations st) ->
     exists r st',
       munmap addr length st = (Returned r, st') /\
       trace st' = trace st0 ++ [Ev (Munmap addr length) r] /\
       (r, world st') = os_munmap addr (world st) /\
       allocations st' = allocations st).
Proof.
  intros st st0 addr length Hinit. split.
  - intros before size after Hl Hb.
    destruct (munmap_tracked_run st st0 addr length before size after Hinit Hl Hb)
      as (r & st' & Hrun & Htr & Hos & Hal & _).
    exists r, st'. auto.
  - intros Hmiss.
    destruct (init_functions_returns st st0 Hinit) as ([_ Hu] & Hw & Ha & _).
    unfold munmap. unfold bind at 1. rewrite Hinit.
    unfold bind at 1. unfold untrack_allocation.
    rewrite Ha, (unlink_missing addr _ Hmiss). cbn [Z.ltb Z.compare].
    destruct (call_real_munmap_run addr length st0 Hu)
      as (r & s' & Hrun & Htr & Hos & Hal & _).
    exists r, s'. split; [exact Hrun|]. split; [exact Htr|].
    rewrite Hw in Hos. rewrite Ha in Hal. auto.
Qed.

Lemma munmap_length_by_recorded_size_witness :
  (exists r st',
      munmap 0x5000 4096 zero_size_record = (Returned r, st') /\
      trace st' = trace zero_size_record
                  ++ [Ev (Munmap 0x5000 (if 0 <? 0 then 0 else 4096)) r] /\
      (r, world st') = os_munmap 0x5000 (world zero_size_record) /\
      allocations st' = [] ++ []) /\
  (exists r st',
      munmap 0x7000 4096 zero_size_record = (Returned r, st') /\
      trace st' = trace zero_size_record ++ [Ev (Munmap 0x7000 4096) r] /\
      (r, world st') = os_munmap 0x7000 (world zero_size_record) /\
      allocations st' = allocations zero_size_record).
Proof.
  assert (Hinit : init_functions zero_size_record = (Returned tt, zero_size_record))
    by (vm_compute; reflexivity).
  split.
  - apply (proj1 (munmap_length_by_recorded_size
                    zero_size_record zero_size_record 0x5000 4096 Hinit) [] 0 []);
      [reflexivity|constructor].
  - apply (proj2 (munmap_length_by_recorded_size
                    zero_size_record zero_size_record 0x7000 4096 Hinit)).
    vm_compute. repeat constructor; discriminate.
Defined.

(** ** Requests that are passed through *)

Lemma call_real_mmap_run :
  forall addr length prot flags fd offset s,
    real_mmap s <> nullptr ->
    exists r s',
      call_real_mmap addr length prot flags fd offset s = (Returned r, s') /\
      trace s' = trace s ++ [Ev (Mmap addr length prot flags fd offset) r] /\
      (r, world s') = os_mmap length prot (world s) /\
      stderr s' = stderr s.
Proof.
  intros addr length prot flags fd offset s H.
  unfold call_real_mmap, through, syscall.
  apply Z.eqb_neq in H. rewrite H.
  destruct (os_mmap length prot (world s)) as [r w].
  eexists r, _. repeat split.
Qed.

(** X10. What a passed-through request costs and shows. A negative
    descriptor (an anonymous mapping) reaches the real mmap with no query
    before it. A descriptor that is not on hugetlbfs costs one fstatfs. A
    hugetlbfs descriptor mapped in part costs fstatfs and fstat. In these
    three cases nothing is written to stderr. Only when fstat fails on a
    hugetlbfs descriptor is a warning written, and the request still goes
    to the real mmap. *)
Theorem passthrough_queries_and_diagnostics :
  forall st st0 addr length prot flags fd offset,
    init_functions st = (Returned tt, st0) ->
    (fd < 0 ->
     exists r st',
       mmap addr length prot flags fd offset st = (Returned r, st') /\
       trace st' = trace st0 ++ [Ev (Mmap addr length prot flags fd offset) r] /\
       stderr st' = stderr st) /\
    (0 <= fd -> hugetlbfs_member (world st) fd = false ->
     exists q r st',
       mmap addr length prot flags fd offset st = (Returned r, st') /\
       trace st' = trace st0 ++ [Ev (Fstatfs fd) q;
                                 Ev (Mmap addr length prot flags fd offset) r] /\
       stderr st' = stderr st) /\
    (0 <= fd -> hugetlbfs_member (world st) fd = true ->
     forall st_size,
       os_fstat fd (world st) = Some st_size ->
       offset <> 0 \/ length <> to_size_t st_size ->
       exists r st',
         mmap addr length prot flags fd offset st = (Returned r, st') /\
         trace st' = trace st0 ++ [Ev (Fstatfs fd) 0; Ev (Fstat fd) 0;
                                   Ev (Mmap addr length prot flags fd offset) r] /\
         stderr st' = stderr st) /\
    (0 <= fd -> hugetlbfs_member (world st) fd = true ->
     os_fstat fd (world st) = None ->
     exists r st',
       mmap addr length prot flags fd offset st = (Returned r, st') /\
       trace st' = trace st0 ++ [Ev (Fstatfs fd) 0; Ev (Fstat fd) (-1);
                                 Ev (Mmap addr length prot flags fd offset) r] /\
       stderr st' = stderr st ++ [WarnStat fd]).
Proof.
  intros st st0 addr length prot flags fd offset Hinit.
  destruct (init_functions_returns st st0 Hinit) as ([Hm _] & Hw & _ & _ & Herr & _).
  assert (Hbody : mmap addr length prot flags fd offset st
                  = (hit <- (if 0 <=? fd then is_hugetlbfs_fd fd else ret false) ;;
                     if hit then
                       sz <- query (Fstat fd) (os_fstat fd) ;;
                       match sz with
                       | None =>
                           fprintf_stderr (WarnStat fd) ;;;
                           call_real_mmap addr length prot flags fd offset
                       | Some st_size =>
                           if (offset =? 0) && (length =? to_size_t st_size)
                           then synthesize fd length prot
                           else call_real_mmap addr length prot flags fd offset
                       end
                     else call_real_mmap addr length prot flags fd offset) st0)
    by (unfold mmap; unfold bind at 1; rewrite Hinit; reflexivity).
  rewrite Hbody. clear Hbody.
  split; [|split; [|split]].
  - intros Hfd. apply Z.leb_gt in Hfd. rewrite Hfd. unfold bind at 1, ret.
    destruct (call_real_mmap_run addr length prot flags fd offset st0 Hm)
      as (r & s' & Hrun & Htr & _ & He).
    exists r, s'. split; [exact Hrun|]. split; [exact Htr|congruence].
  - intros Hfd Hmem. apply Z.leb_le in Hfd. rewrite Hfd.
    unfold is_hugetlbfs_fd, query, bind at 1 2, ret. rewrite Hw.
    unfold hugetlbfs_member in Hmem.
    assert (Hsel : forall q,
               exists r st',
                 call_real_mmap addr length prot flags fd offset
                   (set_trace (trace st0 ++ [Ev (Fstatfs fd) q]) st0)
                 = (Returned r, st') /\
                 trace st' = trace st0 ++ [Ev (Fstatfs fd) q;
                                           Ev (Mmap addr length prot flags fd offset) r] /\
                 stderr st' = stderr st).
    { intros q.
      destruct (call_real_mmap_run addr length prot flags fd offset
                  (set_trace (trace st0 ++ [Ev (Fstatfs fd) q]) st0) Hm)
        as (r & s' & Hrun & Htr & _ & He).
      exists r, s'. split; [exact Hrun|].
      split; [rewrite Htr; cbn; rewrite <- app_assoc; reflexivity|].
      cbn in He. congruence. }
    destruct (os_fstatfs fd (world st)) as [ty|].
    + rewrite Hmem. destruct (Hsel 0) as (r & s' & H). exists 0, r, s'. exact H.
    + destruct (Hsel (-1)) as (r & s' & H). exists (-1), r, s'. exact H.
  - intros Hfd Hmem st_size Hstat Hpart. apply Z.leb_le in Hfd. rewrite Hfd.
    unfold is_hugetlbfs_fd, query, bind at 1 2, ret. rewrite Hw.
    unfold hugetlbfs_member in Hmem.
    destruct (os_fstatfs fd (world st)) as [ty|]; [|discriminate].
    rewrite Hmem. unfold bind at 1. cbn [world set_trace trace]. rewrite Hw, Hstat.
    assert (E : (offset =? 0) && (length =? to_size_t st_size) = false).
    { destruct Hpart as [H|H]; apply Z.eqb_neq in H; rewrite H;
        [reflexivity|apply andb_false_r]. }
    rewrite E.
    match goal with |- context [call_real_mmap _ _ _ _ _ _ ?s] =>
      destruct (call_real_mmap_run addr length prot flags fd offset s Hm)
        as (r & s' & Hrun & Htr & _ & He) end.
    exists r, s'. split; [exact Hrun|].
    split; [rewrite Htr; cbn; repeat (rewrite <- app_assoc; cbn [app]); reflexivity|].
    cbn in He. congruence.
  - intros Hfd Hmem Hstat. apply Z.leb_le in Hfd. rewrite Hfd.
    unfold is_hugetlbfs_fd, query, bind at 1 2, ret. rewrite Hw.
    unfold hugetlbfs_member in Hmem.
    destruct (os_fstatfs fd (world st)) as [ty|]; [|discriminate].
    rewrite Hmem. unfold bind at 1. cbn [world set_trace trace]. rewrite Hw, Hstat.
    unfold bind, fprintf_stderr, modify.
    match goal with |- context [call_real_mmap _ _ _ _ _ _ ?s] =>
      destruct (call_real_mmap_run addr length prot flags fd offset s Hm)
        as (r & s' & Hrun & Htr & _ & He) end.
    exists r, s'. split; [exact Hrun|].
    split; [rewrite Htr; cbn; repeat (rewrite <- app_assoc; cbn [app]); reflexivity|].
    cbn in He. congruence.
Qed.

Lemma passthrough_queries_and_diagnostics_witness :
  (exists r st',
      mmap 0 4096 3 0x22 (-1) 0 (fresh (demo_os [0x5000])) = (Returned r, st') /\
      trace st' = trace (snd (init_functions (fresh (demo_os [0x5000]))))
                  ++ [Ev (Mmap 0 4096 3 0x22 (-1) 0) r] /\
      stderr st' = stderr (fresh (demo_os [0x5000]))) /\
  (exists q r st',
      mmap 0 4 1 2 4 0 (fresh (demo_os [0x5000])) = (Returned r, st') /\
      trace st' = trace (snd (init_functions (fresh (demo_os [0x5000]))))
                  ++ [Ev (Fstatfs 4) q; Ev (Mmap 0 4 1 2 4 0) r] /\
      stderr st' = stderr (fresh (demo_os [0x5000]))) /\
  (exists r st',
      mmap 0 2 1 2 3 0 (fresh (demo_os [0x5000])) = (Returned r, st') /\
      trace st' = trace (snd (init_functions (fresh (demo_os [0x5000]))))
                  ++ [Ev (Fstatfs 3) 0; Ev (Fstat 3) 0; Ev (Mmap 0 2 1 2 3 0) r] /\
      stderr st' = stderr (fresh (demo_os [0x5000]))) /\
  (exists r st',
      mmap 0 4 1 2 5 0 (fresh unstattable_os) = (Returned r, st') /\
      trace st' = trace (snd (init_functions (fresh unstattable_os)))
                  ++ [Ev (Fstatfs 5) 0; Ev (Fstat 5) (-1); Ev (Mmap 0 4 1 2 5 0) r] /\
      stderr st' = stderr (fresh unstattable_os) ++ [WarnStat 5]).
Proof.
  assert (H1 : init_functions (fresh (demo_os [0x5000]))
               = (Returned tt, snd (init_functions (fresh (demo_os [0x5000])))))
    by (apply run_pair; vm_compute; reflexivity).
  assert (H2 : init_functions (fresh unstattable_os)
               = (Returned tt, snd (init_functions (fresh unstattable_os))))
    by (apply run_pair; vm_compute; reflexivity).
  split; [|split; [|split]].
  - apply (proj1 (passthrough_queries_and_diagnostics
                    (fresh (demo_os [0x5000])) _ 0 4096 3 0x22 (-1) 0 H1)). lia.
  - apply (proj1 (proj2 (passthrough_queries_and_diagnostics
                           (fresh (demo_os [0x5000])) _ 0 4 1 2 4 0 H1)));
      [lia|vm_compute; reflexivity].
  - apply (proj1 (proj2 (proj2 (passthrough_queries_and_diagnostics
                                  (fresh (demo_os [0x5000])) _ 0 2 1 2 3 0 H1)))
             ltac:(lia) ltac:(vm_compute; reflexivity) 4);
      [vm_compute; reflexivity|right; vm_compute; discriminate].
  - apply (proj2 (proj2 (proj2 (passthrough_queries_and_diagnostics
                                  (fresh unstattable_os) _ 0 4 1 2 5 0 H2))));
      [lia|vm_compute; reflexivity|vm_compute; reflexivity].
Defined.

(** ** The constructor *)

(** X11. The constructor writes its identification line and then either
    returns with both handles bound or ends the process with status 1; it
    ends the process exactly when a handle is unbound and its symbol cannot
    be found. It touches neither the registry nor the world. *)
Theorem constructor_binds_or_exits :
  forall st,
    (fst (init st) = Exited 1 <-> unresolvable st) /\
    (fst (init st) = Returned tt <-> ~ unresolvable st) /\
    (~ unresolvable st -> bound (snd (init st))) /\
    allocations (snd (init st)) = allocations st /\
    world (snd (init st)) = world st /\
    exists rest, stderr (snd (init st)) = stderr st ++ InfoLibraryLoaded :: rest.
Proof.
  intros st. unfold init, unresolvable, bound. unfold bind at 1.
  unfold fprintf_stderr, modify. run_init.
  repeat (cbn; match goal with
               | |- context [?a =? nullptr] => destruct (Z.eqb_spec a nullptr)
               end);
    cbn;
    (split; [split; intros; try discriminate; intuition congruence|]);
    (split; [split; intros; try discriminate; try reflexivity; intuition congruence|]);
    (split; [intros; try (split; assumption); intuition congruence|]);
    (split; [reflexivity|]); (split; [reflexivity|]);
    eexists; rewrite <- ?app_assoc; cbn [app]; reflexivity.
Qed.

Lemma constructor_binds_or_exits_witness :
  bound (snd (init (fresh (demo_os [])))).
Proof.
  apply (proj1 (proj2 (proj2 (constructor_binds_or_exits (fresh (demo_os [])))))).
  unfold unresolvable. vm_compute. intros [[_ H]|[_ H]]; discriminate.
Defined.

(** ** More about the states the library can be in *)

Lemma mmap_record :
  forall addr length prot flags fd offset st,
    allocations (snd (mmap addr length prot flags fd offset st)) = allocations st
    \/
    (exists a,
        fst (mmap addr length prot flags fd offset st) = Returned a /\
        a <> MAP_FAILED /\
        0 < length < 2 ^ 63 /\
        allocations (snd (mmap addr length prot flags fd offset st))
        = mkAlloc a length :: allocations st).
Proof.
  intros addr length prot flags fd offset st.
  destruct (init_functions st) as [o st0] eqn:Hinit.
  pose proof (init_functions_frame st) as (Ha & _ & Ho).
  rewrite Hinit in Ha, Ho. cbn [fst snd] in Ha, Ho.
  destruct Ho as [-> | ->].
  - destruct (activates (world st) fd length offset) eqn:Hact.
    + destruct (activates_true _ _ _ _ Hact) as (_ & _ & _ & _ & HL).
      destruct (mmap_activated_run st st0 addr length prot flags fd offset Hinit Hact)
        as (out & st' & huge_mem & walloc & aevs & rest & Hrun & _ & Hal & _ & Hcases).
      rewrite Hrun. cbn [fst snd].
      destruct Hcases as [(_ & _ & _ & A & _)|(Hne & s1 & _ & A & _ & _ & Hp)];
        [left; exact A|].
      destruct (allocation_granted _ _ _ _ _ Hal Hne) as (Hpos & _).
      destruct Hp as [(Ho & A' & _)|(_ & A' & _)].
      * right. exists huge_mem. subst out. rewrite A', A.
        repeat split; try assumption; lia.
      * left. congruence.
    + destruct (mmap_not_activated st st0 addr length prot flags fd offset Hinit Hact)
        as (r & st' & queries & Hrun & _ & _ & _ & A & _).
      rewrite Hrun. left. exact A.
  - left.
    assert (E : mmap addr length prot flags fd offset st = (Exited 1, st0))
      by (unfold mmap; unfold bind at 1; rewrite Hinit; reflexivity).
    rewrite E. exact Ha.
Qed.

Lemma munmap_keeps_records :
  forall (P : HugePageAllocation -> Prop) addr length st,
    Forall P (allocations st) ->
    Forall P (allocations (snd (munmap addr length st))).
Proof.
  intros P addr length st HP.
  destruct (init_functions st) as [o st0] eqn:Hinit.
  pose proof (init_functions_frame st) as (Ha & _ & Ho).
  rewrite Hinit in Ha, Ho. cbn [fst snd] in Ha, Ho.
  assert (E : munmap addr length st
              = match o with
                | Returned _ =>
                    (tracked_size <- untrack_allocation addr ;;
                     if 0 <? tracked_size then
                       fprintf_stderr (InfoUnmap tracked_size) ;;;
                       call_real_munmap addr tracked_size
                     else call_real_munmap addr length) st0
                | Exited c => (Exited c, st0)
                | Crashed => (Crashed, st0)
                | OutOfFuel => (OutOfFuel, st0)
                end)
    by (unfold munmap; unfold bind at 1; rewrite Hinit; reflexivity).
  rewrite E. clear E.
  destruct Ho as [-> | ->]; [|cbn [snd]; congruence].
  unfold bind at 1. unfold untrack_allocation. rewrite Ha.
  assert (Hframe : forall a l s,
             allocations (snd (call_real_munmap a l s)) = allocations s).
  { intros a l s. unfold call_real_munmap, through, syscall.
    destruct (real_munmap s =? nullptr); [reflexivity|].
    destruct (os_munmap a (world s)); reflexivity. }
  destruct (unlink addr (allocations st)) as [[size rest]|] eqn:Eu.
  - destruct (unlink_some _ _ _ _ Eu) as (before & after & El & Er & _).
    assert (Hrest : Forall P rest).
    { rewrite El in HP. subst rest. apply Forall_app in HP as [Hb Hc].
      inversion Hc. apply Forall_app. auto. }
    destruct (0 <? size).
    + unfold bind, fprintf_stderr, modify. rewrite Hframe. exact Hrest.
    + rewrite Hframe. exact Hrest.
  - cbn [Z.ltb Z.compare]. rewrite Hframe, Ha. exact HP.
Qed.

(** X12. In every state the library can be in, each record of the registry
    holds an address other than MAP_FAILED and a size that is positive and
    fits ssize_t, and exactly one heap node is live per record. *)
Theorem registry_records_are_well_formed :
  forall st,
    reachable st ->
    Forall (fun r => alloc_addr r <> MAP_FAILED /\ 0 < alloc_size r < 2 ^ 63)
           (allocations st) /\
    heap_records st = List.length (allocations st).
Proof.
  intros st H. split; [|apply (reachable_registry_ok st H)].
  induction H as [w|st _ IH|st r _ IH|st _ IH|st w _ IH].
  - constructor.
  - unfold init, bind, fprintf_stderr, modify.
    match goal with |- Forall _ (allocations (snd (init_functions ?s))) =>
      pose proof (init_functions_frame s) as (A & _) end.
    rewrite A. exact IH.
  - destruct r as [addr length prot flags fd offset|addr length]; cbn [serve].
    + destruct (mmap_record addr length prot flags fd offset st)
        as [A|(a & _ & Ha & HL & A)]; rewrite A; [exact IH|].
      constructor; [cbn; split; assumption|exact IH].
    + apply munmap_keeps_records. exact IH.
  - unfold cleanup, modify. cbn [snd]. rewrite drain_all. constructor.
  - exact IH.
Qed.

Lemma registry_records_are_well_formed_witness :
  Forall (fun r => alloc_addr r <> MAP_FAILED /\ 0 < alloc_size r < 2 ^ 63)
         (allocations after_mapping) /\
  heap_records after_mapping = List.length (allocations after_mapping).
Proof.
  apply (registry_records_are_well_formed after_mapping).
  apply reachable_serve, reachable_init, reachable_fresh.
Defined.

(** X13. The destructor forgets the true sizes: a region unmapped after it
    ran is unmapped with the length the caller gives, whatever the registry
    held before. *)
Theorem munmap_after_cleanup_uses_caller_length :
  forall st addr length,
    bound st ->
    exists r st',
      munmap addr length (snd (cleanup st)) = (Returned r, st') /\
      trace st' = trace st ++ [Ev (Munmap addr length) r] /\
      allocations st' = [].
Proof.
  intros st addr length [Hm Hu].
  unfold cleanup, modify. rewrite drain_all. cbn [snd].
  match goal with |- context [munmap addr length ?s] => set (s1 := s) end.
  assert (Hb : bound s1) by (split; assumption).
  unfold munmap. unfold bind at 1. rewrite (init_functions_bound_noop s1 Hb).
  unfold bind at 1. unfold untrack_allocation. cbn [allocations s1 set_heap_records
    set_allocations unlink Z.ltb Z.compare].
  destruct (call_real_munmap_run addr length s1 Hu)
    as (r & s' & Hrun & Htr & _ & Hal & _).
  exists r, s'. split; [exact Hrun|]. split; [exact Htr|exact Hal].
Qed.

Lemma munmap_after_cleanup_uses_caller_length_witness :
  exists r st',
    munmap 0x5000 1 (snd (cleanup after_mapping)) = (Returned r, st') /\
    trace st' = trace after_mapping ++ [Ev (Munmap 0x5000 1) r] /\
    allocations st' = [].
Proof.
  apply (munmap_after_cleanup_uses_caller_length after_mapping 0x5000 1).
  split; vm_compute; lia.
Defined.

(** ** Every interleaving of two insertions *)

Lemma race_states_closed :
  forall h a1 s1 a2 s2 c t,
    In c (race_states h a1 s1 a2 s2) ->
    In (Interleaving.schedule c t) (race_states h a1 s1 a2 s2).
Proof.
  intros h a1 s1 a2 s2 c t H. unfold race_states in *. cbn in H.
  repeat (destruct H as [<-|H]; [destruct t; cbn; tauto|]).
  contradiction.
Qed.

Lemma race_states_run :
  forall h a1 s1 a2 s2 order c,
    In c (race_states h a1 s1 a2 s2) ->
    In (Interleaving.run order c) (race_states h a1 s1 a2 s2).
Proof.
  intros h a1 s1 a2 s2 order. unfold Interleaving.run.
  induction order as [|t order IH]; intros c H; cbn [fold_left]; [exact H|].
  apply IH, race_states_closed, H.
Qed.

(** X14. Two threads inserting at once, under every order of their steps:
    the records that were in the list stay at its end, in order; and when
    both threads have finished the list has gained either both records or
    only one of them, never none. *)
Theorem insertions_race_loses_at_most_one :
  forall order h a1 s1 a2 s2,
    (exists top,
        Interleaving.head (Interleaving.run order (Interleaving.start h a1 s1 a2 s2))
        = top ++ h) /\
    (Interleaving.first (Interleaving.run order (Interleaving.start h a1 s1 a2 s2))
     = Interleaving.Finished ->
     Interleaving.second (Interleaving.run order (Interleaving.start h a1 s1 a2 s2))
     = Interleaving.Finished ->
     In (Interleaving.head
           (Interleaving.run order (Interleaving.start h a1 s1 a2 s2)))
        [ mkAlloc a2 s2 :: mkAlloc a1 s1 :: h;
          mkAlloc a1 s1 :: mkAlloc a2 s2 :: h;
          mkAlloc a1 s1 :: h;
          mkAlloc a2 s2 :: h ]).
Proof.
  intros order h a1 s1 a2 s2.
  assert (H : In (Interleaving.run order (Interleaving.start h a1 s1 a2 s2))
                 (race_states h a1 s1 a2 s2))
    by (apply race_states_run; left; reflexivity).
  destruct (Interleaving.run order (Interleaving.start h a1 s1 a2 s2)) as [hd t1 t2].
  unfold race_states in H. cbn in H. cbn [Interleaving.head Interleaving.first
    Interleaving.second].
  repeat (destruct H as [H|H];
          [inversion H; subst; clear H;
           (split;
            [first [exists []; reflexivity | eexists [_]; reflexivity
                   | eexists [_; _]; reflexivity]
            |intros; try discriminate; cbn; tauto])|]).
  contradiction.
Qed.

Lemma insertions_race_loses_at_most_one_witness :
  In (Interleaving.head racy_insertions)
     [ mkAlloc 0x9000 8192 :: mkAlloc 0x5000 4096 :: [];
       mkAlloc 0x5000 4096 :: mkAlloc 0x9000 8192 :: [];
       mkAlloc 0x5000 4096 :: [];
       mkAlloc 0x9000 8192 :: [] ].
Proof.
  apply (proj2 (insertions_race_loses_at_most_one
                  [Interleaving.T1; Interleaving.T2; Interleaving.T1; Interleaving.T2]
                  [] 0x5000 4096 0x9000 8192)); reflexivity.
Defined.

(** ** Edge cases of the entry points *)

Lemma os_mmap_zero_length :
  forall prot w, fst (os_mmap 0 prot w) = MAP_FAILED.
Proof.
  intros prot w. unfold os_mmap. destruct (next_answer w) as [c w1]. reflexivity.
Qed.

(** X15. An empty file on hugetlbfs, mapped whole (length 0): the engine is
    activated, both anonymous requests are made with length 0 and refused,
    and the entry point returns MAP_FAILED; the file is neither sought nor
    read and nothing is recorded. *)
Theorem empty_file_mapping_fails :
  forall st st0 addr prot flags fd offset,
    init_functions st = (Returned tt, st0) ->
    activates (world st) fd 0 offset = true ->
    exists st',
      mmap addr 0 prot flags fd offset st = (Returned MAP_FAILED, st') /\
      trace st' = trace st0 ++ queries_made fd
                  ++ [Ev (huge_request 0) MAP_FAILED; Ev (anon_request 0) MAP_FAILED] /\
      allocations st' = allocations st /\
      fdtab (world st') = fdtab (world st).
Proof.
  intros st st0 addr prot flags fd offset Hinit Hact.
  destruct (mmap_activated_run st st0 addr 0 prot flags fd offset Hinit Hact)
    as (out & st' & huge_mem & walloc & aevs & rest & Hrun & Htr & Hal & _ & Hcases).
  assert (Hh : huge_mem = MAP_FAILED).
  { destruct Hal as [(E & N & _)|(w1 & _ & E & _)].
    - pose proof (os_mmap_zero_length anon_prot (world st)) as Z0.
      rewrite E in Z0. contradiction.
    - pose proof (os_mmap_zero_length anon_prot w1) as Z0.
      rewrite E in Z0. exact Z0. }
  subst huge_mem.
  destruct (allocation_refused _ _ _ _ Hal) as (_ & Hfd & _ & Hev).
  destruct Hcases as [(_ & -> & -> & Ha & _ & Hw)|(Hne & _)]; [|contradiction].
  exists st'. split; [exact Hrun|].
  split; [rewrite Htr, Hev, app_nil_r; reflexivity|].
  split; [exact Ha|]. rewrite Hw. exact Hfd.
Qed.

Lemma empty_file_mapping_fails_witness :
  exists st',
    mmap 0 0 PROT_READ MAP_PRIVATE 6 0 (fresh empty_file_os) = (Returned MAP_FAILED, st') /\
    trace st' = trace (snd (init_functions (fresh empty_file_os))) ++ queries_made 6
                ++ [Ev (huge_request 0) MAP_FAILED; Ev (anon_request 0) MAP_FAILED] /\
    allocations st' = allocations (fresh empty_file_os) /\
    fdtab (world st') = fdtab (world (fresh empty_file_os)).
Proof.
  apply (empty_file_mapping_fails (fresh empty_file_os)
           (snd (init_functions (fresh empty_file_os))) 0 PROT_READ MAP_PRIVATE 6 0).
  - apply run_pair. vm_compute. reflexivity.
  - vm_compute. reflexivity.
Defined.

Lemma init_functions_exit_state :
  forall st,
    unresolvable st ->
    exists st0,
      init_functions st = (Exited 1, st0) /\
      allocations st0 = allocations st /\
      heap_records st0 = heap_records st /\
      world st0 = world st /\
      forallb (fun e => is_lookup "mmap" e || is_lookup "munmap" e)
              (skipn (List.length (trace st)) (trace st0)) = true.
Proof.
  intros st. unfold unresolvable. run_init.
  assert (Hskip : forall (l evs : list event), skipn (List.length l) (l ++ evs) = evs).
  { intros l evs. induction l as [|e l IH]; [reflexivity|exact IH]. }
  repeat (cbn; match goal with
               | |- context [?a =? nullptr] => destruct (Z.eqb_spec a nullptr)
               end);
    cbn; intros H;
    try (exfalso; intuition congruence);
    eexists; (split; [reflexivity|]); cbn;
    rewrite <- ?app_assoc, Hskip; repeat split.
Qed.

(** X16. An entry point called while a symbol it needs cannot be found (the
    constructor did not run, or the symbol is absent) ends the process with
    status 1 before doing anything else: the only calls made are symbol
    lookups, so no query, no mapping and no unmapping happens, and the
    registry and the world are as they were. *)
Theorem entry_points_exit_when_unresolvable :
  forall st,
    unresolvable st ->
    (forall addr length prot flags fd offset,
        fst (mmap addr length prot flags fd offset st) = Exited 1 /\
        allocations (snd (mmap addr length prot flags fd offset st)) = allocations st /\
        world (snd (mmap addr length prot flags fd offset st)) = world st /\
        forallb (fun e => is_lookup "mmap" e || is_lookup "munmap" e)
                (skipn (List.length (trace st))
                       (trace (snd (mmap addr length prot flags fd offset st)))) = true) /\
    (forall addr length,
        fst (munmap addr length st) = Exited 1 /\
        allocations (snd (munmap addr length st)) = allocations st /\
        world (snd (munmap addr length st)) = world st /\
        forallb (fun e => is_lookup "mmap" e || is_lookup "munmap" e)
                (skipn (List.length (trace st))
                       (trace (snd (munmap addr length st)))) = true).
Proof.
  intros st H.
  destruct (init_functions_exit_state st H) as (st0 & Hinit & Ha & _ & Hw & Htr).
  split.
  - intros addr length prot flags fd offset.
    assert (E : mmap addr length prot flags fd offset st = (Exited 1, st0))
      by (unfold mmap; unfold bind at 1; rewrite Hinit; reflexivity).
    rewrite E. cbn [fst snd]. auto.
  - intros addr length.
    assert (E : munmap addr length st = (Exited 1, st0))
      by (unfold munmap; unfold bind at 1; rewrite Hinit; reflexivity).
    rewrite E. cbn [fst snd]. auto.
Qed.

Lemma entry_points_exit_when_unresolvable_witness :
  fst (mmap 0 4096 3 0x22 (-1) 0 (fresh no_libc)) = Exited 1 /\
  fst (munmap 0x5000 4096 (fresh no_libc)) = Exited 1.
Proof.
  assert (H : unresolvable (fresh no_libc)) by (left; split; reflexivity).
  split.
  - apply (proj1 (entry_points_exit_when_unresolvable (fresh no_libc) H)
             0 4096 3 0x22 (-1) 0).
  - apply (proj2 (entry_points_exit_when_unresolvable (fresh no_libc) H) 0x5000 4096).
Defined.

